(** * Sustenta Futuro landing page scripts: a shallow embedding of [script.js]

    The script is a set of DOM event handlers.  The embedding has four layers:

    - [number]: the values of JavaScript's Number type that the script
      computes with.  Finite numbers are exact rationals (the rounding of
      binary64 is abstracted away), and NaN is kept because [parseInt]
      produces it.
    - [element], [world]: the document as a store of elements addressed by
      handles, together with the state the browser keeps for the page (scroll
      offset, clock, registered listeners, intersection observers, pending
      animation frames and timers, uncaught exceptions).
    - [js]: a state-and-exception monad over [world] in which the functions of
      the script are written statement by statement.
    - [event], [step]: what the browser does to the page: it dispatches
      events, delivers intersection entries, runs animation frames and fires
      timers. *)

From Stdlib Require Import QArith Qround Lqa Ascii String Sorted.
From stdpp Require Import gmap strings list.

(** ** Numbers *)

Module JS.

Inductive number : Type :=
| Num (q : Q)
| NaN.

Definition lift2 (f : Q -> Q -> Q) (x y : number) : number :=
  match x, y with
  | Num a, Num b => Num (f a b)
  | _, _ => NaN
  end.

Definition sub : number -> number -> number := lift2 Qminus.
Definition mul : number -> number -> number := lift2 Qmult.

(** [x / y].  The script only divides by the constant [duration]; a zero
    divisor (an infinity or NaN in JavaScript) is not a finite number. *)
Definition div (x y : number) : number :=
  match x, y with
  | Num a, Num b => if Qeq_bool b 0 then NaN else Num (a / b)
  | _, _ => NaN
  end.

(** [x < y]: false as soon as one side is NaN. *)
Definition lt (x y : number) : bool :=
  match x, y with
  | Num a, Num b => negb (Qle_bool b a)
  | _, _ => false
  end.

(** [x > y]. *)
Definition gt (x y : number) : bool := lt y x.

Definition Math_min (x y : number) : number :=
  match x, y with
  | Num a, Num b => if Qle_bool a b then Num a else Num b
  | _, _ => NaN
  end.

Fixpoint power (q : Q) (n : nat) : Q :=
  match n with
  | O => 1%Q
  | S n => (q * power q n)%Q
  end.

(** [Math.pow(x, n)] for a natural exponent; [Math.pow(NaN, 0)] is 1. *)
Definition Math_pow (x : number) (n : nat) : number :=
  match n, x with
  | O, _ => Num 1
  | _, Num q => Num (power q n)
  | _, NaN => NaN
  end.

(** [Math.round]: the nearest integer, halves rounded up. *)
Definition Math_round (x : number) : number :=
  match x with
  | Num q => Num (inject_Z (Qfloor (q + (1 # 2))))
  | NaN => NaN
  end.

(** *** [parseInt(string, 10)]

    Strings are the UTF-8 encoding of the DOMString. *)

Definition code (a : ascii) : N := N_of_ascii a.

(** White space and line terminators of one, two and three bytes. *)
Definition ws1 (a : ascii) : bool :=
  let c := code a in
  ((9 <=? c) && (c <=? 13) || (c =? 32))%N.

Definition ws2 (a b : ascii) : bool :=
  ((code a =? 194) && (code b =? 160))%N.   (* U+00A0 *)

Definition ws3 (a b c : ascii) : bool :=
  let '(x, y, z) := (code a, code b, code c) in
  ((x =? 225) && (y =? 154) && (z =? 128)                     (* U+1680 *)
   || (x =? 226) && (y =? 128) && (128 <=? z) && (z <=? 138)  (* U+2000..U+200A *)
   || (x =? 226) && (y =? 128) && ((z =? 168) || (z =? 169))  (* U+2028, U+2029 *)
   || (x =? 226) && (y =? 128) && (z =? 175)                  (* U+202F *)
   || (x =? 226) && (y =? 129) && (z =? 159)                  (* U+205F *)
   || (x =? 227) && (y =? 128) && (z =? 128)                  (* U+3000 *)
   || (x =? 239) && (y =? 187) && (z =? 191))%N.              (* U+FEFF *)

Fixpoint trimStart (s : string) : string :=
  match s with
  | EmptyString => s
  | String a r =>
      if ws1 a then trimStart r else
      match r with
      | EmptyString => s
      | String b r2 =>
          if ws2 a b then trimStart r2 else
          match r2 with
          | EmptyString => s
          | String c r3 => if ws3 a b c then trimStart r3 else s
          end
      end
  end.

Definition digit (a : ascii) : option Z :=
  let c := code a in
  if ((48 <=? c) && (c <=? 57))%N then Some (Z.of_N (c - 48)) else None.

(** The decimal digits the string starts with. *)
Fixpoint leading_digits (s : string) : list Z :=
  match s with
  | EmptyString => []
  | String a r =>
      match digit a with
      | Some d => d :: leading_digits r
      | None => []
      end
  end.

Definition decimal (ds : list Z) : Z :=
  fold_left (fun acc d => 10 * acc + d)%Z ds 0%Z.

Definition strip_sign (s : string) : Z * string :=
  match s with
  | String "-" r => ((-1)%Z, r)
  | String "+" r => (1%Z, r)
  | _ => (1%Z, s)
  end.

Definition parseInt (string : string) : number :=
  let '(sign, rest) := strip_sign (trimStart string) in
  match leading_digits rest with
  | [] => NaN
  | ds => Num (inject_Z (sign * decimal ds))
  end.

(** [String(v)] for a value that is a string or null. *)
Definition ToString (v : option string) : string :=
  match v with
  | Some s => s
  | None => "null"
  end.

End JS.

Export JS.

(** ** The document *)

Module DOM.

(** The inline style properties the script writes; [""] is an unset
    property. *)
Record CSSStyle : Type := mkStyle {
  opacity : string;
  background : string;
}.

(** [textContent] after an assignment: a string, or the string conversion
    of the number that was assigned (the model keeps the number). *)
Inductive text : Type :=
| Text (s : string)
| NumberText (n : number).

Record element : Type := mkElement {
  localName : string;           (* the tag, in lower case *)
  id : string;
  parentNode : option nat;
  classList : gset string;
  attributes : gmap string string;
  textContent : text;
  disabled : bool;
  style : CSSStyle;
  value : string;
  defaultValue : string;
  form : option nat;            (* the form owner of a form control *)
}.

Definition with_classList (f : gset string -> gset string) (e : element) : element :=
  mkElement (localName e) (id e) (parentNode e) (f (classList e)) (attributes e)
    (textContent e) (disabled e) (style e) (value e) (defaultValue e) (form e).

Definition with_textContent (t : text) (e : element) : element :=
  mkElement (localName e) (id e) (parentNode e) (classList e) (attributes e)
    t (disabled e) (style e) (value e) (defaultValue e) (form e).

Definition with_disabled (b : bool) (e : element) : element :=
  mkElement (localName e) (id e) (parentNode e) (classList e) (attributes e)
    (textContent e) b (style e) (value e) (defaultValue e) (form e).

Definition with_style (f : CSSStyle -> CSSStyle) (e : element) : element :=
  mkElement (localName e) (id e) (parentNode e) (classList e) (attributes e)
    (textContent e) (disabled e) (f (style e)) (value e) (defaultValue e) (form e).

Definition with_value (v : string) (e : element) : element :=
  mkElement (localName e) (id e) (parentNode e) (classList e) (attributes e)
    (textContent e) (disabled e) (style e) v (defaultValue e) (form e).

Definition with_opacity (v : string) (s : CSSStyle) : CSSStyle :=
  mkStyle v (background s).

Definition with_background (v : string) (s : CSSStyle) : CSSStyle :=
  mkStyle (opacity s) v.

(** A document is the list of its elements in tree order; a handle is a
    position in that list.  The script never creates or removes elements. *)
Abbreviation document := (list element).

(** Handles of the elements that satisfy [p], in tree order. *)
Definition select (p : nat -> element -> bool) (doc : document) : list nat :=
  (filter (fun ie => p ie.1 ie.2 = true) (imap pair doc)).*1.

(** The first element with the given id, or null. *)
Definition element_by_id (name : string) (doc : document) : option nat :=
  head (select (fun _ e => String.eqb (id e) name) doc).

(** [h] lies strictly below [root]; [fuel] bounds the walk to the root. *)
Fixpoint descends (doc : document) (fuel : nat) (root h : nat) : bool :=
  match fuel with
  | O => false
  | S fuel =>
      match doc !! h with
      | Some e =>
          match parentNode e with
          | Some p => (p =? root)%nat || descends doc fuel root p
          | None => false
          end
      | None => false
      end
  end.

Definition has_class (c : string) (e : element) : bool :=
  bool_decide (c ∈ classList e).

Definition has_attribute (a : string) (e : element) : bool :=
  bool_decide (is_Some (attributes e !! a)).

(** The form controls that [form.reset()] resets. *)
Definition owned_by (form_ : nat) (e : element) : bool :=
  bool_decide (form e = Some form_).

Definition reset_control (form_ : nat) (e : element) : element :=
  if owned_by form_ e then with_value (defaultValue e) e else e.

End DOM.

Export DOM.

(** ** The page as the browser holds it *)

Module Browser.

(** A nullable reference to an element, as [getElementById] returns it. *)
Definition ref : Type := option nat.

Inductive event_target : Type :=
| Window
| Node (h : nat).

(** The functions the script hands to the browser, one constructor per
    function expression of the source with the variables it closes over. *)
Inductive listener : Type :=
| onScroll (navbar : ref)                      (* initNavbar, line 31 *)
| toggleClick (toggle links : ref)             (* initMobileMenu, line 126 *)
| linkClick (toggle links : ref).              (* initMobileMenu, line 133 *)

Inductive observer_callback : Type :=
| revealEntries                                (* initScrollAnimations, line 49 *)
| counterEntries.                              (* initCounterAnimations, line 73 *)

Inductive frame_callback : Type :=
| update (element_ : ref) (target : number) (startTime : number).   (* line 99 *)

Inductive timer_callback : Type :=
| sendDone (btn form_ : ref)                   (* handleFormSubmit, line 164 *)
| sendReset (btn : ref).                       (* handleFormSubmit, line 171 *)

Record IntersectionObserver : Type := mkObserver {
  callback : observer_callback;
  threshold : Q;
  rootMargin : string;
  observed : gset nat;
}.

Record IntersectionObserverEntry : Type := mkEntry {
  target : nat;
  isIntersecting : bool;
}.

Record Event : Type := mkEvent {
  defaultPrevented : bool;
}.

Record world : Type := mkWorld {
  doc : document;
  scrollY : Q;                                     (* window.scrollY *)
  clock : Q;                                       (* performance.now(), ms *)
  listeners : list (event_target * string * listener);
  observers : list IntersectionObserver;
  animationFrames : list frame_callback;           (* requestAnimationFrame *)
  timers : list (Q * timer_callback);              (* setTimeout: due time *)
  uncaught : list string;                          (* reported exceptions *)
}.

Definition with_doc (f : document -> document) (w : world) : world :=
  mkWorld (f (doc w)) (scrollY w) (clock w) (listeners w) (observers w)
    (animationFrames w) (timers w) (uncaught w).

Definition with_scrollY (y : Q) (w : world) : world :=
  mkWorld (doc w) y (clock w) (listeners w) (observers w)
    (animationFrames w) (timers w) (uncaught w).

Definition with_clock (t : Q) (w : world) : world :=
  mkWorld (doc w) (scrollY w) t (listeners w) (observers w)
    (animationFrames w) (timers w) (uncaught w).

Definition with_listeners
    (f : list (event_target * string * listener) -> list (event_target * string * listener))
    (w : world) : world :=
  mkWorld (doc w) (scrollY w) (clock w) (f (listeners w)) (observers w)
    (animationFrames w) (timers w) (uncaught w).

Definition with_observers
    (f : list IntersectionObserver -> list IntersectionObserver) (w : world) : world :=
  mkWorld (doc w) (scrollY w) (clock w) (listeners w) (f (observers w))
    (animationFrames w) (timers w) (uncaught w).

Definition with_animationFrames
    (f : list frame_callback -> list frame_callback) (w : world) : world :=
  mkWorld (doc w) (scrollY w) (clock w) (listeners w) (observers w)
    (f (animationFrames w)) (timers w) (uncaught w).

Definition with_timers
    (f : list (Q * timer_callback) -> list (Q * timer_callback)) (w : world) : world :=
  mkWorld (doc w) (scrollY w) (clock w) (listeners w) (observers w)
    (animationFrames w) (f (timers w)) (uncaught w).

Definition with_uncaught (f : list string -> list string) (w : world) : world :=
  mkWorld (doc w) (scrollY w) (clock w) (listeners w) (observers w)
    (animationFrames w) (timers w) (f (uncaught w)).

Definition with_observed (f : gset nat -> gset nat) (o : IntersectionObserver)
    : IntersectionObserver :=
  mkObserver (callback o) (threshold o) (rootMargin o) (f (observed o)).

(** A page that has just been parsed: nothing registered yet. *)
Definition fresh (d : document) (y now : Q) : world :=
  mkWorld d y now [] [] [] [] [].

(** *** Script execution: state and exceptions *)

Inductive outcome (A : Type) : Type :=
| Returned (a : A) (w : world)
| Thrown (e : string) (w : world).
Arguments Returned {A} a w.
Arguments Thrown {A} e w.

Definition js (A : Type) : Type := world -> outcome A.

Definition ret {A : Type} (a : A) : js A := fun w => Returned a w.

Definition throw {A : Type} (e : string) : js A := fun w => Thrown e w.

Definition bind {A B : Type} (m : js A) (k : A -> js B) : js B :=
  fun w =>
    match m w with
    | Returned a w' => k a w'
    | Thrown e w' => Thrown e w'
    end.

Definition get {A : Type} (f : world -> A) : js A := fun w => Returned (f w) w.

Definition put (f : world -> world) : js unit := fun w => Returned tt (f w).

Declare Scope js_scope.
Delimit Scope js_scope with js.
Bind Scope js_scope with js.

Notation "'let*' x ':=' m 'in' k" := (bind m (fun x => k))
  (at level 10, x name, m at level 100, k at level 200, only parsing) : js_scope.
Notation "m ';;;' k" := (bind m (fun _ => k))
  (at level 100, k at level 200, right associativity, only parsing) : js_scope.

Local Open Scope js_scope.

(** [list.forEach(f)] *)
Fixpoint forEach {A : Type} (l : list A) (f : A -> js unit) : js unit :=
  match l with
  | [] => ret tt
  | x :: l => f x ;;; forEach l f
  end.

(** The final world of a run, and how the browser ends a callback: an
    exception that escapes is reported and the page goes on. *)
Definition final {A : Type} (o : outcome A) : world :=
  match o with
  | Returned _ w => w
  | Thrown _ w => w
  end.

Definition invoke (m : js unit) (w : world) : world :=
  match m w with
  | Returned _ w' => w'
  | Thrown e w' => with_uncaught (fun l => l ++ [e]) w'
  end.

End Browser.

Export Browser.

(** ** The DOM and timer interfaces the script calls *)

Module API.

Local Open Scope js_scope.

Definition is_null (r : ref) : bool :=
  match r with
  | None => true
  | Some _ => false
  end.

(** Reading through a reference; [null] has no properties. *)
Definition deref (r : ref) : js (nat * element) :=
  fun w =>
    match r with
    | None => Thrown "TypeError: Cannot read properties of null" w
    | Some h =>
        match doc w !! h with
        | Some e => Returned (h, e) w
        | None => Thrown "TypeError: Cannot read properties of undefined" w
        end
    end.

Definition modify (r : ref) (f : element -> element) : js unit :=
  let* he := deref r in
  put (with_doc (fun d => <[he.1 := f he.2]> d)).

Definition getElementById (name : string) : js ref :=
  get (fun w => element_by_id name (doc w)).

(** [document.querySelectorAll(selector)], the selector given as the
    predicate it denotes. *)
Definition querySelectorAll (selector : element -> bool) : js (list nat) :=
  get (fun w => select (fun _ e => selector e) (doc w)).

(** [root.querySelectorAll(selector)]: the matching descendants of [root]. *)
Definition querySelectorAll_in (root : ref) (selector : element -> bool)
    : js (list nat) :=
  let* he := deref root in
  get (fun w =>
         select (fun h e => selector e && descends (doc w) (length (doc w)) he.1 h)
           (doc w)).

(** ['.animate-on-scroll'] *)
Definition animate_on_scroll (e : element) : bool :=
  has_class "animate-on-scroll" e.

(** ['.stat-number[data-target]'] *)
Definition stat_number_with_target (e : element) : bool :=
  has_class "stat-number" e && has_attribute "data-target" e.

(** ['a'] *)
Definition anchor (e : element) : bool := String.eqb (localName e) "a".

Definition classList_add (r : ref) (c : string) : js unit :=
  modify r (with_classList (fun s => s ∪ {[c]})).

Definition classList_remove (r : ref) (c : string) : js unit :=
  modify r (with_classList (fun s => s ∖ {[c]})).

(** [classList.toggle(c)] and [classList.toggle(c, force)]; the boolean
    result is not used by the script. *)
Definition classList_toggle (r : ref) (c : string) (force : option bool) : js unit :=
  let* he := deref r in
  match force with
  | Some true => classList_add r c
  | Some false => classList_remove r c
  | None => if has_class c he.2 then classList_remove r c else classList_add r c
  end.

Definition getAttribute (r : ref) (a : string) : js (option string) :=
  let* he := deref r in
  ret (attributes he.2 !! a).

Definition set_textContent (r : ref) (t : text) : js unit :=
  modify r (with_textContent t).

Definition set_disabled (r : ref) (b : bool) : js unit :=
  modify r (with_disabled b).

Definition set_style_opacity (r : ref) (v : string) : js unit :=
  modify r (with_style (with_opacity v)).

Definition set_style_background (r : ref) (v : string) : js unit :=
  modify r (with_style (with_background v)).

(** [form.reset()]: every control owned by the form goes back to its default
    value.  Only form elements have the method. *)
Definition reset (r : ref) : js unit :=
  let* he := deref r in
  if String.eqb (localName he.2) "form"
  then put (with_doc (fun d => reset_control he.1 <$> d))
  else throw "TypeError: form.reset is not a function".

Definition preventDefault (ev : Event) : Event := mkEvent true.

Definition addEventListener (t : event_target) (type : string) (l : listener) : js unit :=
  put (with_listeners (fun ls => ls ++ [(t, type, l)])).

(** [element.addEventListener(type, l)] *)
Definition addEventListener_on (r : ref) (type : string) (l : listener) : js unit :=
  let* he := deref r in
  addEventListener (Node he.1) type l.

(** [new IntersectionObserver(callback, options)]; the result is the
    position of the new observer among the page's observers. *)
Definition new_IntersectionObserver (cb : observer_callback) (thr : Q) (margin : string)
    : js nat :=
  let* n := get (fun w => length (observers w)) in
  put (with_observers (fun os => os ++ [mkObserver cb thr margin ∅])) ;;;
  ret n.

Definition observe (observer : nat) (el : nat) : js unit :=
  put (with_observers (alter (with_observed (fun s => s ∪ {[el]})) observer)).

Definition unobserve (observer : nat) (el : nat) : js unit :=
  put (with_observers (alter (with_observed (fun s => s ∖ {[el]})) observer)).

Definition performance_now : js number := get (fun w => Num (clock w)).

Definition window_scrollY : js number := get (fun w => Num (scrollY w)).

Definition requestAnimationFrame (cb : frame_callback) : js unit :=
  put (with_animationFrames (fun fs => fs ++ [cb])).

Definition setTimeout (cb : timer_callback) (delay : Q) : js unit :=
  put (fun w => with_timers (fun ts => ts ++ [((clock w + delay)%Q, cb)]) w).

End API.

Export API.

(** ** The script *)

Module Script.

Local Open Scope js_scope.

(** *** Navbar: lines 27-37 *)

Definition run_onScroll (navbar : ref) : js unit :=
  let* y := window_scrollY in
  classList_toggle navbar "scrolled" (Some (gt y (Num 60))).

Definition initNavbar : js unit :=
  let* navbar := getElementById "navbar" in
  if is_null navbar then ret tt else
  addEventListener Window "scroll" (onScroll navbar) ;;;
  run_onScroll navbar.

(** *** Scroll animations: lines 44-61 *)

Definition run_revealEntries (observer : nat) (entries : list IntersectionObserverEntry)
    : js unit :=
  forEach entries (fun entry =>
    if isIntersecting entry then
      classList_add (Some (target entry)) "visible" ;;;
      unobserve observer (target entry)
    else ret tt).

Definition initScrollAnimations : js unit :=
  let* elements := querySelectorAll animate_on_scroll in
  if (length elements =? 0)%nat then ret tt else
  let* observer := new_IntersectionObserver revealEntries (1 # 10) "0px 0px -50px 0px" in
  forEach elements (fun el => observe observer el).

(** *** Counters: lines 68-115 *)

Definition duration : number := Num 2000.

Definition progress (elapsed : number) : number :=
  Math_min (div elapsed duration) (Num 1).

(** Ease-out cubic for smooth deceleration *)
Definition easedProgress (progress : number) : number :=
  sub (Num 1) (Math_pow (sub (Num 1) progress) 3).

Definition current (easedProgress target : number) : number :=
  Math_round (mul easedProgress target).

Definition run_update (element_ : ref) (target startTime : number) (currentTime : number)
    : js unit :=
  let elapsed := sub currentTime startTime in
  let progress := progress elapsed in
  let easedProgress := easedProgress progress in
  let current := current easedProgress target in
  set_textContent element_ (NumberText current) ;;;
  if lt progress (Num 1)
  then requestAnimationFrame (update element_ target startTime)
  else ret tt.

Definition animateCounter (element_ : ref) : js unit :=
  let* attr := getAttribute element_ "data-target" in
  let target := parseInt (ToString attr) in
  let* startTime := performance_now in
  requestAnimationFrame (update element_ target startTime).

Definition run_counterEntries (observer : nat) (entries : list IntersectionObserverEntry)
    : js unit :=
  forEach entries (fun entry =>
    if isIntersecting entry then
      animateCounter (Some (target entry)) ;;;
      unobserve observer (target entry)
    else ret tt).

Definition initCounterAnimations : js unit :=
  let* counters := querySelectorAll stat_number_with_target in
  if (length counters =? 0)%nat then ret tt else
  let* observer := new_IntersectionObserver counterEntries (1 # 2) "0px" in
  forEach counters (fun el => observe observer el).

(** *** Mobile menu: lines 121-138 *)

Definition run_toggleClick (toggle links : ref) : js unit :=
  classList_toggle toggle "active" None ;;;
  classList_toggle links "open" None.

Definition run_linkClick (toggle links : ref) : js unit :=
  classList_remove toggle "active" ;;;
  classList_remove links "open".

Definition initMobileMenu : js unit :=
  let* toggle := getElementById "navToggle" in
  let* links := getElementById "navLinks" in
  if is_null toggle || is_null links then ret tt else
  addEventListener_on toggle "click" (toggleClick toggle links) ;;;
  let* anchors := querySelectorAll_in links anchor in
  forEach anchors (fun link =>
    addEventListener_on (Some link) "click" (linkClick toggle links)).

(** *** Contact form: lines 150-177 *)

Definition run_sendReset (btn : ref) : js unit :=
  set_textContent btn (Text "Enviar Mensaje") ;;;
  set_disabled btn false ;;;
  set_style_background btn "".

Definition run_sendDone (btn form_ : ref) : js unit :=
  set_textContent btn (Text "✅ Mensaje Enviado") ;;;
  set_style_background btn "linear-gradient(135deg, #4CAF50, #388E3C)" ;;;
  set_style_opacity btn "1" ;;;
  reset form_ ;;;
  setTimeout (sendReset btn) 3000.

(** The event is an object the caller shares with the handler; the model
    returns it as the handler leaves it. *)
Definition handleFormSubmit (event : Event) : js Event :=
  let event := preventDefault event in
  let* btn := getElementById "submitBtn" in
  let* form_ := getElementById "contactForm" in
  if is_null btn || is_null form_ then ret event else
  set_textContent btn (Text "Enviando...") ;;;
  set_disabled btn true ;;;
  set_style_opacity btn "0.7" ;;;
  setTimeout (sendDone btn form_) 1200 ;;;
  ret event.

(** *** Entry point: lines 16-21 *)

Definition main : js unit :=
  initNavbar ;;;
  initScrollAnimations ;;;
  initCounterAnimations ;;;
  initMobileMenu.

End Script.

Export Script.

(** ** What the browser does with the page *)

Module Loop.

Definition run_listener (l : listener) : js unit :=
  match l with
  | onScroll navbar => run_onScroll navbar
  | toggleClick toggle links => run_toggleClick toggle links
  | linkClick toggle links => run_linkClick toggle links
  end.

Definition run_observer_callback (cb : observer_callback) (observer : nat)
    (entries : list IntersectionObserverEntry) : js unit :=
  match cb with
  | revealEntries => run_revealEntries observer entries
  | counterEntries => run_counterEntries observer entries
  end.

Definition run_frame_callback (cb : frame_callback) (timestamp : number) : js unit :=
  match cb with
  | update element_ target startTime => run_update element_ target startTime timestamp
  end.

Definition run_timer_callback (cb : timer_callback) : js unit :=
  match cb with
  | sendDone btn form_ => run_sendDone btn form_
  | sendReset btn => run_sendReset btn
  end.

Definition event_target_eqb (a b : event_target) : bool :=
  match a, b with
  | Window, Window => true
  | Node h, Node k => (h =? k)%nat
  | _, _ => false
  end.

(** The listeners registered on [t] for events of type [type], in the order
    of their registration. *)
Definition listening (t : event_target) (type : string) (w : world) : list listener :=
  (filter (fun r => event_target_eqb r.1.1 t && String.eqb r.1.2 type = true)
     (listeners w)).*2.

Definition dispatch (t : event_target) (type : string) (w : world) : world :=
  fold_left (fun w l => invoke (run_listener l) w) (listening t type w) w.

(** The entries an observer's callback receives: the browser only reports
    on targets that the observer is observing. *)
Definition received (o : IntersectionObserver) (entries : list IntersectionObserverEntry)
    : list IntersectionObserverEntry :=
  filter (fun e => target e ∈ observed o) entries.

Definition deliver (observer : nat) (entries : list IntersectionObserverEntry)
    (w : world) : world :=
  match observers w !! observer with
  | None => w
  | Some o => invoke (run_observer_callback (callback o) observer (received o entries)) w
  end.

(** One display refresh: the callbacks requested so far run with the
    frame's timestamp; what they request is left for the next frame. *)
Definition frame (timestamp : Q) (w : world) : world :=
  fold_left (fun w cb => invoke (run_frame_callback cb (Num timestamp)) w)
    (animationFrames w) (with_animationFrames (fun _ => []) w).

(** The pending timer that is due first (the older one on a tie), and the
    others. *)
Fixpoint pop_earliest (l : list (Q * timer_callback))
    : option ((Q * timer_callback) * list (Q * timer_callback)) :=
  match l with
  | [] => None
  | x :: l' =>
      match pop_earliest l' with
      | None => Some (x, [])
      | Some (y, rest) =>
          if Qle_bool x.1 y.1 then Some (x, l') else Some (y, x :: rest)
      end
  end.

(** Time passes until the next timer is due, and it fires. *)
Definition timeout (w : world) : world :=
  match pop_earliest (timers w) with
  | None => w
  | Some ((due, cb), rest) =>
      let now := if Qle_bool (clock w) due then due else clock w in
      invoke (run_timer_callback cb) (with_timers (fun _ => rest) (with_clock now w))
  end.

(** A form is submitted: the page calls [handleFormSubmit(event)]. *)
Definition submit (w : world) : world :=
  invoke (fun w => match handleFormSubmit (mkEvent false) w with
                   | Returned _ w' => Returned tt w'
                   | Thrown e w' => Thrown e w'
                   end) w.

Inductive event : Type :=
| Scroll (y : Q)
| Click (h : nat)
| Intersect (observer : nat) (entries : list IntersectionObserverEntry)
| AnimationFrame (timestamp : Q)
| Timeout
| Submit.

Definition step (w : world) (ev : event) : world :=
  match ev with
  | Scroll y => dispatch Window "scroll" (with_scrollY y w)
  | Click h => dispatch (Node h) "click" w
  | Intersect observer entries => deliver observer entries w
  | AnimationFrame timestamp => frame timestamp w
  | Timeout => timeout w
  | Submit => submit w
  end.

Definition run (w : world) (evs : list event) : world := fold_left step evs w.

(** The page once [DOMContentLoaded] has been handled. *)
Definition load (d : document) (y now : Q) : world :=
  invoke main (fresh d y now).

End Loop.

Export Loop.

(** ** Observations and invariants used in the statements *)

Module Props.

Local Open Scope string_scope.

(** The element [h] carries the class [c]. *)
Definition shows (c : string) (h : nat) (w : world) : Prop :=
  ∃ e, doc w !! h = Some e ∧ c ∈ classList e.

Definition text_of (h : nat) (w : world) : option text := textContent <$> doc w !! h.

(** The observer no longer observes [el]. *)
Definition unobserved (observer el : nat) (w : world) : Prop :=
  ∀ o, observers w !! observer = Some o → el ∉ observed o.

(** [m] keeps [P], whether it returns or throws. *)
Definition preserves {A : Type} (P : world → Prop) (m : js A) : Prop :=
  ∀ w, P w → P (final (m w)).

(** The edits of a single element that the handlers other than [onScroll]
    perform. *)
Inductive handler_edit : (element → element) → Prop :=
| edit_add (c : string) :
    c ∈ ["visible"; "active"; "open"] → handler_edit (with_classList (fun s => s ∪ {[c]}))
| edit_remove (c : string) :
    c ∈ ["active"; "open"] → handler_edit (with_classList (fun s => s ∖ {[c]}))
| edit_text (t : text) : handler_edit (with_textContent t)
| edit_disabled (b : bool) : handler_edit (with_disabled b)
| edit_opacity (v : string) : handler_edit (with_style (with_opacity v))
| edit_background (v : string) : handler_edit (with_style (with_background v)).

(** A property of the page that none of the script's handlers can break. *)
Record stable (P : world → Prop) : Prop := {
  st_uncaught : ∀ f w, P w → P (with_uncaught f w);
  st_frames : ∀ f w, P w → P (with_animationFrames f w);
  st_timers : ∀ f w, P w → P (with_timers f w);
  st_clock : ∀ t w, P w → P (with_clock t w);
  st_unobserve : ∀ o el w,
    P w → P (with_observers (alter (with_observed (fun s => s ∖ {[el]})) o) w);
  st_edit : ∀ f w h e,
    handler_edit f → P w → doc w !! h = Some e →
    P (with_doc (fun d => <[h := f e]> d) w);
  st_reset : ∀ h w, P w → P (with_doc (fun d => reset_control h <$> d) w);
  st_onScroll : ∀ r, preserves P (run_onScroll r);
}.

(** What [classList.toggle(c)] makes of an element. *)
Definition toggled (c : string) (e : element) : element :=
  with_classList (fun s => if has_class c e then s ∖ {[c]} else s ∪ {[c]}) e.

(** The submit button while the message is being sent, once it is sent,
    and back at rest: the three groups of assignments of [handleFormSubmit]. *)
Definition sending (e : element) : element :=
  with_style (with_opacity "0.7") (with_disabled true (with_textContent (Text "Enviando...") e)).

Definition sent (e : element) : element :=
  with_style (with_opacity "1")
    (with_style (with_background "linear-gradient(135deg, #4CAF50, #388E3C)")
       (with_textContent (Text "✅ Mensaje Enviado") e)).

Definition idle (e : element) : element :=
  with_style (with_background "") (with_disabled false (with_textContent (Text "Enviar Mensaje") e)).

(** The page right after the submission, after the first timer and after
    the second one, for a page [w] whose submit button [btn] is [b]. *)
Definition on_submit (w : world) (btn form_ : nat) (b : element) : world :=
  mkWorld (<[btn := sending b]> (doc w)) (scrollY w) (clock w) (listeners w) (observers w)
    (animationFrames w) [((clock w + 1200)%Q, sendDone (Some btn) (Some form_))] (uncaught w).

Definition on_sent (w : world) (btn form_ : nat) (b : element) : world :=
  mkWorld (reset_control form_ <$> <[btn := sent (sending b)]> (doc w)) (scrollY w)
    (clock w + 1200)%Q (listeners w) (observers w) (animationFrames w)
    [((clock w + 1200 + 3000)%Q, sendReset (Some btn))] (uncaught w).

Definition on_idle (w : world) (btn form_ : nat) (b : element) : world :=
  mkWorld (<[btn := idle (reset_control form_ (sent (sending b)))]>
             (doc (on_sent w btn form_ b)))
    (scrollY w) (clock w + 1200 + 3000)%Q (listeners w) (observers w) (animationFrames w)
    [] (uncaught w).

(** Every control of the form is empty. *)
Definition cleared (form_ : nat) (d : document) : bool :=
  forallb (fun c => negb (owned_by form_ c) || String.eqb (value c) "") d.

Definition inline_background (h : nat) (w : world) : option string :=
  (fun e => background (style e)) <$> doc w !! h.

(** What [onScroll] makes of a class list at the offset [y]. *)
Definition scrolled_class (y : Q) (s : gset string) : gset string :=
  if gt (Num y) (Num 60) then s ∪ {["scrolled"]} else s ∖ {["scrolled"]}.

(** The navbar watcher is in place and the navbar reflects the current
    scroll offset. *)
Definition watching (navbar : nat) (w : world) : Prop :=
  listening Window "scroll" w = [onScroll (Some navbar)] ∧
  ∃ e, doc w !! navbar = Some e ∧ ("scrolled" ∈ classList e ↔ (60 < scrollY w)%Q).

(** [watching], at the scroll offset [y]. *)
Definition ready (navbar : nat) (y : Q) (w : world) : Prop :=
  watching navbar w ∧ scrollY w = y.

(** The progress ratio as a rational: [min(elapsed / 2000, 1)]. *)
Definition ratio (elapsed : Q) : Q :=
  if Qle_bool (elapsed / 2000) 1 then (elapsed / 2000)%Q else 1%Q.

(** The number a frame with timestamp [t] writes into the element. *)
Definition written (target : number) (start t : Q) : number :=
  current (easedProgress (progress (sub (Num t) (Num start)))) target.

(** The frame callback writes into [el]. *)
Definition for_element (el : nat) (cb : frame_callback) : Prop :=
  match cb with
  | update r _ _ => r = Some el
  end.

(** No frame is requested for [el]; other counters may be running. *)
Definition no_frame_for (el : nat) (w : world) : Prop :=
  Forall (fun cb => ¬ for_element el cb) (animationFrames w).

(** The counter loop of [el] is waiting for its next frame: its callback is
    among the requested ones, once. *)
Definition animating (el : nat) (target : number) (start : Q) (w : world) : Prop :=
  (∃ q1 q2, animationFrames w = (q1 ++ update (Some el) target (Num start) :: q2)%list ∧
            Forall (fun cb => ¬ for_element el cb) (q1 ++ q2)%list) ∧
  is_Some (doc w !! el).

(** The counter loop of [el] has ended: no frame is requested for it and
    the element shows the rounded target. *)
Definition finished (el : nat) (target : number) (w : world) : Prop :=
  no_frame_for el w ∧ text_of el w = Some (NumberText (Math_round target)).

Definition counting (el : nat) (target : number) (start : Q) (w : world) : Prop :=
  animating el target start w ∨ finished el target w.

(** The first [n] display refreshes, with the timestamps [ts 0], [ts 1], ... *)
Definition refreshes (ts : nat → Q) (n : nat) : list event :=
  AnimationFrame <$> (ts <$> seq 0 n).

(** The text has no integer to parse: after leading white space and an
    optional sign it does not start with a decimal digit. *)
Definition starts_with_digit (s : string) : bool :=
  match s with
  | String a _ => bool_decide (is_Some (digit a))
  | EmptyString => false
  end.

Definition not_an_integer (s : string) : Prop :=
  starts_with_digit (strip_sign (trimStart s)).2 = false.

End Props.

Export Props.

(** ** Whole-page observations: what loading leaves, what never changes *)

Module Page.

Local Open Scope string_scope.

(** What the markup gives an element and the script never writes. *)
Definition markup (e : element) :=
  (localName e, id e, parentNode e, attributes e, defaultValue e, form e).

(** The classes the script adds or removes. *)
Definition script_classes : list string := ["scrolled"; "visible"; "active"; "open"].

(** [e'] is [e] up to what the script writes: the four classes, the text,
    the disabled flag, the inline style and the value. *)
Definition same_markup (e e' : element) : Prop :=
  markup e' = markup e ∧
  ∀ c, c ∉ script_classes → c ∈ classList e' ↔ c ∈ classList e.

Definition same_markup_doc (d d' : document) : Prop :=
  length d' = length d ∧
  ∀ h e e', d !! h = Some e → d' !! h = Some e' → same_markup e e'.

(** The observers that [new IntersectionObserver] and the [observe] loop
    leave for the selected elements: none when nothing is selected. *)
Definition observing (cb : observer_callback) (thr : Q) (margin : string) (els : list nat)
    : list IntersectionObserver :=
  match els with
  | [] => []
  | _ => [mkObserver cb thr margin (list_to_set els)]
  end.

Definition navbar_listeners (d : document) : list (event_target * string * listener) :=
  match element_by_id "navbar" d with
  | Some h => [(Window, "scroll", onScroll (Some h))]
  | None => []
  end.

(** The anchors below the element [links]. *)
Definition anchors_in (links : nat) (d : document) : list nat :=
  select (fun h e => anchor e && descends d (length d) links h) d.

Definition menu_listeners (d : document) : list (event_target * string * listener) :=
  match element_by_id "navToggle" d, element_by_id "navLinks" d with
  | Some t, Some l =>
      (Node t, "click", toggleClick (Some t) (Some l))
        :: ((fun a => (Node a, "click", linkClick (Some t) (Some l))) <$> anchors_in l d)
  | _, _ => []
  end.

(** The document once [onScroll] has run for the first time. *)
Definition navbar_at (y : Q) (d : document) : document :=
  match element_by_id "navbar" d with
  | Some h => alter (with_classList (scrolled_class y)) h d
  | None => d
  end.

(** The page that [DOMContentLoaded] leaves, in closed form. *)
Definition loaded_page (d : document) (y now : Q) : world :=
  mkWorld (navbar_at y d) y now
    (navbar_listeners d ++ menu_listeners d)
    (observing revealEntries (1 # 10) "0px 0px -50px 0px"
       (select (fun _ e => animate_on_scroll e) d)
     ++ observing counterEntries (1 # 2) "0px"
          (select (fun _ e => stat_number_with_target e) d))
    [] [] [].

(** [o'] is [o] with some of its targets unobserved. *)
Definition narrowed (o o' : IntersectionObserver) : Prop :=
  callback o' = callback o ∧ threshold o' = threshold o ∧ rootMargin o' = rootMargin o ∧
  observed o' ⊆ observed o.

(** The page [w] has the listeners of [w0] and its observers, narrowed. *)
Definition wired_as (w0 w : world) : Prop :=
  listeners w = listeners w0 ∧ Forall2 narrowed (observers w0) (observers w).

(** The document of [w] is [d0] up to what the script writes. *)
Definition marked_up_as (d0 : document) (w : world) : Prop :=
  same_markup_doc d0 (doc w).

(** What [classList.remove(c)] makes of an element. *)
Definition without (c : string) (e : element) : element :=
  with_classList (fun s => s ∖ {[c]}) e.

(** The document once the closing handler of the menu has run. *)
Definition closed_menu (toggle links : nat) (d : document) : document :=
  alter (without "open") links (alter (without "active") toggle d).

(** The batch holds an intersecting entry for [h]. *)
Definition intersects (h : nat) (entries : list IntersectionObserverEntry) : bool :=
  existsb (fun entry => (target entry =? h)%nat && isIntersecting entry) entries.

(** The target that [animateCounter] reads from the element [h]. *)
Definition counter_target (d : document) (h : nat) : number :=
  parseInt (ToString (d !! h ≫= fun e => attributes e !! "data-target")).

(** The frame callbacks that the counter callback requests for a batch of
    entries, at the time [now]. *)
Definition started (d : document) (now : Q) (entries : list IntersectionObserverEntry)
    : list frame_callback :=
  (fun entry => update (Some (target entry)) (counter_target d (target entry)) (Num now))
    <$> filter (fun entry => isIntersecting entry = true) entries.

(** What [classList.add("visible")] makes of an element. *)
Definition revealed (e : element) : element :=
  with_classList (fun s => s ∪ {["visible"]}) e.

(** A reference held by a closure points into a document of [n] elements. *)
Definition live_ref (n : nat) (r : ref) : Prop :=
  match r with
  | Some h => (h < n)%nat
  | None => False
  end.

Definition listener_live (n : nat) (l : listener) : Prop :=
  match l with
  | onScroll navbar => live_ref n navbar
  | toggleClick toggle links => live_ref n toggle ∧ live_ref n links
  | linkClick toggle links => live_ref n toggle ∧ live_ref n links
  end.

Definition frame_live (n : nat) (cb : frame_callback) : Prop :=
  match cb with
  | update element_ _ _ => live_ref n element_
  end.

(** The reference points to a form element of [d]. *)
Definition is_form (d : document) (r : ref) : Prop :=
  ∃ h e, r = Some h ∧ d !! h = Some e ∧ localName e = "form".

Definition timer_live (d : document) (cb : timer_callback) : Prop :=
  match cb with
  | sendDone btn form_ => live_ref (length d) btn ∧ is_form d form_
  | sendReset btn => live_ref (length d) btn
  end.

(** The element with the id [contactForm], if there is one, is a form. *)
Definition contact_form_is_form (d : document) : Prop :=
  ∀ h e, element_by_id "contactForm" d = Some h → d !! h = Some e → localName e = "form".

(** The page [w] has the markup of [d0], and every reference that one of
    its closures or observers holds is live. *)
Definition sound (d0 : document) (w : world) : Prop :=
  same_markup_doc d0 (doc w) ∧
  Forall (fun r => listener_live (length d0) r.2) (listeners w) ∧
  Forall (fun o => ∀ h, h ∈ observed o → (h < length d0)%nat) (observers w) ∧
  Forall (frame_live (length d0)) (animationFrames w) ∧
  Forall (fun t => timer_live d0 t.2) (timers w).

(** From a page that satisfies [P], [m] returns a value that satisfies [Q]
    and a page that satisfies [P], and raises nothing. *)
Definition total {A : Type} (P : world → Prop) (m : js A) (Q : A → Prop) : Prop :=
  ∀ w, P w → ∃ a w', m w = Returned a w' ∧ P w' ∧ Q a ∧ uncaught w' = uncaught w.

(** A decimal digit as a character, and a string of digits. *)
Definition digit_char (d : Z) : ascii := ascii_of_N (48 + Z.to_N d).

Definition digit_string (ds : list Z) : string :=
  fold_right (fun d s => String (digit_char d) s) EmptyString ds.

Definition decimal_digits (ds : list Z) : Prop :=
  Forall (fun d => (0 <= d <= 9)%Z) ds.

(** [P] survives what a kind of handler writes. *)
Definition survives_classes (P : world → Prop) : Prop :=
  ∀ w h e f, P w → doc w !! h = Some e →
    P (with_doc (fun d => <[h := with_classList f e]> d) w).

Definition survives_text (P : world → Prop) : Prop :=
  ∀ w h e t, P w → doc w !! h = Some e →
    P (with_doc (fun d => <[h := with_textContent t e]> d) w).

Definition survives_button (P : world → Prop) : Prop :=
  survives_text P ∧
  (∀ w h e b, P w → doc w !! h = Some e →
     P (with_doc (fun d => <[h := with_disabled b e]> d) w)) ∧
  (∀ w h e f, P w → doc w !! h = Some e →
     P (with_doc (fun d => <[h := with_style f e]> d) w)).

Definition survives_reset (P : world → Prop) : Prop :=
  ∀ w h, P w → P (with_doc (fun d => reset_control h <$> d) w).

Definition survives_uncaught (P : world → Prop) : Prop :=
  ∀ f w, P w → P (with_uncaught f w).

Definition survives_frames (P : world → Prop) : Prop :=
  ∀ f w, P w → P (with_animationFrames f w).

Definition survives_timers (P : world → Prop) : Prop :=
  ∀ f w, P w → P (with_timers f w).

Definition survives_observers (P : world → Prop) : Prop :=
  ∀ f w, P w → P (with_observers f w).

Definition survives_clock (P : world → Prop) : Prop :=
  ∀ t w, P w → P (with_clock t w).

(** Every element of [w] is [R]-related to the element of [d] in its
    place. *)
Definition related (R : element → element → Prop) (d : document) (w : world) : Prop :=
  ∀ h e', doc w !! h = Some e' → ∃ e, d !! h = Some e ∧ R e e'.

(** [e'] differs from [e] in its classes only; in its text only. *)
Definition only_classes (e e' : element) : Prop :=
  e' = with_classList (fun _ => classList e') e.

Definition only_text (e e' : element) : Prop :=
  e' = with_textContent (textContent e') e.

Definition keeps_classes (e e' : element) : Prop := classList e' = classList e.

Definition keeps_classes_and_value (e e' : element) : Prop :=
  classList e' = classList e ∧ value e' = value e.

(** The submit button is at rest: the label of the idle state, enabled, no
    inline background. *)
Definition at_rest (btn : nat) (w : world) : Prop :=
  ∃ b, doc w !! btn = Some b ∧ textContent b = Text "Enviar Mensaje" ∧
       disabled b = false ∧ background (style b) = "".

(** A timer callback of a submission with the button [btn] and the form
    [form_]. *)
Definition timer_of (btn form_ : nat) (cb : timer_callback) : Prop :=
  cb = sendDone (Some btn) (Some form_) ∨ cb = sendReset (Some btn).

(** The page [w] is somewhere in the submissions that started from [w0]:
    its pending timers are theirs, and with none pending the button is at
    rest. *)
Definition cycling (w0 : world) (btn form_ : nat) (w : world) : Prop :=
  same_markup_doc (doc w0) (doc w) ∧
  Forall (fun t => timer_of btn form_ t.2) (timers w) ∧
  uncaught w = uncaught w0 ∧
  (timers w = [] → at_rest btn w).

(** The timer callback does not hold the element [el]. *)
Definition timer_off (el : nat) (cb : timer_callback) : Prop :=
  match cb with
  | sendDone btn _ => btn ≠ Some el
  | sendReset btn => btn ≠ Some el
  end.

(** Nothing on the page will write the text of [el] again: no counter
    observer observes it, it is not the submit button, and no pending timer
    holds it. *)
Definition settled (el : nat) (w : world) : Prop :=
  (∀ o, o ∈ observers w → callback o = counterEntries → el ∉ observed o) ∧
  element_by_id "submitBtn" (doc w) ≠ Some el ∧
  Forall (fun t => timer_off el t.2) (timers w).

End Page.

Export Page.

(** ** Sample pages *)

Module Sample.

Local Open Scope string_scope.

Definition tag (name ident : string) (parent : option nat) (classes : list string)
    (attrs : list (string * string)) : element :=
  mkElement name ident parent (list_to_set classes) (list_to_map attrs)
    (Text "") false (mkStyle "" "") "" "" None.

(** A control of the form [owner] with a default value and a current value. *)
Definition control (name ident : string) (owner : nat) (default current : string)
    : element :=
  mkElement name ident (Some owner) ∅ ∅ (Text "") false (mkStyle "" "") current default
    (Some owner).

Definition counter : element :=
  tag "span" "" None ["stat-number"] [("data-target", "100")].

Definition contact_form : element := tag "form" "contactForm" None [] [].

Definition submit_button : element :=
  with_textContent (Text "Enviar Mensaje") (control "button" "submitBtn" 6 "" "").

(** A landing page: navbar with toggle and links, a section that fades in,
    a counter, the contact form with one field and the submit button, and a
    second counter. *)
Definition landing : document :=
  [ tag "nav" "navbar" None [] [];
    tag "button" "navToggle" (Some 0) [] [];
    tag "ul" "navLinks" (Some 0) [] [];
    tag "a" "" (Some 2) [] [];
    tag "section" "" None ["animate-on-scroll"] [];
    counter;
    contact_form;
    control "input" "" 6 "" "hola";
    submit_button;
    tag "span" "" None ["stat-number"] [("data-target", "25")] ].

(** The landing page once loaded, at the top, at time 0; its first observer
    is the one of the scroll animations. *)
Definition loaded : world := load landing 0 0.

Definition reveal_observer : IntersectionObserver :=
  mkObserver revealEntries (1 # 10) "0px 0px -50px 0px" {[4]}.

(** The loaded page once its second counter has come into view and has
    started to count. *)
Definition counting_second : world := step loaded (Intersect 1 [mkEntry 9 true]).

(** The same form, with a field whose markup gives a default value and a
    submit button styled inline. *)
Definition prefilled : document :=
  [ tag "form" "contactForm" None [] [];
    control "input" "" 0 "Santiago" "Valdivia";
    with_style (with_background "red")
      (with_textContent (Text "Enviar Mensaje") (control "button" "submitBtn" 0 "" "")) ].

(** A counter whose target is not a number. *)
Definition broken_counter : document :=
  [ tag "span" "" None ["stat-number"] [("data-target", "muchos")] ].

(** Frames one second apart. *)
Definition every_second (k : nat) : Q := inject_Z (1000 * Z.of_nat k).

End Sample.

(** ** Further sample pages *)

Module Cases.

Local Open Scope string_scope.

(** A counter that counts down and a counter whose target carries a
    percent sign. *)
Definition counters : document :=
  [ Sample.tag "span" "" None ["stat-number"] [("data-target", "-40")];
    Sample.tag "span" "" None ["stat-number"] [("data-target", "100%")] ].

(** A page whose contact form is a [div]. *)
Definition div_form : document :=
  [ Sample.tag "div" "contactForm" None [] [];
    with_textContent (Text "Enviar Mensaje") (Sample.control "button" "submitBtn" 0 "" "") ].

(** The landing page with its menu open. *)
Definition menu_open : world := step Sample.loaded (Click 1).

(** The second observer of the landing page: the one of the counters. *)
Definition counter_observer : IntersectionObserver :=
  mkObserver counterEntries (1 # 2) "0px" (list_to_set [5; 9]%nat).

(** The landing page once its first counter has come into view and has
    counted to its end. *)
Definition counted : world :=
  run Sample.loaded [Intersect 1 [mkEntry 5 true]; AnimationFrame 2000].

End Cases.

(** * Proofs *)

Local Open Scope string_scope.

Ltac one_of := apply list_elem_of_In; simpl; tauto.

(** ** Handles and the monad *)

Section Basics.

Lemma elem_of_select (p : nat → element → bool) (d : document) (h : nat) :
  h ∈ select p d ↔ ∃ e, d !! h = Some e ∧ p h e = true.
Proof.
  unfold select. rewrite list_elem_of_fmap. split.
  - intros [[i e] [-> [Hp Hin]%list_elem_of_filter]]. simpl in *.
    apply list_elem_of_lookup in Hin as [j Hj].
    apply list_lookup_imap_Some in Hj as (x & Hx & [= -> ->]). eauto.
  - intros (e & He & Hp). exists (h, e). split; [done|].
    apply list_elem_of_filter. split; [done|].
    apply list_elem_of_lookup. exists h. by rewrite list_lookup_imap, He.
Qed.

Lemma element_by_id_live (name : string) (d : document) (h : nat) :
  element_by_id name d = Some h → ∃ e, d !! h = Some e ∧ id e = name.
Proof.
  unfold element_by_id. intros H.
  assert (Hin : h ∈ select (fun _ e => String.eqb (id e) name) d).
  { destruct (select _ d); simplify_eq/=. left. }
  apply elem_of_select in Hin as (e & He & Hp). apply String.eqb_eq in Hp. eauto.
Qed.

Lemma bind_returned {A B} (m : js A) (k : A → js B) (w w' : world) (a : A) :
  m w = Returned a w' → bind m k w = k a w'.
Proof. intros H. unfold bind. by rewrite H. Qed.

Lemma deref_live (w : world) (h : nat) (e : element) :
  doc w !! h = Some e → deref (Some h) w = Returned (h, e) w.
Proof. intros H. unfold deref. by rewrite H. Qed.

Lemma modify_live (w : world) (h : nat) (e : element) (f : element → element) :
  doc w !! h = Some e →
  modify (Some h) f w = Returned tt (with_doc (fun d => <[h := f e]> d) w).
Proof. intros H. unfold modify. by rewrite (bind_returned _ _ _ _ _ (deref_live _ _ _ H)). Qed.

End Basics.

(** ** Properties that the handlers keep *)

Section Preserves.
Context (P : world → Prop).

Lemma preserves_ret {A} (a : A) : preserves P (ret a).
Proof. by intros w. Qed.

Lemma preserves_throw {A} (e : string) : preserves P (@throw A e).
Proof. by intros w. Qed.

Lemma preserves_get {A} (f : world → A) : preserves P (get f).
Proof. by intros w. Qed.

Lemma preserves_bind {A B} (m : js A) (k : A → js B) :
  preserves P m → (∀ a, preserves P (k a)) → preserves P (bind m k).
Proof.
  intros Hm Hk w Hw. unfold bind. specialize (Hm w Hw).
  destruct (m w); simpl in *; [by apply Hk | done].
Qed.

Lemma preserves_forEach_in {A} (l : list A) (f : A → js unit) :
  (∀ x, x ∈ l → preserves P (f x)) → preserves P (forEach l f).
Proof.
  induction l as [|x l IH]; intros Hf; simpl; [apply preserves_ret|].
  apply preserves_bind; [apply Hf; left | intros _; apply IH].
  intros y Hy. apply Hf. by right.
Qed.

Lemma preserves_forEach {A} (l : list A) (f : A → js unit) :
  (∀ x, preserves P (f x)) → preserves P (forEach l f).
Proof. intros Hf. apply preserves_forEach_in. auto. Qed.

Lemma preserves_deref (r : ref) : preserves P (deref r).
Proof. intros w Hw. unfold deref. destruct r as [h|]; [destruct (doc w !! h)|]; done. Qed.

Lemma preserves_put (f : world → world) : (∀ w, P w → P (f w)) → preserves P (put f).
Proof. intros Hf w Hw. by apply Hf. Qed.

Lemma preserves_modify_at (h : nat) (f : element → element) :
  (∀ w e, P w → doc w !! h = Some e → P (with_doc (fun d => <[h := f e]> d) w)) →
  preserves P (modify (Some h) f).
Proof.
  intros Hf w Hw. unfold modify, bind, deref.
  destruct (doc w !! h) eqn:E; [|done]. simpl. eauto.
Qed.

Lemma preserves_modify (r : ref) (f : element → element) :
  (∀ w h e, P w → doc w !! h = Some e → P (with_doc (fun d => <[h := f e]> d) w)) →
  preserves P (modify r f).
Proof.
  intros Hf. destruct r as [h|]; [apply preserves_modify_at; eauto|].
  by intros w Hw.
Qed.

Lemma preserves_invoke (m : js unit) (w : world) :
  (∀ f w, P w → P (with_uncaught f w)) → preserves P m → P w → P (invoke m w).
Proof.
  intros Hu Hm Hw. unfold invoke. specialize (Hm w Hw). destruct (m w); simpl in *; auto.
Qed.

End Preserves.

Section Stable.
Context (P : world → Prop) (HP : stable P).

Lemma stable_modify (r : ref) (f : element → element) :
  handler_edit f → preserves P (modify r f).
Proof. intros Hf. apply preserves_modify. intros. by eapply st_edit. Qed.

Lemma stable_toggle (r : ref) (c : string) :
  c ∈ ["active"; "open"] → preserves P (classList_toggle r c None).
Proof.
  intros Hc. unfold classList_toggle. apply preserves_bind; [apply preserves_deref|].
  intros he. destruct (has_class c he.2); apply stable_modify.
  - by apply edit_remove.
  - apply edit_add. by right.
Qed.

Lemma stable_listener (l : listener) : preserves P (run_listener l).
Proof.
  destruct l; simpl.
  - by apply st_onScroll.
  - apply preserves_bind; [|intros _]; apply stable_toggle; one_of.
  - apply preserves_bind; [|intros _]; apply stable_modify; constructor; one_of.
Qed.

Lemma stable_unobserve (o el : nat) : preserves P (unobserve o el).
Proof. apply preserves_put. intros. by apply st_unobserve. Qed.

Lemma stable_requestAnimationFrame (cb : frame_callback) :
  preserves P (requestAnimationFrame cb).
Proof. apply preserves_put. intros. by apply st_frames. Qed.

Lemma stable_setTimeout (cb : timer_callback) (delay : Q) : preserves P (setTimeout cb delay).
Proof. apply preserves_put. intros. by apply st_timers. Qed.

Lemma stable_animateCounter (r : ref) : preserves P (animateCounter r).
Proof.
  unfold animateCounter, getAttribute, performance_now.
  apply preserves_bind; [|intros attr].
  - apply preserves_bind; [apply preserves_deref | intros ?; apply preserves_ret].
  - apply preserves_bind; [apply preserves_get | intros ?].
    apply stable_requestAnimationFrame.
Qed.

Lemma stable_observer_callback (cb : observer_callback) (o : nat)
    (entries : list IntersectionObserverEntry) :
  preserves P (run_observer_callback cb o entries).
Proof.
  destruct cb; simpl; apply preserves_forEach; intros entry;
    (destruct (isIntersecting entry); [|apply preserves_ret]);
    (apply preserves_bind; [|intros _; apply stable_unobserve]).
  - apply stable_modify. constructor. one_of.
  - apply stable_animateCounter.
Qed.

Lemma stable_frame_callback (cb : frame_callback) (t : number) :
  preserves P (run_frame_callback cb t).
Proof.
  destruct cb; simpl. unfold run_update.
  apply preserves_bind; [apply stable_modify; constructor|intros _].
  destruct (lt _ _); [apply stable_requestAnimationFrame | apply preserves_ret].
Qed.

Lemma stable_reset (r : ref) : preserves P (reset r).
Proof.
  unfold reset. apply preserves_bind; [apply preserves_deref|]. intros he.
  destruct (String.eqb _ _); [|apply preserves_throw].
  apply preserves_put. intros. by apply st_reset.
Qed.

Lemma stable_timer_callback (cb : timer_callback) : preserves P (run_timer_callback cb).
Proof.
  destruct cb; simpl; unfold run_sendDone, run_sendReset;
    repeat (apply preserves_bind; [|intros _]);
    try (apply stable_modify; constructor);
    auto using stable_reset, stable_setTimeout.
Qed.

Lemma stable_handleFormSubmit (ev : Event) : preserves P (handleFormSubmit ev).
Proof.
  unfold handleFormSubmit.
  apply preserves_bind; [apply preserves_get|]. intros btn.
  apply preserves_bind; [apply preserves_get|]. intros form_.
  destruct (_ || _); [apply preserves_ret|].
  repeat (apply preserves_bind; [|intros _]);
    try (apply stable_modify; constructor);
    auto using preserves_ret, stable_setTimeout.
Qed.

Lemma stable_invoke (m : js unit) (w : world) : preserves P m → P w → P (invoke m w).
Proof. apply preserves_invoke. apply HP. Qed.

Lemma stable_dispatch (t : event_target) (type : string) (w : world) :
  P w → P (dispatch t type w).
Proof.
  unfold dispatch. generalize (listening t type w). intros ls. revert w.
  induction ls as [|l ls IH]; intros w Hw; simpl; [done|].
  apply IH. apply stable_invoke; [apply stable_listener | done].
Qed.

Lemma stable_step (ev : event) (w : world) :
  (∀ y, ev = Scroll y → P (with_scrollY y w)) → P w → P (step w ev).
Proof.
  intros Hs Hw. destruct ev; simpl.
  - apply stable_dispatch. by apply Hs.
  - by apply stable_dispatch.
  - unfold deliver. destruct (observers w !! observer); [|done].
    apply stable_invoke; [apply stable_observer_callback | done].
  - unfold frame. generalize (animationFrames w). intros cbs.
    assert (H0 : P (with_animationFrames (fun _ => []) w)) by by apply st_frames.
    revert H0. generalize (with_animationFrames (fun _ => []) w). clear Hw Hs w.
    induction cbs as [|cb cbs IH]; intros w Hw; simpl; [done|].
    apply IH. apply stable_invoke; [apply stable_frame_callback | done].
  - unfold timeout. destruct (pop_earliest _) as [[[due cb] rest]|]; [|done].
    apply stable_invoke; [apply stable_timer_callback|].
    apply st_timers; [done|]. by apply st_clock.
  - unfold submit. unfold invoke.
    pose proof (stable_handleFormSubmit (mkEvent false) w Hw) as H.
    destruct (handleFormSubmit _ w); simpl in *; [done|]. by apply st_uncaught.
Qed.
End Stable.

(** ** Reveal on scroll *)

Lemma handler_edit_visible (f : element → element) (e : element) :
  handler_edit f → "visible" ∈ classList e → "visible" ∈ classList (f e).
Proof.
  intros Hf Hv. destruct Hf as [c Hc|c Hc| | | |]; simpl; try done.
  - by apply elem_of_union_l.
  - apply list_elem_of_In in Hc. simpl in Hc.
    apply elem_of_difference. split; [done|]. apply not_elem_of_singleton.
    intros <-. destruct Hc as [?|[?|[]]]; discriminate.
Qed.

Lemma shows_insert (c : string) (el h : nat) (e : element) (f : element → element)
    (w : world) :
  (c ∈ classList e → c ∈ classList (f e)) →
  doc w !! h = Some e → shows c el w → shows c el (with_doc (fun d => <[h := f e]> d) w).
Proof.
  intros Hf He (e' & He' & Hc). unfold shows. simpl.
  destruct (decide (h = el)) as [->|Hne].
  - exists (f e). rewrite list_lookup_insert_eq by by eapply lookup_lt_Some.
    split; [done|]. apply Hf. by simplify_eq.
  - exists e'. by rewrite list_lookup_insert_ne.
Qed.

Lemma shows_visible_stable (el : nat) : stable (shows "visible" el).
Proof.
  split; try done.
  - intros f w h e Hf Hw He. eapply shows_insert; eauto using handler_edit_visible.
  - intros h w (e & He & Hc). exists (reset_control h e). simpl.
    rewrite list_lookup_fmap, He. split; [done|].
    unfold reset_control. by destruct (owned_by h e).
  - intros r. unfold run_onScroll, window_scrollY, classList_toggle.
    apply preserves_bind; [apply preserves_get | intros y].
    apply preserves_bind; [apply preserves_deref | intros he].
    destruct (gt y (Num 60)); apply preserves_modify; intros w h e Hw He;
      (eapply shows_insert; [|done..]); simpl; intros Hv.
    + by apply elem_of_union_l.
    + apply elem_of_difference. split; [done|]. by apply not_elem_of_singleton.
Qed.

Lemma unobserved_stable (observer el : nat) : stable (unobserved observer el).
Proof.
  split; try done.
  - intros o x w Hw o' Ho'. simpl in Ho'.
    destruct (decide (o = observer)) as [->|Hne].
    + rewrite list_lookup_alter_eq in Ho'.
      destruct (observers w !! observer) as [o0|] eqn:E; simplify_eq/=.
      specialize (Hw o0 E). by intros [? _]%elem_of_difference.
    + rewrite list_lookup_alter_ne in Ho' by done. by apply Hw.
  - intros r. unfold run_onScroll, window_scrollY, classList_toggle.
    apply preserves_bind; [apply preserves_get | intros y].
    apply preserves_bind; [apply preserves_deref | intros he].
    destruct (gt y (Num 60)); by apply preserves_modify.
Qed.

Lemma stable_run (P : world → Prop) (evs : list event) (w : world) :
  stable P → (∀ y w, P w → P (with_scrollY y w)) → P w → P (run w evs).
Proof.
  intros HP Hs. revert w. induction evs as [|ev evs IH]; intros w Hw; simpl; [done|].
  apply IH. apply stable_step; auto.
Qed.

(** An observer callback leaves alone the elements it gets no entry for. *)
Lemma observer_callback_frame (cb : observer_callback) (observer el : nat)
    (entries : list IntersectionObserverEntry) (w : world) :
  (∀ entry, entry ∈ entries → target entry ≠ el) →
  doc (invoke (run_observer_callback cb observer entries) w) !! el = doc w !! el.
Proof.
  intros Hne. set (P := fun w' : world => doc w' !! el = doc w !! el).
  assert (HP : preserves P (run_observer_callback cb observer entries)).
  { destruct cb; simpl; apply preserves_forEach_in; intros entry Hin;
      (destruct (isIntersecting entry); [|apply preserves_ret]);
      (apply preserves_bind; [|intros _; by apply preserves_put]).
    - apply preserves_modify_at. intros w' e Hw' _. unfold P in *. simpl.
      rewrite list_lookup_insert_ne; [done|]. by apply Hne.
    - unfold animateCounter, getAttribute, performance_now.
      apply preserves_bind; [|intros attr].
      + apply preserves_bind; [apply preserves_deref | intros ?; apply preserves_ret].
      + apply preserves_bind; [apply preserves_get | intros ?]. by apply preserves_put. }
  change (P (invoke (run_observer_callback cb observer entries) w)).
  apply preserves_invoke; [done | done | by unfold P].
Qed.

Lemma classList_add_live (w : world) (h : nat) (c : string) :
  (h < length (doc w))%nat →
  ∃ e, doc w !! h = Some e ∧
       classList_add (Some h) c w =
         Returned tt (with_doc (fun d => <[h := with_classList (fun s => s ∪ {[c]}) e]> d) w).
Proof.
  intros [e He]%lookup_lt_is_Some. exists e. split; [done|].
  unfold classList_add, modify, bind, deref. by rewrite He.
Qed.

(** The first batch that holds an intersecting entry for [el]. *)
Lemma revealEntries_reveals (observer el : nat) (entries : list IntersectionObserverEntry)
    (w : world) :
  (∀ entry, entry ∈ entries → (target entry < length (doc w))%nat) →
  (∃ entry, entry ∈ entries ∧ target entry = el ∧ isIntersecting entry = true) →
  let w' := final (run_revealEntries observer entries w) in
  shows "visible" el w' ∧ unobserved observer el w'.
Proof.
  revert w. induction entries as [|entry entries IH]; intros w Hlive (x & Hin & Hx & Hi).
  { by apply elem_of_nil in Hin. }
  unfold run_revealEntries. simpl. fold (run_revealEntries observer entries).
  destruct (isIntersecting entry) eqn:Ei.
  - destruct (classList_add_live w (target entry) "visible") as (e & He & Hadd).
    { apply Hlive. left. }
    erewrite bind_returned; [|erewrite bind_returned; [|exact Hadd]; reflexivity].
    set (w1 := with_observers _ _).
    destruct (decide (target entry = el)) as [Heq|Hne].
    + assert (H1 : shows "visible" el w1 ∧ unobserved observer el w1).
      { split.
        - exists (with_classList (fun s => s ∪ {["visible"]}) e). simpl. rewrite Heq.
          rewrite list_lookup_insert_eq by (rewrite <- Heq; by eapply lookup_lt_Some).
          split; [done|]. simpl. apply elem_of_union_r. by apply elem_of_singleton.
        - intros o Ho. unfold w1 in Ho. simpl in Ho. rewrite Heq in Ho.
          rewrite list_lookup_alter_eq in Ho.
          destruct (observers w !! observer); simplify_eq/=.
          intros [_ Hn]%elem_of_difference. apply Hn. by apply elem_of_singleton. }
      split.
      * apply (stable_observer_callback _ (shows_visible_stable el) revealEntries
                 observer entries w1), H1.
      * apply (stable_observer_callback _ (unobserved_stable observer el) revealEntries
                 observer entries w1), H1.
    + apply IH.
      * intros y Hy. unfold w1. simpl. rewrite length_insert. apply Hlive. by right.
      * exists x. split; [|done]. apply elem_of_cons in Hin as [->|]; [|done]. congruence.
  - erewrite bind_returned; [|reflexivity]. apply IH.
    + intros y Hy. apply Hlive. by right.
    + exists x. split; [|done]. apply elem_of_cons in Hin as [->|]; [|done]. congruence.
Qed.

(** C2.  Once the reveal callback has received an intersecting entry for an
    element it observes, the element carries the class [visible] and is no
    longer observed; whatever happens on the page afterwards, the element keeps
    the class, stays unobserved, the callback never again receives an entry
    for it, and a later delivery leaves the element as it is. *)
Theorem reveal_at_most_once (w : world) (observer el : nat) (o : IntersectionObserver)
    (entries later : list IntersectionObserverEntry) (evs : list event) :
  observers w !! observer = Some o →
  callback o = revealEntries →
  (∀ h, h ∈ observed o → is_Some (doc w !! h)) →
  (∃ entry, entry ∈ received o entries ∧ target entry = el ∧ isIntersecting entry = true) →
  let w' := run (step w (Intersect observer entries)) evs in
  shows "visible" el w' ∧
  unobserved observer el w' ∧
  (∀ o', observers w' !! observer = Some o' →
         ∀ entry, entry ∈ received o' later → target entry ≠ el) ∧
  doc (step w' (Intersect observer later)) !! el = doc w' !! el.
Proof.
  intros Ho Hcb Hlive Hentry w'.
  assert (H1 : shows "visible" el (step w (Intersect observer entries)) ∧
               unobserved observer el (step w (Intersect observer entries))).
  { simpl. unfold deliver. rewrite Ho, Hcb. simpl.
    destruct (revealEntries_reveals observer el (received o entries) w) as [Hv Hu];
      [|done|].
    - intros entry [Hobs _]%list_elem_of_filter. apply lookup_lt_is_Some. by apply Hlive.
    - unfold invoke. destruct (run_revealEntries _ _ w); simpl in *; [done|].
      split; [apply Hv|apply Hu]. }
  assert (Hv : shows "visible" el w').
  { apply stable_run; [apply shows_visible_stable | done | apply H1]. }
  assert (Hu : unobserved observer el w').
  { apply stable_run; [apply unobserved_stable | done | apply H1]. }
  assert (Hr : ∀ o', observers w' !! observer = Some o' →
               ∀ entry, entry ∈ received o' later → target entry ≠ el).
  { intros o' Ho' entry [Hobs _]%list_elem_of_filter <-. by apply (Hu o'). }
  repeat split; try done.
  simpl. unfold deliver. destruct (observers w' !! observer) as [o'|] eqn:E; [|done].
  apply observer_callback_frame. by apply Hr.
Qed.

(** ** Navbar *)

Section Navbar.

Lemma gt_60 (y : Q) : gt (Num y) (Num 60) = true ↔ (60 < y)%Q.
Proof.
  unfold gt, lt. rewrite negb_true_iff. split.
  - intros H. apply Qnot_le_lt. intros Hle. apply Qle_bool_iff in Hle. congruence.
  - intros H. destruct (Qle_bool y 60) eqn:E; [|done].
    apply Qle_bool_iff in E. exfalso. apply (Qlt_not_le _ _ H E).
Qed.

Lemma scrolled_class_iff (y : Q) (s : gset string) :
  "scrolled" ∈ scrolled_class y s ↔ (60 < y)%Q.
Proof.
  unfold scrolled_class. rewrite <- gt_60. destruct (gt _ _).
  - split; [done|]. intros _. apply elem_of_union_r. by apply elem_of_singleton.
  - split; [|done]. intros [_ H]%elem_of_difference. by apply not_elem_of_singleton in H.
Qed.

Lemma scrolled_class_id (y : Q) (s : gset string) :
  ("scrolled" ∈ s ↔ (60 < y)%Q) → scrolled_class y s = s.
Proof.
  rewrite <- gt_60. unfold scrolled_class. intros H. apply set_eq. intros c.
  destruct (gt _ _).
  - rewrite elem_of_union, elem_of_singleton. split; [|by left].
    intros [?| ->]; [done|]. by apply H.
  - rewrite elem_of_difference, not_elem_of_singleton. split; [by intros [? _]|].
    intros Hc. split; [done|]. intros ->. apply H in Hc. discriminate.
Qed.

Lemma run_onScroll_live (w : world) (h : nat) (e : element) :
  doc w !! h = Some e →
  run_onScroll (Some h) w =
    Returned tt
      (with_doc (fun d => <[h := with_classList (scrolled_class (scrollY w)) e]> d) w).
Proof.
  intros H. unfold run_onScroll, window_scrollY, classList_toggle, scrolled_class.
  erewrite bind_returned; [|reflexivity].
  erewrite bind_returned; [|by apply deref_live].
  destruct (gt _ _); unfold classList_add, classList_remove; by rewrite (modify_live _ _ _ _ H).
Qed.

Lemma handler_edit_scrolled (f : element → element) (e : element) :
  handler_edit f → "scrolled" ∈ classList (f e) ↔ "scrolled" ∈ classList e.
Proof.
  intros Hf. destruct Hf as [c Hc|c Hc| | | |]; simpl; try done;
    apply list_elem_of_In in Hc; simpl in Hc.
  - rewrite elem_of_union, elem_of_singleton. split; [|by left].
    intros [?|Heq]; [done|]. subst c. destruct Hc as [?|[?|[?|[]]]]; congruence.
  - rewrite elem_of_difference, not_elem_of_singleton. split; [by intros [? _]|].
    intros H. split; [done|]. intros Heq. subst c. destruct Hc as [?|[?|[]]]; congruence.
Qed.

Context (navbar : nat).

Lemma watching_insert (w : world) (h : nat) (e : element) (f : element → element) :
  (h = navbar → "scrolled" ∈ classList (f e) ↔ (60 < scrollY w)%Q) →
  doc w !! h = Some e →
  listening Window "scroll" w = [onScroll (Some navbar)] →
  is_Some (doc w !! navbar) →
  (h ≠ navbar → watching navbar w) →
  watching navbar (with_doc (fun d => <[h := f e]> d) w).
Proof.
  intros Hf He HL Hn Hw. split; [done|]. simpl.
  destruct (decide (h = navbar)) as [->|Hne].
  - exists (f e). rewrite list_lookup_insert_eq by by eapply lookup_lt_Some. auto.
  - rewrite list_lookup_insert_ne by done. by apply Hw.
Qed.

Lemma watching_onScroll (r : ref) (y : Q) (w : world) :
  listening Window "scroll" w = [onScroll (Some navbar)] →
  is_Some (doc w !! navbar) →
  (r ≠ Some navbar → watching navbar w) →
  watching navbar (final (run_onScroll r w)).
Proof.
  intros HL Hn Hw. destruct r as [h|].
  - destruct (doc w !! h) as [e|] eqn:He.
    + rewrite (run_onScroll_live _ _ e) by done. simpl.
      apply watching_insert; try done.
      * intros _. simpl. apply scrolled_class_iff.
      * intros Hne. apply Hw. congruence.
    + unfold run_onScroll, window_scrollY, classList_toggle, bind, get, deref.
      rewrite He. simpl. apply Hw. intros [= ->]. destruct Hn. congruence.
  - by apply Hw.
Qed.

Lemma watching_stable : stable (watching navbar).
Proof.
  split; try done.
  - intros f w h e Hf [HL (e' & He' & Hs)] He.
    apply watching_insert; try done.
    + intros ->. rewrite handler_edit_scrolled by done. by simplify_eq.
    + intros _. split; eauto.
  - intros h w [HL (e & He & Hs)]. split; [done|]. simpl.
    exists (reset_control h e). rewrite list_lookup_fmap, He. split; [done|].
    unfold reset_control. by destruct (owned_by h e).
  - intros r w Hw. apply (watching_onScroll r 0); [apply Hw | | done].
    destruct Hw as [_ (e & He & _)]. eauto.
Qed.

Lemma scroll_watching (w : world) (y : Q) :
  watching navbar w →
  watching navbar (step w (Scroll y)) ∧ scrollY (step w (Scroll y)) = y.
Proof.
  intros [HL (e & He & _)]. simpl. unfold dispatch.
  change (listening Window "scroll" (with_scrollY y w)) with (listening Window "scroll" w).
  rewrite HL. simpl. unfold invoke. rewrite (run_onScroll_live _ _ e) by done. simpl.
  split; [|done]. apply (watching_insert (with_scrollY y w)); try done.
  intros _. apply scrolled_class_iff.
Qed.

Lemma scroll_again (w : world) : watching navbar w → step w (Scroll (scrollY w)) = w.
Proof.
  intros [HL (e & He & Hs)]. simpl. unfold dispatch.
  change (listening Window "scroll" (with_scrollY (scrollY w) w))
    with (listening Window "scroll" w).
  rewrite HL. simpl. unfold invoke. rewrite (run_onScroll_live _ _ e) by done. simpl.
  assert (Hid : with_classList (scrolled_class (scrollY w)) e = e).
  { unfold with_classList. rewrite scrolled_class_id by done. by destruct e. }
  rewrite Hid. unfold with_doc, with_scrollY. simpl.
  rewrite list_insert_id by done. by destruct w.
Qed.

Lemma watching_step (w : world) (ev : event) :
  watching navbar w → watching navbar (step w ev).
Proof.
  intros Hw. destruct ev; try (apply stable_step; [apply watching_stable|done|done]).
  by apply scroll_watching.
Qed.

Lemma watching_run (w : world) (evs : list event) :
  watching navbar w → watching navbar (run w evs).
Proof.
  revert w. induction evs as [|ev evs IH]; intros w Hw; simpl; [done|].
  by apply IH, watching_step.
Qed.

Lemma watching_shows (w : world) :
  watching navbar w → (shows "scrolled" navbar w ↔ (60 < scrollY w)%Q).
Proof.
  intros (_ & e & He & Hc). unfold shows. rewrite <- Hc.
  split; [intros (e' & He' & ?); by simplify_eq | eauto].
Qed.
End Navbar.

Section Load.
Context (navbar : nat) (y0 : Q).

Local Abbreviation ready := (ready navbar y0).

Lemma ready_observers (f : list IntersectionObserver → list IntersectionObserver) :
  preserves ready (put (with_observers f)).
Proof. by apply preserves_put. Qed.

Lemma ready_addEventListener_on (r : ref) (type : string) (l : listener) :
  preserves ready (addEventListener_on r type l).
Proof.
  unfold addEventListener_on. apply preserves_bind; [apply preserves_deref | intros he].
  apply preserves_put. intros w [[HL Hd] Hy]. split; [|done]. split; [|done].
  unfold listening in *. simpl. by rewrite filter_app, fmap_app, HL.
Qed.

Lemma ready_new_IntersectionObserver (cb : observer_callback) (thr : Q) (m : string) :
  preserves ready (new_IntersectionObserver cb thr m).
Proof.
  unfold new_IntersectionObserver.
  apply preserves_bind; [apply preserves_get | intros n].
  apply preserves_bind; [apply ready_observers | intros _; apply preserves_ret].
Qed.

Lemma ready_initScrollAnimations : preserves ready initScrollAnimations.
Proof.
  unfold initScrollAnimations, querySelectorAll.
  apply preserves_bind; [apply preserves_get | intros elements].
  destruct (_ =? _)%nat; [apply preserves_ret|].
  apply preserves_bind; [apply ready_new_IntersectionObserver | intros observer].
  apply preserves_forEach. intros el. apply ready_observers.
Qed.

Lemma ready_initCounterAnimations : preserves ready initCounterAnimations.
Proof.
  unfold initCounterAnimations, querySelectorAll.
  apply preserves_bind; [apply preserves_get | intros elements].
  destruct (_ =? _)%nat; [apply preserves_ret|].
  apply preserves_bind; [apply ready_new_IntersectionObserver | intros observer].
  apply preserves_forEach. intros el. apply ready_observers.
Qed.

Lemma ready_initMobileMenu : preserves ready initMobileMenu.
Proof.
  unfold initMobileMenu, getElementById, querySelectorAll_in.
  apply preserves_bind; [apply preserves_get | intros toggle].
  apply preserves_bind; [apply preserves_get | intros links].
  destruct (_ || _); [apply preserves_ret|].
  apply preserves_bind; [apply ready_addEventListener_on | intros _].
  apply preserves_bind.
  - apply preserves_bind; [apply preserves_deref | intros he; apply preserves_get].
  - intros anchors. apply preserves_forEach. intros link. apply ready_addEventListener_on.
Qed.

Lemma initNavbar_ready (d : document) (now : Q) :
  element_by_id "navbar" d = Some navbar →
  ∃ w, initNavbar (fresh d y0 now) = Returned tt w ∧ ready w.
Proof.
  intros H. destruct (element_by_id_live _ _ _ H) as (e & He & _).
  unfold initNavbar, getElementById.
  erewrite bind_returned; [|reflexivity]. simpl. rewrite H. simpl.
  erewrite bind_returned; [|reflexivity].
  rewrite (run_onScroll_live _ _ e) by done. eexists. split; [done|].
  split; [|done]. apply watching_insert; try done; simpl; eauto.
  intros _. apply scrolled_class_iff.
Qed.

Lemma load_ready (d : document) (now : Q) :
  element_by_id "navbar" d = Some navbar → ready (load d y0 now).
Proof.
  intros H. destruct (initNavbar_ready d now H) as (w & Hw & Hr).
  unfold load, main. unfold invoke at 1. erewrite bind_returned by exact Hw.
  apply (preserves_invoke ready); [done| |done].
  apply preserves_bind; [apply ready_initScrollAnimations | intros _].
  apply preserves_bind; [apply ready_initCounterAnimations | intros _].
  apply ready_initMobileMenu.
Qed.
End Load.

(** C1.  On a page with a navbar, after the page has loaded and after any
    events that end with a scroll to the offset [y], the navbar carries the
    class [scrolled] exactly when [y > 60] (so not at 60), the same holds at
    load time for the initial offset, and handling the scroll event once more
    at the same offset changes nothing. *)
Theorem navbar_scrolled_iff (d : document) (y0 now : Q) (navbar : nat) (evs : list event)
    (y : Q) :
  element_by_id "navbar" d = Some navbar →
  let w0 := load d y0 now in
  let w := run w0 (evs ++ [Scroll y])%list in
  (shows "scrolled" navbar w0 ↔ (60 < y0)%Q) ∧
  (shows "scrolled" navbar w ↔ (60 < y)%Q) ∧
  (y == 60 → ¬ shows "scrolled" navbar w)%Q ∧
  step w (Scroll y) = w.
Proof.
  intros H w0 w. destruct (load_ready navbar y0 d now H) as [Hw0 Hy0]. fold w0 in Hw0, Hy0.
  assert (Hw : watching navbar w ∧ scrollY w = y).
  { unfold w, run. rewrite fold_left_app. simpl.
    apply scroll_watching. by apply watching_run. }
  destruct Hw as [Hw Hy].
  pose proof (watching_shows _ _ Hw0) as S0. pose proof (watching_shows _ _ Hw) as S1.
  rewrite Hy0 in S0. rewrite Hy in S1.
  split; [done|]. split; [done|]. split.
  - intros Heq. rewrite S1, Heq. apply Qlt_irrefl.
  - rewrite <- Hy at 1. by eapply scroll_again.
Qed.


(** ** Counter arithmetic *)

Section Numbers.
Local Open Scope Q_scope.

Lemma power_3 (q : Q) : power q 3 == q ^ 3.
Proof. simpl. ring. Qed.

Lemma cube_le (a b : Q) : a <= b → power a 3 <= power b 3.
Proof.
  intros H. simpl.
  assert (H1 : 0 <= (b - a) * ((a + b) * (a + b) + a * a + b * b)).
  { apply Qmult_le_0_compat; [lra | nra]. }
  lra.
Qed.

Lemma progress_Num (x : Q) : progress (Num x) = Num (ratio x).
Proof. unfold progress, ratio, duration, div, Math_min. simpl. by destruct (Qle_bool _ _). Qed.

Lemma ratio_done (x : Q) : 2000 <= x → ratio x == 1.
Proof.
  intros H. unfold ratio. destruct (Qle_bool _ _) eqn:E; [|reflexivity].
  apply Qle_bool_iff in E. apply Qle_antisym; [done|].
  apply Qle_shift_div_l; lra.
Qed.

Lemma ratio_running (x : Q) : x < 2000 → ratio x == x / 2000 ∧ ratio x < 1.
Proof.
  intros H. assert (H1 : x / 2000 < 1) by (apply Qlt_shift_div_r; lra).
  unfold ratio. destruct (Qle_bool _ _) eqn:E; [split; [reflexivity|done]|].
  exfalso. apply Qlt_le_weak, Qle_bool_iff in H1. congruence.
Qed.

Lemma ratio_mono (x y : Q) : x <= y → ratio x <= ratio y.
Proof.
  intros H. assert (H1 : x / 2000 <= y / 2000).
  { unfold Qdiv. apply Qmult_le_compat_r; [done|]. by compute. }
  unfold ratio. destruct (Qle_bool (x / 2000) 1) eqn:Ex, (Qle_bool (y / 2000) 1) eqn:Ey;
    try apply Qle_bool_iff in Ex; try apply Qle_bool_iff in Ey; try lra.
  assert (Hx : ¬ x / 2000 <= 1) by (intros Hc%Qle_bool_iff; congruence).
  apply Qnot_lt_le. intros Hlt. apply Hx. lra.
Qed.

Lemma lt_1_iff (p : Q) : lt (Num p) (Num 1) = true ↔ p < 1.
Proof.
  unfold lt. rewrite negb_true_iff. split.
  - intros H. apply Qnot_le_lt. intros Hle%Qle_bool_iff. congruence.
  - intros H. destruct (Qle_bool 1 p) eqn:E; [|done]. apply Qle_bool_iff in E. lra.
Qed.

Lemma Qfloor_half (n : Z) : Qfloor (inject_Z n + (1 # 2)) = n.
Proof.
  apply Z.le_antisymm.
  - apply Z.lt_succ_r. rewrite Zlt_Qlt.
    eapply Qle_lt_trans; [apply Qfloor_le|].
    unfold Z.succ. rewrite inject_Z_plus.
    assert (inject_Z 1 == 1) by reflexivity. lra.
  - rewrite <- (Qfloor_Z n) at 1. apply Qfloor_resp_le. lra.
Qed.

Lemma Math_round_integer (n : Z) : Math_round (Num (inject_Z n)) = Num (inject_Z n).
Proof. unfold Math_round. by rewrite Qfloor_half. Qed.

Lemma written_Num (q : Q) (s t : Q) :
  written (Num q) s t =
    Num (inject_Z (Qfloor ((1 - power (1 - ratio (t - s)) 3) * q + (1 # 2)))).
Proof.
  unfold written. change (sub (Num t) (Num s)) with (Num (t - s)).
  rewrite progress_Num. reflexivity.
Qed.

Lemma written_NaN (s t : Q) : written NaN s t = NaN.
Proof.
  unfold written. change (sub (Num t) (Num s)) with (Num (t - s)).
  rewrite progress_Num. reflexivity.
Qed.

Lemma written_done (tg : number) (s t : Q) : s + 2000 <= t → written tg s t = Math_round tg.
Proof.
  intros H. destruct tg as [q|]; [|apply written_NaN].
  rewrite written_Num. unfold Math_round. do 2 f_equal. apply Qfloor_comp.
  assert (Hr : ratio (t - s) == 1) by (apply ratio_done; lra).
  cbn [power]. rewrite Hr. ring.
Qed.

Lemma written_start (n : Z) (s t : Q) : t == s → written (Num (inject_Z n)) s t = Num 0.
Proof.
  intros H. rewrite written_Num.
  assert (Hr : ratio (t - s) == 0).
  { destruct (ratio_running (t - s)) as [Hr _]; [lra|]. rewrite Hr.
    assert (Hz : t - s == 0) by lra. rewrite Hz. reflexivity. }
  change (Num 0) with (Num (inject_Z 0)). do 2 f_equal. rewrite <- (Qfloor_half 0).
  apply Qfloor_comp. cbn [power]. rewrite Hr. ring.
Qed.

Lemma written_mono (n : Z) (s t1 t2 : Q) :
  (0 <= n)%Z → t1 <= t2 →
  ∃ a b : Z, written (Num (inject_Z n)) s t1 = Num (inject_Z a) ∧
             written (Num (inject_Z n)) s t2 = Num (inject_Z b) ∧ (a <= b)%Z.
Proof.
  intros Hn Ht. rewrite !written_Num. eexists _, _. split; [done|]. split; [done|].
  apply Qfloor_resp_le. apply Qplus_le_l. apply Qmult_le_compat_r.
  - assert (Hc : power (1 - ratio (t2 - s)) 3 <= power (1 - ratio (t1 - s)) 3).
    { apply cube_le. assert (ratio (t1 - s) <= ratio (t2 - s)) by (apply ratio_mono; lra).
      lra. }
    lra.
  - change 0 with (inject_Z 0). by rewrite <- Zle_Qle.
Qed.

End Numbers.


(** ** The counter loop *)

Section Frames.
Local Open Scope Q_scope.
Context (el : nat) (target : number) (start : Q).

Lemma run_update_live (w : world) (e : element) (t : Q) :
  doc w !! el = Some e →
  run_update (Some el) target (Num start) (Num t) w =
    Returned tt
      (let w1 := with_doc (fun d =>
                   <[el := with_textContent (NumberText (written target start t)) e]> d) w in
       if lt (Num (ratio (t - start))) (Num 1)
       then with_animationFrames
              (fun fs => (fs ++ [update (Some el) target (Num start)])%list) w1
       else w1).
Proof.
  intros He. unfold run_update, set_textContent.
  rewrite (bind_returned _ _ _ _ _ (modify_live _ _ _ _ He)).
  fold (written target start t).
  change (sub (Num t) (Num start)) with (Num (t - start)). rewrite progress_Num.
  cbv zeta. by destruct (lt _ _).
Qed.

(** A callback of another element leaves [el] alone and requests at most
    itself. *)
Lemma invoke_other (cb : frame_callback) (t : number) (w : world) :
  ¬ for_element el cb →
  doc (invoke (run_frame_callback cb t) w) !! el = doc w !! el ∧
  ∃ extra, animationFrames (invoke (run_frame_callback cb t) w) =
             (animationFrames w ++ extra)%list ∧
           Forall (fun cb => ¬ for_element el cb) extra.
Proof.
  destruct cb as [r tg s]. simpl. intros Hr. unfold invoke, run_update, set_textContent.
  destruct r as [h|]; [destruct (doc w !! h) as [e|] eqn:He|].
  - rewrite (bind_returned _ _ _ _ _ (modify_live _ _ _ _ He)).
    assert (Hne : h ≠ el) by congruence.
    destruct (JS.lt _ _); simpl; rewrite list_lookup_insert_ne by done; (split; [done|]).
    + eexists. split; [done|]. by constructor.
    + exists []. by rewrite app_nil_r.
  - unfold modify, bind, deref. rewrite He. simpl. split; [done|].
    exists []. by rewrite app_nil_r.
  - simpl. split; [done|]. exists []. by rewrite app_nil_r.
Qed.

Lemma invoke_others (cbs : list frame_callback) (t : number) (w : world) :
  Forall (fun cb => ¬ for_element el cb) cbs →
  let w' := fold_left (fun w cb => invoke (run_frame_callback cb t) w) cbs w in
  doc w' !! el = doc w !! el ∧
  ∃ extra, animationFrames w' = (animationFrames w ++ extra)%list ∧
           Forall (fun cb => ¬ for_element el cb) extra.
Proof.
  revert w. induction cbs as [|cb cbs IH]; intros w Hall; simpl.
  - split; [done|]. exists []. by rewrite app_nil_r.
  - apply Forall_cons in Hall as [Hcb Hall].
    destruct (invoke_other cb t w Hcb) as (Hd & x1 & Hq1 & Hx1).
    destruct (IH (invoke (run_frame_callback cb t) w) Hall) as (Hd' & x2 & Hq2 & Hx2).
    split; [by rewrite Hd', Hd|].
    exists (x1 ++ x2)%list. split; [by rewrite Hq2, Hq1, app_assoc|].
    by apply Forall_app.
Qed.

Lemma invoke_update_live (w : world) (e : element) (t : Q) :
  doc w !! el = Some e →
  invoke (run_frame_callback (update (Some el) target (Num start)) (Num t)) w =
    (let w1 := with_doc (fun d =>
                 <[el := with_textContent (NumberText (written target start t)) e]> d) w in
     if lt (Num (ratio (t - start))) (Num 1)
     then with_animationFrames
            (fun fs => (fs ++ [update (Some el) target (Num start)])%list) w1
     else w1).
Proof. intros He. unfold invoke. simpl. by rewrite (run_update_live _ e). Qed.

Lemma frame_animating (w : world) (t : Q) :
  animating el target start w →
  text_of el (frame t w) = Some (NumberText (written target start t)) ∧
  (t < start + 2000 → animating el target start (frame t w)) ∧
  (start + 2000 <= t → finished el target (frame t w)).
Proof.
  intros [(q1 & q2 & Hq & Hall) [e He]]. apply Forall_app in Hall as [Hall1 Hall2].
  unfold frame. rewrite Hq, fold_left_app. cbn [fold_left].
  destruct (invoke_others q1 (Num t) (with_animationFrames (fun _ => []) w) Hall1)
    as (Hd1 & x1 & Hx1 & Hxs1).
  remember (fold_left (fun w cb => invoke (run_frame_callback cb (Num t)) w) q1
              (with_animationFrames (fun _ => []) w)) as wa eqn:Hwa.
  clear Hwa. simpl in Hd1, Hx1.
  assert (Hea : doc wa !! el = Some e) by by rewrite Hd1.
  assert (Hlen : (el < length (doc wa))%nat) by by eapply lookup_lt_Some.
  rewrite (invoke_update_live wa e t Hea). cbv zeta.
  remember (with_doc (fun d =>
              <[el := with_textContent (NumberText (written target start t)) e]> d) wa)
    as w1 eqn:Hw1.
  assert (He1 : doc w1 !! el =
                  Some (with_textContent (NumberText (written target start t)) e)).
  { rewrite Hw1. simpl. by apply list_lookup_insert_eq. }
  assert (Hq1 : animationFrames w1 = x1) by by rewrite Hw1.
  clear Hw1.
  destruct (lt _ _) eqn:E.
  - apply lt_1_iff in E.
    destruct (invoke_others q2 (Num t)
                (with_animationFrames
                   (fun fs => (fs ++ [update (Some el) target (Num start)])%list) w1) Hall2)
      as (Hd2 & x2 & Hx2 & Hxs2).
    remember (fold_left (fun w cb => invoke (run_frame_callback cb (Num t)) w) q2
                (with_animationFrames
                   (fun fs => (fs ++ [update (Some el) target (Num start)])%list) w1))
      as wc eqn:Hwc.
    clear Hwc. simpl in Hd2, Hx2. rewrite Hq1 in Hx2.
    split; [unfold text_of; by rewrite Hd2, He1|]. split.
    + intros _. split; [|by rewrite Hd2, He1].
      exists x1, x2. split; [by rewrite Hx2, <- app_assoc | by apply Forall_app].
    + intros Hd. pose proof (ratio_done (t - start)). lra.
  - assert (Hn : ¬ ratio (t - start) < 1) by (intros Hc%lt_1_iff; congruence).
    destruct (invoke_others q2 (Num t) w1 Hall2) as (Hd2 & x2 & Hx2 & Hxs2).
    remember (fold_left (fun w cb => invoke (run_frame_callback cb (Num t)) w) q2 w1)
      as wc eqn:Hwc.
    clear Hwc. simpl in Hd2, Hx2. rewrite Hq1 in Hx2.
    split; [unfold text_of; by rewrite Hd2, He1|]. split.
    + intros Hr. destruct (ratio_running (t - start)); [lra | done].
    + intros Hd. split.
      * unfold no_frame_for. rewrite Hx2. by apply Forall_app.
      * unfold text_of. rewrite Hd2, He1. simpl. by rewrite written_done.
Qed.

(** Once the loop has ended, further frames do not touch the element. *)
Lemma frame_finished (w : world) (t : Q) :
  finished el target w → finished el target (frame t w).
Proof.
  intros [Hq Ht]. unfold frame.
  destruct (invoke_others (animationFrames w) (Num t)
              (with_animationFrames (fun _ => []) w) Hq) as (Hd & x & Hx & Hxs).
  split.
  - unfold no_frame_for. by rewrite Hx.
  - unfold text_of in *. by rewrite Hd.
Qed.

Lemma frame_counting (w : world) (t : Q) :
  counting el target start w → counting el target start (frame t w).
Proof.
  intros [Ha|Hf].
  - destruct (frame_animating w t Ha) as (_ & Hr & Hd).
    destruct (Qlt_le_dec t (start + 2000)); [left|right]; auto.
  - right. by apply frame_finished.
Qed.

Lemma frame_finishes (w : world) (t : Q) :
  counting el target start w → start + 2000 <= t → finished el target (frame t w).
Proof.
  intros [Ha|Hf] Ht.
  - by apply frame_animating.
  - by apply frame_finished.
Qed.

(** In time order, every frame leaves the value of its own timestamp. *)
Lemma frame_text (w : world) (lo t : Q) :
  animating el target start w ∨ (finished el target w ∧ start + 2000 <= lo) →
  lo <= t →
  text_of el (frame t w) = Some (NumberText (written target start t)) ∧
  (animating el target start (frame t w) ∨
   (finished el target (frame t w) ∧ start + 2000 <= t)).
Proof.
  intros [Ha|[Hf Hlo]] Ht.
  - destruct (frame_animating w t Ha) as (Htx & Hr & Hd). split; [done|].
    destruct (Qlt_le_dec t (start + 2000)); [left|right]; auto.
  - assert (start + 2000 <= t) by lra.
    pose proof (frame_finished w t Hf) as Hf'.
    split; [|by right]. rewrite written_done by done. apply Hf'.
Qed.

Lemma refreshes_S (ts : nat → Q) (n : nat) (w : world) :
  run w (refreshes ts (S n)) = frame (ts n) (run w (refreshes ts n)).
Proof.
  unfold run, refreshes. rewrite seq_S, !fmap_app, fold_left_app. reflexivity.
Qed.

Lemma refreshes_counting (ts : nat → Q) (n : nat) (w : world) :
  counting el target start w → counting el target start (run w (refreshes ts n)).
Proof.
  intros Hw. induction n as [|n IH]; [done|].
  rewrite refreshes_S. by apply frame_counting.
Qed.

Lemma refreshes_finished (ts : nat → Q) (k n : nat) (w : world) :
  counting el target start w → start + 2000 <= ts k → (k < n)%nat →
  finished el target (run w (refreshes ts n)).
Proof.
  intros Hw Hk Hn. induction n as [|n IH]; [lia|].
  rewrite refreshes_S. destruct (decide (k = n)) as [->|Hne].
  - apply frame_finishes; [by apply refreshes_counting | done].
  - apply frame_finished, IH. lia.
Qed.

Lemma frames_text (ts : list Q) (w : world) (lo : Q) :
  StronglySorted Qle (lo :: ts) →
  animating el target start w ∨ (finished el target w ∧ start + 2000 <= lo) →
  ∀ i t, ts !! i = Some t →
    text_of el (run w (AnimationFrame <$> take (S i) ts)) =
      Some (NumberText (written target start t)).
Proof.
  revert w lo. induction ts as [|t0 ts IH]; intros w lo Hs Hw i t Hi; [done|].
  apply StronglySorted_inv in Hs as [Hs Hlo].
  assert (Ht0 : lo <= t0) by by inversion Hlo.
  destruct (frame_text w lo t0 Hw Ht0) as [Htx Hw'].
  destruct i as [|i]; simpl in *.
  - by simplify_eq.
  - by apply (IH _ t0).
Qed.
End Frames.

Lemma animateCounter_live (w : world) (el : nat) (e : element) :
  doc w !! el = Some e →
  invoke (animateCounter (Some el)) w =
    with_animationFrames
      (fun fs => (fs ++ [update (Some el) (parseInt (ToString (attributes e !! "data-target")))
                         (Num (clock w))])%list) w.
Proof.
  intros He. unfold invoke, animateCounter, getAttribute.
  erewrite bind_returned;
    [|erewrite bind_returned; [reflexivity | by apply deref_live]].
  reflexivity.
Qed.

Lemma animateCounter_animating (w : world) (el : nat) (e : element) :
  doc w !! el = Some e → no_frame_for el w →
  animating el (parseInt (ToString (attributes e !! "data-target"))) (clock w)
    (invoke (animateCounter (Some el)) w).
Proof.
  intros He Hq. rewrite (animateCounter_live _ _ e) by done.
  split; simpl; [|eauto]. exists (animationFrames w), []. split; [done|].
  by rewrite app_nil_r.
Qed.

Lemma StronglySorted_lookup {A} (R : A → A → Prop) (l : list A) (i j : nat) (x y : A) :
  StronglySorted R l → (i < j)%nat → l !! i = Some x → l !! j = Some y → R x y.
Proof.
  intros Hs. revert i j. induction Hs as [|a l Hs IH Hall]; intros i j Hij Hi Hj; [done|].
  destruct j as [|j]; [lia|]. destruct i as [|i]; simpl in *.
  - simplify_eq. rewrite Forall_forall in Hall. apply Hall.
    by eapply list_elem_of_lookup_2.
  - apply (IH i j); [lia|done|done].
Qed.

Lemma frames_text_animating (el : nat) (target : number) (start : Q) (ts : list Q)
    (w : world) :
  StronglySorted Qle ts →
  animating el target start w →
  ∀ i t, ts !! i = Some t →
    text_of el (run w (AnimationFrame <$> take (S i) ts)) =
      Some (NumberText (written target start t)).
Proof.
  intros Hs Hw. destruct ts as [|t0 ts]; [done|].
  apply (frames_text el target start (t0 :: ts) w t0); [|by left].
  constructor; [done|]. constructor; [apply Qle_refl|].
  by apply StronglySorted_inv in Hs as [_ Hs].
Qed.

Lemma refreshes_settle (el : nat) (target : number) (start : Q) (ts : nat → Q) (w : world) :
  counting el target start w →
  (∀ b : Q, ∃ k, (b < ts k)%Q) →
  ∃ N, ∀ m, (N ≤ m)%nat → finished el target (run w (refreshes ts m)).
Proof.
  intros Hw Hts. destruct (Hts (start + 2000)%Q) as [k Hk]. exists (S k).
  intros m Hm. apply (refreshes_finished el target start ts k); [done| |lia].
  by apply Qlt_le_weak.
Qed.



Lemma parseInt_not_an_integer (s : string) : not_an_integer s → parseInt s = NaN.
Proof.
  unfold not_an_integer, parseInt. destruct (strip_sign (trimStart s)) as [sign rest].
  simpl. destruct rest as [|a rest]; [done|]. simpl. intros H.
  destruct (digit a) eqn:E; [|done].
  apply bool_decide_eq_false in H. destruct H. eauto.
Qed.

(** [not_an_integer] is exact: any other text parses to an integer. *)
Lemma parseInt_integer (s : string) :
  ¬ not_an_integer s → ∃ z : Z, parseInt s = Num (inject_Z z).
Proof.
  unfold not_an_integer, parseInt. destruct (strip_sign (trimStart s)) as [sign rest].
  simpl. destruct rest as [|a rest]; [done|]. simpl. intros H.
  destruct (digit a) as [d|] eqn:E; [eauto|].
  destruct H. apply bool_decide_eq_false. by intros [? ?].
Qed.

Lemma parseInt_missing (attr : option string) :
  attr = None ∨ (∃ s, attr = Some s ∧ not_an_integer s) → parseInt (ToString attr) = NaN.
Proof.
  intros [->|(s & -> & Hs)]; [reflexivity|]. by apply parseInt_not_an_integer.
Qed.

(** C9.  When the target attribute is missing or holds no integer, the parsed
    target is NaN and the animation runs with it: every frame writes NaN, so
    the element shows NaN from the first frame on, and the loop ends as it
    does for a numeric target. *)
Theorem counter_not_a_number (w : world) (el : nat) (e : element) (ts : nat → Q) :
  doc w !! el = Some e →
  no_frame_for el w →
  attributes e !! "data-target" = None ∨
    (∃ s, attributes e !! "data-target" = Some s ∧ not_an_integer s) →
  let w0 := invoke (animateCounter (Some el)) w in
  parseInt (ToString (attributes e !! "data-target")) = NaN ∧
  animating el NaN (clock w) w0 ∧
  (∀ t, written NaN (clock w) t = NaN) ∧
  (∀ m, (1 ≤ m)%nat → text_of el (run w0 (refreshes ts m)) = Some (NumberText NaN)) ∧
  ((∀ b : Q, ∃ k, (b < ts k)%Q) →
   ∃ N, ∀ m, (N ≤ m)%nat → no_frame_for el (run w0 (refreshes ts m))).
Proof.
  intros He Hq Hattr w0. pose proof (parseInt_missing _ Hattr) as Hp.
  assert (Ha : animating el NaN (clock w) w0).
  { rewrite <- Hp. by apply animateCounter_animating. }
  split; [done|]. split; [done|]. split; [apply written_NaN|]. split.
  - intros m Hm. destruct m as [|m]; [lia|]. rewrite refreshes_S.
    destruct (refreshes_counting el NaN (clock w) ts m w0) as [Hr|Hf]; [by left| |].
    + destruct (frame_animating el NaN (clock w) _ (ts m) Hr) as [Htx _].
      by rewrite Htx, written_NaN.
    + apply (frame_finished el NaN _ (ts m)) in Hf. apply Hf.
  - intros Hts.
    destruct (refreshes_settle el NaN (clock w) ts w0) as [N HN]; [by left|done|].
    exists N. intros m Hm. apply HN. done.
Qed.


(** ** Mobile menu *)

Lemma insert_alter_live {A} (l : list A) (i : nat) (x : A) (f : A → A) :
  l !! i = Some x → <[i := f x]> l = alter f i l.
Proof.
  intros H. apply list_eq. intros j. destruct (decide (i = j)) as [->|Hne].
  - rewrite list_lookup_insert_eq by by eapply lookup_lt_Some.
    by rewrite list_lookup_alter_eq, H.
  - by rewrite list_lookup_insert_ne, list_lookup_alter_ne.
Qed.

Lemma classList_toggle_live (w : world) (h : nat) (c : string) :
  is_Some (doc w !! h) →
  classList_toggle (Some h) c None w =
    Returned tt (with_doc (fun d => alter (toggled c) h d) w).
Proof.
  intros [e He]. unfold classList_toggle.
  rewrite (bind_returned _ _ _ _ _ (deref_live _ _ _ He)). simpl.
  unfold with_doc. rewrite <- (insert_alter_live _ _ e) by done. unfold toggled.
  destruct (has_class c e); unfold classList_remove, classList_add;
    by rewrite (modify_live _ _ _ _ He).
Qed.

Lemma toggled_class (c c' : string) (e : element) :
  c' ∈ classList (toggled c e) ↔
  (if decide (c' = c) then c ∉ classList e else c' ∈ classList e).
Proof.
  unfold toggled, has_class. simpl.
  destruct (decide (c' = c)) as [->|Hne]; case_bool_decide as Hc.
  - rewrite elem_of_difference, not_elem_of_singleton. intuition congruence.
  - rewrite elem_of_union, elem_of_singleton. intuition congruence.
  - rewrite elem_of_difference, not_elem_of_singleton. intuition congruence.
  - rewrite elem_of_union, elem_of_singleton. intuition congruence.
Qed.

Lemma toggled_self (c : string) (e : element) :
  c ∈ classList (toggled c e) ↔ c ∉ classList e.
Proof. by rewrite toggled_class, decide_True. Qed.

Lemma toggled_other (c c' : string) (e : element) :
  c' ≠ c → c' ∈ classList (toggled c e) ↔ c' ∈ classList e.
Proof. intros H. by rewrite toggled_class, decide_False. Qed.

Lemma toggled_twice (c : string) (e : element) : toggled c (toggled c e) = e.
Proof.
  assert (Hs : classList (toggled c (toggled c e)) = classList e).
  { apply set_eq. intros c'. rewrite toggled_class.
    destruct (decide (c' = c)) as [->|Hne]; rewrite toggled_class.
    - rewrite decide_True by done. split; [apply dec_stable | auto].
    - by rewrite decide_False. }
  destruct e. unfold toggled, with_classList in *. simpl in *. by f_equal.
Qed.

Lemma toggled_comm (c c' : string) (e : element) :
  c ≠ c' → toggled c (toggled c' e) = toggled c' (toggled c e).
Proof.
  intros Hne.
  assert (Hs : classList (toggled c (toggled c' e)) = classList (toggled c' (toggled c e))).
  { apply set_eq. intros x.
    repeat (first [rewrite toggled_class | case_decide]; simplify_eq); tauto. }
  destruct e. unfold toggled, with_classList in *. simpl in *. by f_equal.
Qed.

Lemma toggle_twice_doc (d : document) (toggle links : nat) :
  alter (toggled "open") links (alter (toggled "active") toggle
    (alter (toggled "open") links (alter (toggled "active") toggle d))) = d.
Proof.
  apply list_eq. intros i.
  destruct (decide (links = i)) as [->|Hl], (decide (toggle = i)) as [->|Ht];
    repeat first [rewrite list_lookup_alter_eq | rewrite list_lookup_alter_ne by done];
    destruct (d !! i) as [x|]; cbn [fmap option_fmap option_map]; try done; f_equal.
  - by rewrite (toggled_comm "open" "active" x), !toggled_twice.
  - by rewrite toggled_twice.
  - by rewrite toggled_twice.
Qed.

Lemma run_toggleClick_live (w : world) (toggle links : nat) :
  is_Some (doc w !! toggle) → is_Some (doc w !! links) →
  run_toggleClick (Some toggle) (Some links) w =
    Returned tt
      (with_doc (fun d => alter (toggled "open") links (alter (toggled "active") toggle d)) w).
Proof.
  intros Ht Hl. unfold run_toggleClick.
  rewrite (bind_returned _ _ _ _ _ (classList_toggle_live _ _ _ Ht)).
  rewrite classList_toggle_live; [done|]. simpl.
  apply lookup_lt_is_Some. rewrite length_alter. by apply lookup_lt_is_Some.
Qed.



(** ** Contact form *)

Lemma modify_twice (w : world) (h : nat) (e : element) (f g : element → element)
    {A} (k : js A) :
  doc w !! h = Some e →
  bind (modify (Some h) f) (fun _ => bind (modify (Some h) g) (fun _ => k)) w =
  bind (modify (Some h) (fun x => g (f x))) (fun _ => k) w.
Proof.
  intros He. assert (Hlen : (h < length (doc w))%nat) by by eapply lookup_lt_Some.
  rewrite (bind_returned _ _ _ _ _ (modify_live _ _ _ f He)).
  erewrite (bind_returned (modify (Some h) g));
    [|apply modify_live; simpl; by apply list_lookup_insert_eq].
  rewrite (bind_returned _ _ _ _ _ (modify_live _ _ _ _ He)).
  f_equal. destruct w. unfold with_doc. simpl. f_equal. apply list_insert_insert_eq.
Qed.

Lemma modify_twice_end (w : world) (h : nat) (e : element) (f g : element → element) :
  doc w !! h = Some e →
  bind (modify (Some h) f) (fun _ => modify (Some h) g) w =
  modify (Some h) (fun x => g (f x)) w.
Proof.
  intros He. assert (Hlen : (h < length (doc w))%nat) by by eapply lookup_lt_Some.
  rewrite (bind_returned _ _ _ _ _ (modify_live _ _ _ f He)).
  erewrite modify_live; [|simpl; by apply list_lookup_insert_eq].
  rewrite (modify_live _ _ _ _ He).
  f_equal. destruct w. unfold with_doc. simpl. f_equal. apply list_insert_insert_eq.
Qed.

Lemma handleFormSubmit_live (w : world) (ev : Event) (btn form_ : nat) (b : element) :
  element_by_id "submitBtn" (doc w) = Some btn →
  element_by_id "contactForm" (doc w) = Some form_ →
  doc w !! btn = Some b →
  handleFormSubmit ev w =
    Returned (mkEvent true)
      (with_timers (fun ts => (ts ++ [((clock w + 1200)%Q, sendDone (Some btn) (Some form_))])%list)
         (with_doc (fun d => <[btn := sending b]> d) w)).
Proof.
  intros Hb Hf He. unfold handleFormSubmit, getElementById.
  erewrite bind_returned; [|reflexivity]. erewrite bind_returned; [|reflexivity].
  simpl. rewrite Hb, Hf. simpl.
  unfold set_textContent, set_disabled, set_style_opacity.
  rewrite !(modify_twice _ _ b) by done.
  rewrite (bind_returned _ _ _ _ _ (modify_live _ _ _ _ He)). reflexivity.
Qed.

Lemma run_sendReset_live (w : world) (btn : nat) (b : element) :
  doc w !! btn = Some b →
  run_sendReset (Some btn) w = Returned tt (with_doc (fun d => <[btn := idle b]> d) w).
Proof.
  intros He. unfold run_sendReset, set_textContent, set_disabled, set_style_background.
  rewrite (modify_twice _ _ b), (modify_twice_end _ _ b) by done.
  by rewrite (modify_live _ _ _ _ He).
Qed.

Lemma run_sendDone_live (w : world) (btn form_ : nat) (b f : element) :
  doc w !! btn = Some b →
  doc (with_doc (fun d => <[btn := sent b]> d) w) !! form_ = Some f →
  localName f = "form" →
  run_sendDone (Some btn) (Some form_) w =
    Returned tt
      (with_timers (fun ts => (ts ++ [((clock w + 3000)%Q, sendReset (Some btn))])%list)
         (with_doc (fun d => reset_control form_ <$> d)
            (with_doc (fun d => <[btn := sent b]> d) w))).
Proof.
  intros He Hf Hform.
  unfold run_sendDone, set_textContent, set_style_background, set_style_opacity.
  rewrite !(modify_twice _ _ b) by done.
  rewrite (bind_returned _ _ _ _ _ (modify_live _ _ _ _ He)).
  unfold reset. erewrite (bind_returned (bind _ _)).
  2:{ rewrite (bind_returned _ _ _ _ _ (deref_live _ _ _ Hf)). simpl.
      rewrite Hform. reflexivity. }
  reflexivity.
Qed.

Lemma timeout_single (w : world) (due : Q) (cb : timer_callback) :
  timers w = [(due, cb)] → (clock w <= due)%Q →
  timeout w = invoke (run_timer_callback cb) (with_timers (fun _ => []) (with_clock due w)).
Proof.
  intros Ht Hle. unfold timeout. rewrite Ht. simpl.
  apply Qle_bool_iff in Hle. by rewrite Hle.
Qed.

Section Cycle.
Context (w : world) (btn form_ : nat) (b f : element).
Hypothesis Hbtn : element_by_id "submitBtn" (doc w) = Some btn.
Hypothesis Hform : element_by_id "contactForm" (doc w) = Some form_.
Hypothesis Hb : doc w !! btn = Some b.
Hypothesis Hf : doc w !! form_ = Some f.
Hypothesis Hlocal : localName f = "form".
Hypothesis Htimers : timers w = [].

Local Abbreviation w1 := (on_submit w btn form_ b).
Local Abbreviation w2 := (on_sent w btn form_ b).
Local Abbreviation w3 := (on_idle w btn form_ b).

Lemma btn_not_form : btn ≠ form_.
Proof.
  intros Heq. destruct (element_by_id_live _ _ _ Hbtn) as (e1 & He1 & Hid1).
  destruct (element_by_id_live _ _ _ Hform) as (e2 & He2 & Hid2).
  subst form_. simplify_eq. rewrite Hid1 in Hid2. discriminate.
Qed.

Lemma submit_sending : step w Submit = w1.
Proof.
  simpl. unfold submit, invoke.
  rewrite (handleFormSubmit_live w _ btn form_ b) by done.
  unfold on_submit, with_timers, with_doc. simpl. by rewrite Htimers.
Qed.

Lemma timeout_sent : step w1 Timeout = w2.
Proof.
  assert (Hlen : (btn < length (doc w))%nat) by by eapply lookup_lt_Some.
  simpl. rewrite (timeout_single w1 (clock w + 1200) (sendDone (Some btn) (Some form_)));
    [|done|simpl; lra].
  unfold invoke. simpl.
  rewrite (run_sendDone_live _ btn form_ (sending b) f); [| |simpl|done].
  - unfold on_sent, with_timers, with_doc. simpl. by rewrite list_insert_insert_eq.
  - simpl. by apply list_lookup_insert_eq.
  - rewrite list_insert_insert_eq, list_lookup_insert_ne; [done|apply btn_not_form].
Qed.

Lemma sent_button :
  doc w2 !! btn = Some (reset_control form_ (sent (sending b))).
Proof.
  simpl. rewrite list_lookup_fmap, list_lookup_insert_eq; [done|].
  by eapply lookup_lt_Some.
Qed.

Lemma timeout_idle : step w2 Timeout = w3.
Proof.
  simpl. rewrite (timeout_single w2 (clock w + 1200 + 3000) (sendReset (Some btn)));
    [|done|simpl; lra].
  unfold invoke. simpl.
  rewrite (run_sendReset_live _ btn (reset_control form_ (sent (sending b))));
    [done|apply sent_button].
Qed.
End Cycle.




(** ** Missing elements *)

Lemma select_nil (p : nat → element → bool) (d : document) :
  (∀ h e, d !! h = Some e → p h e = false) → select p d = [].
Proof.
  intros H. destruct (select p d) as [|h l] eqn:E; [done|].
  assert (Hin : h ∈ select p d) by (rewrite E; left).
  apply elem_of_select in Hin as (e & He & Hp). rewrite (H h e He) in Hp. discriminate.
Qed.

(** C8.  A component whose elements are missing returns at once: the four
    initialisers leave the page exactly as it was and raise nothing; the
    submission handler also leaves the page as it was and raises nothing, but
    it has already prevented the default action of the event it was given. *)
Theorem absent_elements_no_op (w : world) (ev : Event) :
  (element_by_id "navbar" (doc w) = None → initNavbar w = Returned tt w) ∧
  ((∀ h e, doc w !! h = Some e → "animate-on-scroll" ∉ classList e) →
   initScrollAnimations w = Returned tt w) ∧
  ((∀ h e, doc w !! h = Some e →
      "stat-number" ∉ classList e ∨ attributes e !! "data-target" = None) →
   initCounterAnimations w = Returned tt w) ∧
  (element_by_id "navToggle" (doc w) = None ∨ element_by_id "navLinks" (doc w) = None →
   initMobileMenu w = Returned tt w) ∧
  (element_by_id "submitBtn" (doc w) = None ∨ element_by_id "contactForm" (doc w) = None →
   handleFormSubmit ev w = Returned (mkEvent true) w ∧ step w Submit = w).
Proof.
  split; [|split; [|split; [|split]]].
  - intros H. unfold initNavbar, getElementById, bind, get. by rewrite H.
  - intros H. unfold initScrollAnimations, querySelectorAll, bind, get.
    rewrite select_nil; [done|]. intros h e He. unfold animate_on_scroll, has_class.
    apply bool_decide_eq_false. eauto.
  - intros H. unfold initCounterAnimations, querySelectorAll, bind, get.
    rewrite select_nil; [done|]. intros h e He.
    unfold stat_number_with_target, has_class, has_attribute.
    destruct (H h e He) as [Hc|Ha].
    + by rewrite (bool_decide_eq_false_2 _ Hc).
    + rewrite Ha. apply andb_false_iff. right. apply bool_decide_eq_false.
      by intros [? ?].
  - intros H. unfold initMobileMenu, getElementById, bind, get.
    destruct H as [-> | ->]; [done|]. by destruct (element_by_id "navToggle" _).
  - intros H.
    assert (Hr : handleFormSubmit ev w = Returned (mkEvent true) w).
    { unfold handleFormSubmit, getElementById, bind, get.
      destruct H as [-> | ->]; [done|]. by destruct (element_by_id "submitBtn" _). }
    split; [done|]. simpl. unfold submit, invoke.
    assert (Hr' : handleFormSubmit (mkEvent false) w = Returned (mkEvent true) w).
    { unfold handleFormSubmit, getElementById, bind, get.
      destruct H as [-> | ->]; [done|]. by destruct (element_by_id "submitBtn" _). }
    by rewrite Hr'.
Qed.

(** The wording of C8 without the exception for the event fails: with
    neither the button nor the form in the document, the submission handler
    still changes the event it is given, whose default action is now
    prevented. *)
Lemma submit_without_form_prevents_default :
  element_by_id "submitBtn" [] = None ∧
  element_by_id "contactForm" [] = None ∧
  defaultPrevented (mkEvent false) = false ∧
  handleFormSubmit (mkEvent false) (fresh [] 0 0) = Returned (mkEvent true) (fresh [] 0 0).
Proof. repeat split. Qed.

Lemma absent_elements_no_op_witness :
  initNavbar (fresh [] 0 0) = Returned tt (fresh [] 0 0) ∧
  initMobileMenu (fresh [] 0 0) = Returned tt (fresh [] 0 0).
Proof.
  destruct (absent_elements_no_op (fresh [] 0 0) (mkEvent false)) as (H1 & _ & _ & H4 & _).
  split; [apply H1; reflexivity | apply H4; left; reflexivity].
Defined.


(** ** The statements at the sample pages *)

Ltac evaluated :=
  vm_compute; first [reflexivity | discriminate | exact I | by repeat constructor].

Lemma navbar_scrolled_iff_witness :
  element_by_id "navbar" Sample.landing = Some 0 ∧
  shows "scrolled" 0 (run (load Sample.landing 0 0) [Click 1; Scroll 30; Scroll 61]) ∧
  ¬ shows "scrolled" 0 (run (load Sample.landing 0 0) [Scroll 61; Click 1; Scroll 60]).
Proof.
  split; [evaluated|]. split.
  - apply (navbar_scrolled_iff Sample.landing 0 0 0 [Click 1; Scroll 30] 61); evaluated.
  - apply (navbar_scrolled_iff Sample.landing 0 0 0 [Scroll 61; Click 1] 60); evaluated.
Defined.

Lemma reveal_at_most_once_witness :
  observers Sample.loaded !! 0 = Some Sample.reveal_observer ∧
  shows "visible" 4
    (run (step Sample.loaded (Intersect 0 [mkEntry 4 true])) [Scroll 80; Click 1]) ∧
  unobserved 0 4
    (run (step Sample.loaded (Intersect 0 [mkEntry 4 true])) [Scroll 80; Click 1]).
Proof.
  split; [evaluated|].
  destruct (reveal_at_most_once Sample.loaded 0 4 Sample.reveal_observer
              [mkEntry 4 true] [mkEntry 4 false; mkEntry 4 true] [Scroll 80; Click 1])
    as (Hv & Hu & _).
  - evaluated.
  - evaluated.
  - simpl. intros h ->%elem_of_singleton. eexists. evaluated.
  - exists (mkEntry 4 true). split; [|done]. apply list_elem_of_filter. split; [|left].
    simpl. by apply elem_of_singleton.
  - split; [exact Hv | exact Hu].
Defined.



Lemma counter_not_a_number_witness :
  not_an_integer "muchos" ∧
  text_of 0 (run (invoke (animateCounter (Some 0)) (fresh Sample.broken_counter 0 0))
               (refreshes Sample.every_second 1)) = Some (NumberText NaN) ∧
  text_of 0 (run (invoke (animateCounter (Some 0)) (fresh Sample.broken_counter 0 0))
               (refreshes Sample.every_second 4)) = Some (NumberText NaN).
Proof.
  split; [evaluated|].
  destruct (counter_not_a_number (fresh Sample.broken_counter 0 0) 0
              (Sample.tag "span" "" None ["stat-number"] [("data-target", "muchos")])
              Sample.every_second) as (_ & _ & _ & H & _).
  - evaluated.
  - evaluated.
  - right. exists "muchos". split; evaluated.
  - split; apply H; lia.
Defined.







(** * Further properties of the script *)

(** ** Selections *)

Lemma filter_fmap_pre {A B} (f : A → B) (P : B → Prop) `{∀ x, Decision (P x)} (l : list A) :
  filter P (f <$> l) = f <$> filter (fun x => P (f x)) l.
Proof.
  induction l as [|x l IH]; [done|]. rewrite fmap_cons, !filter_cons. simpl.
  destruct (decide (P (f x))); by rewrite IH.
Qed.

Lemma select_cons (p : nat → element → bool) (x : element) (d : document) :
  select p (x :: d) =
    ((if p 0%nat x then [0%nat] else []) ++ (S <$> select (fun i => p (S i)) d))%list.
Proof.
  unfold select. rewrite imap_cons.
  replace (imap (pair ∘ S) d) with (prod_map S (@Datatypes.id element) <$> imap pair d)
    by (rewrite fmap_imap; by apply imap_ext).
  rewrite filter_cons. simpl. rewrite filter_fmap_pre. simpl.
  assert (Hc : ∀ l : list (nat * element), (prod_map S Datatypes.id <$> l).*1 = S <$> l.*1).
  { intros l. rewrite <- !list_fmap_compose. by apply list_fmap_ext. }
  destruct (p 0%nat x); simpl.
  - destruct (decide (true = true)); [|done]. simpl. f_equal. apply Hc.
  - destruct (decide (false = true)); [done|]. apply Hc.
Qed.

Lemma select_ext (p q : nat → element → bool) (d d' : document) :
  length d' = length d →
  (∀ h e e', d !! h = Some e → d' !! h = Some e' → p h e = q h e') →
  select p d = select q d'.
Proof.
  revert p q d'. induction d as [|x d IH]; intros p q [|x' d'] Hlen H; simplify_eq/=; [done|].
  rewrite !select_cons. rewrite (H 0%nat x x') by done. f_equal. f_equal.
  apply IH; [done|]. intros h e e' He He'. by apply (H (S h)).
Qed.

(** ** What the script never writes *)

Lemma same_markup_refl (e : element) : same_markup e e.
Proof. by split. Qed.

Lemma same_markup_trans (e1 e2 e3 : element) :
  same_markup e1 e2 → same_markup e2 e3 → same_markup e1 e3.
Proof.
  intros [H1 H2] [H3 H4]. split; [congruence|].
  intros c Hc. by rewrite H4, H2.
Qed.

Lemma same_markup_doc_refl (d : document) : same_markup_doc d d.
Proof. split; [done|]. intros h e e' He He'. simplify_eq. apply same_markup_refl. Qed.

Lemma same_markup_doc_trans (d1 d2 d3 : document) :
  same_markup_doc d1 d2 → same_markup_doc d2 d3 → same_markup_doc d1 d3.
Proof.
  intros [L1 H1] [L2 H2]. split; [congruence|]. intros h e e' He He'.
  assert (is_Some (d2 !! h)) as [e2 He2].
  { apply lookup_lt_is_Some. rewrite L1. by eapply lookup_lt_Some. }
  eapply same_markup_trans; eauto.
Qed.

(** One element is replaced by an edit of itself. *)
Lemma same_markup_doc_insert (d : document) (h : nat) (e e' : element) :
  d !! h = Some e → same_markup e e' → same_markup_doc d (<[h := e']> d).
Proof.
  intros He Hm. split; [by rewrite length_insert|]. intros k x x' Hx Hx'.
  destruct (decide (h = k)) as [->|Hne].
  - rewrite list_lookup_insert_eq in Hx' by by eapply lookup_lt_Some. by simplify_eq.
  - rewrite list_lookup_insert_ne in Hx' by done. simplify_eq. apply same_markup_refl.
Qed.

Lemma same_markup_classList (e : element) (f : gset string → gset string) :
  (∀ s c, c ∉ script_classes → c ∈ f s ↔ c ∈ s) → same_markup e (with_classList f e).
Proof. intros Hf. split; [done|]. intros c Hc. simpl. by apply Hf. Qed.

Lemma same_markup_add (e : element) (c : string) :
  c ∈ script_classes → same_markup e (with_classList (fun s => s ∪ {[c]}) e).
Proof.
  intros Hc. apply same_markup_classList. intros s c' Hc'.
  rewrite elem_of_union, elem_of_singleton. split; [|by left].
  intros [?|Heq]; [done|]. subst. by destruct Hc'.
Qed.

Lemma same_markup_remove (e : element) (c : string) :
  c ∈ script_classes → same_markup e (with_classList (fun s => s ∖ {[c]}) e).
Proof.
  intros Hc. apply same_markup_classList. intros s c' Hc'.
  rewrite elem_of_difference, elem_of_singleton. split; [by intros [? _]|].
  intros H. split; [done|]. intros ->. by destruct Hc'.
Qed.

Lemma same_markup_scrolled (e : element) (y : Q) :
  same_markup e (with_classList (scrolled_class y) e).
Proof.
  unfold scrolled_class. destruct (gt _ _).
  - apply same_markup_add. one_of.
  - apply same_markup_remove. one_of.
Qed.

Lemma same_markup_reset (h : nat) (e : element) : same_markup e (reset_control h e).
Proof. unfold reset_control. destruct (owned_by h e); by split. Qed.

Lemma same_markup_edit (f : element → element) (e : element) :
  handler_edit f → same_markup e (f e).
Proof.
  intros [c Hc|c Hc| | | |]; try by split.
  - apply same_markup_add. apply list_elem_of_In in Hc. simpl in Hc.
    apply list_elem_of_In. simpl. tauto.
  - apply same_markup_remove. apply list_elem_of_In in Hc. simpl in Hc.
    apply list_elem_of_In. simpl. tauto.
Qed.

Section SameMarkup.
Context (d d' : document) (H : same_markup_doc d d').

Lemma same_markup_select (p : element → bool) :
  (∀ e e', same_markup e e' → p e' = p e) →
  select (fun _ e => p e) d' = select (fun _ e => p e) d.
Proof.
  intros Hp. destruct H as [Hlen Hm]. symmetry. apply select_ext; [done|].
  intros h e e' He He'. symmetry. apply Hp. eauto.
Qed.

Lemma same_markup_element_by_id (name : string) :
  element_by_id name d' = element_by_id name d.
Proof.
  unfold element_by_id. f_equal.
  apply (same_markup_select (fun e => String.eqb (id e) name)).
  intros e e' [Hm _]. inversion Hm as [[H1 H2 H3 H4 H5 H6]]. by rewrite H2.
Qed.

Lemma same_markup_animate_on_scroll :
  select (fun _ e => animate_on_scroll e) d' = select (fun _ e => animate_on_scroll e) d.
Proof.
  apply same_markup_select. intros e e' [_ Hc]. unfold animate_on_scroll, has_class.
  apply bool_decide_ext, Hc. unfold script_classes. intros Hin.
  apply list_elem_of_In in Hin. simpl in Hin. intuition discriminate.
Qed.

Lemma same_markup_stat_number :
  select (fun _ e => stat_number_with_target e) d' =
  select (fun _ e => stat_number_with_target e) d.
Proof.
  apply same_markup_select. intros e e' [Hm Hc].
  unfold stat_number_with_target, has_class, has_attribute. unfold markup in Hm.
  f_equal.
  - apply bool_decide_ext, Hc. unfold script_classes. intros Hin.
    apply list_elem_of_In in Hin. simpl in Hin. intuition discriminate.
  - inversion Hm as [[H1 H2 H3 H4 H5 H6]]. by rewrite H4.
Qed.

Lemma same_markup_descends (fuel root h : nat) :
  descends d' fuel root h = descends d fuel root h.
Proof.
  destruct H as [Hlen Hm]. revert h. induction fuel as [|fuel IH]; intros h; simpl; [done|].
  destruct (d !! h) as [e|] eqn:E.
  - assert (is_Some (d' !! h)) as [e' E'].
    { apply lookup_lt_is_Some. rewrite Hlen. by eapply lookup_lt_Some. }
    rewrite E'. destruct (Hm h e e' E E') as [Hk _].
    inversion Hk as [[H1 H2 Hp H4 H5 H6]]. rewrite Hp. destruct (parentNode e); [|done]. by rewrite IH.
  - assert (E' : d' !! h = None).
    { apply lookup_ge_None. rewrite Hlen. by apply lookup_ge_None. }
    by rewrite E'.
Qed.

Lemma same_markup_anchors_in (links : nat) : anchors_in links d' = anchors_in links d.
Proof.
  unfold anchors_in. symmetry. destruct H as [Hlen Hm]. apply select_ext; [done|].
  intros h e e' He He'. rewrite same_markup_descends, Hlen. f_equal.
  destruct (Hm h e e' He He') as [Hk _]. inversion Hk as [[H1 H2 H3 H4 H5 H6]].
  unfold anchor. by rewrite H1.
Qed.

Lemma same_markup_menu_listeners : menu_listeners d' = menu_listeners d.
Proof.
  unfold menu_listeners. rewrite !same_markup_element_by_id.
  destruct (element_by_id "navToggle" d); [|done].
  destruct (element_by_id "navLinks" d); [|done]. by rewrite same_markup_anchors_in.
Qed.

End SameMarkup.

(** ** The initialisers in closed form *)

Lemma initNavbar_returns (w : world) :
  initNavbar w =
    Returned tt
      (match element_by_id "navbar" (doc w) with
       | Some h =>
           with_doc (alter (with_classList (scrolled_class (scrollY w))) h)
             (with_listeners (fun ls => ls ++ [(Window, "scroll", onScroll (Some h))])%list w)
       | None => w
       end).
Proof.
  unfold initNavbar, getElementById, bind, get.
  destruct (element_by_id "navbar" (doc w)) as [h|] eqn:E; [|done]. simpl.
  destruct (element_by_id_live _ _ _ E) as (e & He & _).
  unfold addEventListener, put.
  rewrite (run_onScroll_live _ h e) by done. f_equal.
  unfold with_doc, with_listeners. simpl. f_equal. by apply insert_alter_live.
Qed.

Lemma forEach_observe (l : list nat) (w : world) (os : list IntersectionObserver)
    (cb : observer_callback) (thr : Q) (m : string) (s : gset nat) :
  observers w = (os ++ [mkObserver cb thr m s])%list →
  forEach l (fun el => observe (length os) el) w =
    Returned tt
      (with_observers (fun _ => os ++ [mkObserver cb thr m (s ∪ list_to_set l)])%list w).
Proof.
  revert w s. induction l as [|x l IH]; intros w s Hw; simpl.
  - unfold ret. f_equal. destruct w; simpl in *. rewrite union_empty_r_L. by rewrite Hw.
  - unfold bind, observe, put. rewrite (IH _ (s ∪ {[x]})).
    + f_equal. destruct w; simpl. unfold with_observers. simpl.
      by rewrite (assoc_L (∪)).
    + simpl. rewrite Hw. replace (length os) with (length os + 0)%nat by lia.
      by rewrite alter_app_r.
Qed.

(** The shape that [initScrollAnimations] and [initCounterAnimations]
    share. *)
Lemma observe_selected (sel : element → bool) (cb : observer_callback) (thr : Q)
    (m : string) (w : world) :
  bind (querySelectorAll sel) (fun els =>
    if (length els =? 0)%nat then ret tt else
    bind (new_IntersectionObserver cb thr m) (fun observer =>
      forEach els (fun el => observe observer el))) w =
  Returned tt
    (with_observers
       (fun os => os ++ observing cb thr m (select (fun _ e => sel e) (doc w)))%list w).
Proof.
  unfold querySelectorAll, bind at 1, get.
  destruct (select _ (doc w)) as [|x l] eqn:E.
  - simpl. unfold ret. f_equal. destruct w; unfold with_observers; simpl.
    by rewrite app_nil_r.
  - cbn [length Nat.eqb]. unfold new_IntersectionObserver, bind, get, put, ret.
    rewrite (forEach_observe (x :: l) _ (observers w) cb thr m ∅) by done.
    f_equal. destruct w; unfold with_observers, observing; simpl.
    by rewrite union_empty_l_L.
Qed.

Lemma initScrollAnimations_returns (w : world) :
  initScrollAnimations w =
    Returned tt
      (with_observers
         (fun os => os ++ observing revealEntries (1 # 10) "0px 0px -50px 0px"
                            (select (fun _ e => animate_on_scroll e) (doc w)))%list w).
Proof. apply observe_selected. Qed.

Lemma initCounterAnimations_returns (w : world) :
  initCounterAnimations w =
    Returned tt
      (with_observers
         (fun os => os ++ observing counterEntries (1 # 2) "0px"
                            (select (fun _ e => stat_number_with_target e) (doc w)))%list w).
Proof. apply observe_selected. Qed.

Lemma forEach_addEventListener_on (l : list nat) (type : string) (k : listener)
    (w : world) :
  (∀ a, a ∈ l → is_Some (doc w !! a)) →
  forEach l (fun link => addEventListener_on (Some link) type k) w =
    Returned tt
      (with_listeners (fun ls => ls ++ ((fun a => (Node a, type, k)) <$> l))%list w).
Proof.
  revert w. induction l as [|x l IH]; intros w Hl; simpl.
  - unfold ret. f_equal. destruct w; unfold with_listeners; simpl. by rewrite app_nil_r.
  - destruct (Hl x) as [e He]; [left|].
    unfold bind, addEventListener_on, bind. rewrite (deref_live _ _ _ He). simpl.
    unfold addEventListener, put. rewrite IH.
    + f_equal. destruct w; unfold with_listeners; simpl. by rewrite <- app_assoc.
    + intros a Ha. simpl. apply Hl. by right.
Qed.

Lemma initMobileMenu_returns (w : world) :
  initMobileMenu w =
    Returned tt (with_listeners (fun ls => ls ++ menu_listeners (doc w))%list w).
Proof.
  unfold initMobileMenu, menu_listeners, getElementById, bind at 1 2, get.
  destruct (element_by_id "navToggle" (doc w)) as [t|] eqn:Et;
    destruct (element_by_id "navLinks" (doc w)) as [l|] eqn:El; simpl;
    try (unfold ret; f_equal; destruct w; unfold with_listeners; simpl;
         by rewrite app_nil_r).
  destruct (element_by_id_live _ _ _ Et) as (te & Hte & _).
  destruct (element_by_id_live _ _ _ El) as (le & Hle & _).
  set (w1 := with_listeners
                (fun ls => ls ++ [(Node t, "click", toggleClick (Some t) (Some l))])%list w).
  assert (H1 : addEventListener_on (Some t) "click" (toggleClick (Some t) (Some l)) w =
               Returned tt w1).
  { unfold addEventListener_on, bind. by rewrite (deref_live _ _ _ Hte). }
  assert (H2 : querySelectorAll_in (Some l) anchor w1 =
               Returned (anchors_in l (doc w)) w1).
  { unfold querySelectorAll_in, bind. by rewrite (deref_live _ l le). }
  rewrite (bind_returned _ _ _ _ _ H1), (bind_returned _ _ _ _ _ H2).
  rewrite forEach_addEventListener_on.
  - f_equal. destruct w; unfold w1, with_listeners; simpl.
    by rewrite <- app_assoc.
  - intros a (e & He & _)%elem_of_select. simpl. eauto.
Qed.

Lemma same_markup_navbar_at (d : document) (y : Q) : same_markup_doc d (navbar_at y d).
Proof.
  unfold navbar_at. destruct (element_by_id "navbar" d) as [h|] eqn:E;
    [|apply same_markup_doc_refl].
  destruct (element_by_id_live _ _ _ E) as (e & He & _).
  rewrite <- (insert_alter_live _ _ e) by done.
  apply (same_markup_doc_insert d h e); [done|]. apply same_markup_scrolled.
Qed.

(** The whole of [main]: it returns, with the page in closed form. *)
Lemma main_returns (d : document) (y now : Q) :
  main (fresh d y now) = Returned tt (loaded_page d y now).
Proof.
  unfold main, bind.
  rewrite initNavbar_returns, initScrollAnimations_returns, initCounterAnimations_returns,
    initMobileMenu_returns.
  pose proof (same_markup_navbar_at d y) as Hm.
  assert (Hd : ∀ w, doc w = navbar_at y d →
    loaded_page d y now =
      mkWorld (doc w) y now (navbar_listeners d ++ menu_listeners (doc w))%list
        (observing revealEntries (1 # 10) "0px 0px -50px 0px"
           (select (fun _ e => animate_on_scroll e) (doc w))
         ++ observing counterEntries (1 # 2) "0px"
              (select (fun _ e => stat_number_with_target e) (doc w)))%list [] [] []).
  { intros w ->. unfold loaded_page.
    by rewrite (same_markup_animate_on_scroll _ _ Hm), (same_markup_stat_number _ _ Hm),
      (same_markup_menu_listeners _ _ Hm). }
  unfold navbar_at, navbar_listeners in *. simpl.
  destruct (element_by_id "navbar" d) as [h|]; simpl.
  - by rewrite (Hd (with_doc (alter (with_classList (scrolled_class y)) h) (fresh d y now))).
  - by rewrite (Hd (fresh d y now)).
Qed.

Lemma load_world (d : document) (y now : Q) : load d y now = loaded_page d y now.
Proof. unfold load, invoke. by rewrite main_returns. Qed.

Lemma elem_of_observing (o : IntersectionObserver) (cb : observer_callback) (thr : Q)
    (m : string) (els : list nat) :
  o ∈ observing cb thr m els → o = mkObserver cb thr m (list_to_set els) ∧ els ≠ [].
Proof.
  unfold observing. destruct els as [|x l]; [by intros ?%elem_of_nil|].
  by intros ->%list_elem_of_singleton.
Qed.

(** X1.  [main] runs to its end on every document: none of the four
    initialisers raises an exception, whatever elements are present or
    missing, and the loaded page has no pending animation frame and no timer;
    the scroll offset and the clock are as they were. *)
Theorem load_never_throws (d : document) (y now : Q) :
  main (fresh d y now) = Returned tt (load d y now) ∧
  uncaught (load d y now) = [] ∧
  animationFrames (load d y now) = [] ∧
  timers (load d y now) = [] ∧
  scrollY (load d y now) = y ∧
  clock (load d y now) = now.
Proof. rewrite load_world. split; [apply main_returns | done]. Qed.

(** X2.  After load the page has at most two observers, in this order: one
    with the reveal callback, threshold 0.1 and root margin
    [0px 0px -50px 0px], which observes exactly the elements of class
    [animate-on-scroll], present when there is such an element; and one with
    the counter callback and threshold 0.5, which observes exactly the
    elements of class [stat-number] that have a [data-target] attribute,
    present when there is such an element. *)
Theorem load_observers (d : document) (y now : Q) :
  let w := load d y now in
  observers w =
    (observing revealEntries (1 # 10) "0px 0px -50px 0px"
       (select (fun _ e => animate_on_scroll e) d)
     ++ observing counterEntries (1 # 2) "0px"
          (select (fun _ e => stat_number_with_target e) d))%list ∧
  (∀ o, o ∈ observers w → callback o = revealEntries →
     threshold o = (1 # 10)%Q ∧ rootMargin o = "0px 0px -50px 0px" ∧
     ∀ h, h ∈ observed o ↔ ∃ e, d !! h = Some e ∧ "animate-on-scroll" ∈ classList e) ∧
  (∀ o, o ∈ observers w → callback o = counterEntries →
     threshold o = (1 # 2)%Q ∧
     ∀ h, h ∈ observed o ↔
          ∃ e, d !! h = Some e ∧ "stat-number" ∈ classList e ∧
               is_Some (attributes e !! "data-target")) ∧
  (∀ h e, d !! h = Some e → "animate-on-scroll" ∈ classList e →
     ∃ o, observers w !! 0%nat = Some o ∧ callback o = revealEntries ∧ h ∈ observed o) ∧
  (∀ h e, d !! h = Some e → "stat-number" ∈ classList e →
     is_Some (attributes e !! "data-target") →
     ∃ i o, observers w !! i = Some o ∧ callback o = counterEntries ∧ h ∈ observed o).
Proof.
  intros w. unfold w. rewrite load_world. simpl.
  assert (Ha : ∀ h, h ∈ select (fun _ e => animate_on_scroll e) d ↔
                    ∃ e, d !! h = Some e ∧ "animate-on-scroll" ∈ classList e).
  { intros h. rewrite elem_of_select. unfold animate_on_scroll, has_class.
    by setoid_rewrite bool_decide_eq_true. }
  assert (Hc : ∀ h, h ∈ select (fun _ e => stat_number_with_target e) d ↔
                    ∃ e, d !! h = Some e ∧ "stat-number" ∈ classList e ∧
                         is_Some (attributes e !! "data-target")).
  { intros h. rewrite elem_of_select. unfold stat_number_with_target, has_class, has_attribute.
    setoid_rewrite andb_true_iff. by setoid_rewrite bool_decide_eq_true. }
  split; [done|]. split; [|split; [|split]].
  - intros o [Ho|Ho]%elem_of_app Hcb; apply elem_of_observing in Ho as [-> _];
      [|discriminate]. simpl. split; [done|]. split; [done|].
    intros h. by rewrite elem_of_list_to_set.
  - intros o [Ho|Ho]%elem_of_app Hcb; apply elem_of_observing in Ho as [-> _];
      [discriminate|]. simpl. split; [done|].
    intros h. by rewrite elem_of_list_to_set.
  - intros h e He Hcl. assert (Hin : h ∈ select (fun _ e => animate_on_scroll e) d)
      by (apply Ha; eauto).
    unfold observing at 1. destruct (select (fun _ e => animate_on_scroll e) d) as [|x l] eqn:E.
    { by apply elem_of_nil in Hin. }
    eexists. simpl. split; [done|]. split; [done|]. simpl.
    change ({[x]} ∪ list_to_set l : gset nat) with (list_to_set (C := gset nat) (x :: l)).
    by apply elem_of_list_to_set.
  - intros h e He Hcl Hat.
    assert (Hin : h ∈ select (fun _ e => stat_number_with_target e) d)
      by (apply Hc; eauto).
    set (os := observing revealEntries _ _ _).
    exists (length os). unfold observing at 1.
    destruct (select (fun _ e => stat_number_with_target e) d) as [|x l] eqn:E.
    { by apply elem_of_nil in Hin. }
    eexists. split; [apply list_lookup_middle; done|]. split; [done|]. simpl.
    change ({[x]} ∪ list_to_set l : gset nat) with (list_to_set (C := gset nat) (x :: l)).
    by apply elem_of_list_to_set.
Qed.

(** ** Who listens *)

Lemma NoDup_select (p : nat → element → bool) (d : document) : NoDup (select p d).
Proof.
  unfold select. apply NoDup_fmap_fst.
  - intros i e1 e2 [_ H1]%list_elem_of_filter [_ H2]%list_elem_of_filter.
    apply list_elem_of_lookup in H1 as [j1 H1]. apply list_elem_of_lookup in H2 as [j2 H2].
    apply list_lookup_imap_Some in H1 as (x1 & Hx1 & [= -> ->]).
    apply list_lookup_imap_Some in H2 as (x2 & Hx2 & [= -> ->]). congruence.
  - apply NoDup_filter. apply NoDup_alt. intros i j [k e] Hi Hj.
    apply list_lookup_imap_Some in Hi as (x1 & Hx1 & [= -> ->]).
    apply list_lookup_imap_Some in Hj as (x2 & Hx2 & [= -> ->]). done.
Qed.

Lemma filter_eq_NoDup (P : nat → Prop) `{∀ x, Decision (P x)} (l : list nat) (h : nat) :
  (∀ a, P a ↔ a = h) → NoDup l →
  filter P l = if decide (h ∈ l) then [h] else [].
Proof.
  intros HP. induction 1 as [|x l Hx Hl IH].
  - rewrite filter_nil. destruct (decide (h ∈ [])) as [Hin|]; [|done].
    by apply elem_of_nil in Hin.
  - rewrite filter_cons, IH. destruct (decide (P x)) as [Hp|Hp].
    + apply HP in Hp as ->. destruct (decide (h ∈ l)); [done|].
      destruct (decide (h ∈ h :: l)) as [|Hn]; [done|]. destruct Hn. left.
    + assert (x ≠ h) by (intros ->; by apply Hp, HP).
      destruct (decide (h ∈ l)) as [Hin|Hin].
      * destruct (decide (h ∈ x :: l)) as [|Hn]; [done|]. destruct Hn. by right.
      * destruct (decide (h ∈ x :: l)) as [[Heq|Hin']%elem_of_cons|]; done.
Qed.

Lemma listening_listeners (t : event_target) (type : string) (w w' : world) :
  listeners w' = listeners w → listening t type w' = listening t type w.
Proof. intros H. unfold listening. by rewrite H. Qed.

Lemma listening_navbar (d : document) (t : event_target) (type : string) (w : world) :
  listeners w = navbar_listeners d →
  listening t type w =
    match element_by_id "navbar" d, t with
    | Some h, Window => if String.eqb "scroll" type then [onScroll (Some h)] else []
    | _, _ => []
    end.
Proof.
  intros Hw. unfold listening. rewrite Hw. unfold navbar_listeners.
  destruct (element_by_id "navbar" d) as [h|]; [|done].
  rewrite filter_cons, filter_nil. cbn [fst snd].
  destruct t; cbn [event_target_eqb andb].
  - destruct (String.eqb "scroll" type); by destruct (decide _).
  - by destruct (decide _).
Qed.

Lemma listening_menu (d : document) (h t l : nat) (w : world) :
  listeners w = menu_listeners d →
  element_by_id "navToggle" d = Some t →
  element_by_id "navLinks" d = Some l →
  listening (Node h) "click" w =
    ((if decide (h = t) then [toggleClick (Some t) (Some l)] else [])
     ++ (if decide (h ∈ anchors_in l d) then [linkClick (Some t) (Some l)] else []))%list.
Proof.
  intros Hw Ht Hl. unfold listening. rewrite Hw. unfold menu_listeners. rewrite Ht, Hl.
  rewrite filter_cons, filter_fmap_pre. simpl.
  rewrite (filter_eq_NoDup _ (anchors_in l d) h); [|..|apply NoDup_select].
  - assert (Ht' : (if decide ((t =? h)%nat && true = true)
                   then [toggleClick (Some t) (Some l)] else [])
                  = if decide (h = t) then [toggleClick (Some t) (Some l)] else []).
    { destruct (decide (h = t)) as [->|Hne].
      - by rewrite Nat.eqb_refl.
      - assert ((t =? h)%nat = false) as -> by (apply Nat.eqb_neq; congruence). done. }
    destruct (decide ((t =? h)%nat && true = true)), (decide (h = t)),
      (decide (h ∈ anchors_in l d)); simplify_eq/=; done.
  - intros a. rewrite andb_true_r. rewrite Nat.eqb_eq. done.
Qed.

Lemma listening_other (d : document) (t : event_target) (type : string) (w : world) :
  listeners w = (navbar_listeners d ++ menu_listeners d)%list →
  type ≠ "scroll" → type ≠ "click" → listening t type w = [].
Proof.
  intros Hw Hs Hc. unfold listening. rewrite Hw.
  assert (Hall : Forall (fun r : event_target * string * listener =>
                           r.1.2 = "scroll" ∨ r.1.2 = "click")
                   (navbar_listeners d ++ menu_listeners d)).
  { apply Forall_app. split.
    - unfold navbar_listeners. destruct (element_by_id "navbar" d); repeat constructor.
    - unfold menu_listeners.
      destruct (element_by_id "navToggle" d); [|constructor].
      destruct (element_by_id "navLinks" d); [|constructor].
      constructor; [by right|]. apply Forall_fmap, Forall_true. intros a. by right. }
  clear Hw. induction Hall as [|r ls Hr Hall IH]; [done|].
  rewrite filter_cons. destruct (decide _) as [Hp|Hp]; [|apply IH].
  apply andb_true_iff in Hp as [_ Hp]. apply String.eqb_eq in Hp.
  destruct Hr; congruence.
Qed.

Section Listening.
Context (d : document) (w : world).
Hypothesis Hls : listeners w = (navbar_listeners d ++ menu_listeners d)%list.

Lemma listening_split (t : event_target) (type : string) :
  listening t type w =
    (listening t type (with_listeners (fun _ => navbar_listeners d) w)
     ++ listening t type (with_listeners (fun _ => menu_listeners d) w))%list.
Proof. unfold listening. rewrite Hls. simpl. by rewrite filter_app, fmap_app. Qed.

Lemma listening_scroll_page :
  listening Window "scroll" w =
    match element_by_id "navbar" d with
    | Some h => [onScroll (Some h)]
    | None => []
    end.
Proof.
  rewrite listening_split. rewrite (listening_navbar d) by done.
  assert (Hm : listening Window "scroll"
                 (with_listeners (fun _ => menu_listeners d) w) = []).
  { unfold listening. simpl. unfold menu_listeners.
    destruct (element_by_id "navToggle" d) as [t|]; [|done].
    destruct (element_by_id "navLinks" d) as [l|]; [|done].
    rewrite filter_cons. simpl. rewrite filter_fmap_pre. simpl.
    by induction (anchors_in l d). }
  rewrite Hm, app_nil_r. by destruct (element_by_id "navbar" d).
Qed.

Lemma listening_click_page (h : nat) :
  listening (Node h) "click" w =
    match element_by_id "navToggle" d, element_by_id "navLinks" d with
    | Some t, Some l =>
        (if decide (h = t) then [toggleClick (Some t) (Some l)] else [])
        ++ (if decide (h ∈ anchors_in l d) then [linkClick (Some t) (Some l)] else [])
    | _, _ => []
    end%list.
Proof.
  rewrite listening_split. rewrite (listening_navbar d) by done.
  assert (Hn : match element_by_id "navbar" d with
               | Some h0 => match Node h with
                            | Window => if String.eqb "scroll" "click"
                                        then [onScroll (Some h0)] else []
                            | Node _ => []
                            end
               | None => []
               end = @nil listener) by by destruct (element_by_id "navbar" d).
  rewrite Hn. simpl.
  destruct (element_by_id "navToggle" d) as [t|] eqn:Et;
    [destruct (element_by_id "navLinks" d) as [l|] eqn:El|].
  - by apply (listening_menu d).
  - unfold listening. simpl. unfold menu_listeners. by rewrite Et, El.
  - unfold listening. simpl. unfold menu_listeners. by rewrite Et.
Qed.

End Listening.

(** X3.  After load the listeners are, in this order: [onScroll] on the
    window for the event [scroll] when the navbar exists; and, when both
    the toggle and the panel exist, the toggle's handler on the toggle and
    the closing handler on every anchor below the panel, for the event
    [click].  So a scroll runs [onScroll] once, a click on an element runs
    the toggle's handler if the element is the toggle and then the closing
    handler if it is an anchor of the panel, and no other event type has a
    listener. *)
Theorem load_listeners (d : document) (y now : Q) :
  let w := load d y now in
  listeners w = (navbar_listeners d ++ menu_listeners d)%list ∧
  listening Window "scroll" w =
    match element_by_id "navbar" d with
    | Some h => [onScroll (Some h)]
    | None => []
    end ∧
  (∀ h, listening (Node h) "click" w =
     match element_by_id "navToggle" d, element_by_id "navLinks" d with
     | Some t, Some l =>
         (if decide (h = t) then [toggleClick (Some t) (Some l)] else [])
         ++ (if decide (h ∈ anchors_in l d) then [linkClick (Some t) (Some l)] else [])
     | _, _ => []
     end%list) ∧
  (∀ t type, type ≠ "scroll" → type ≠ "click" → listening t type w = []) ∧
  (∀ h, h ∈ (match element_by_id "navLinks" d with
             | Some l => anchors_in l d
             | None => []
             end) ↔
        ∃ l e, element_by_id "navLinks" d = Some l ∧ d !! h = Some e ∧
               localName e = "a" ∧ descends d (length d) l h = true).
Proof.
  intros w. unfold w. rewrite load_world.
  set (w' := loaded_page d y now).
  assert (Hls : listeners w' = (navbar_listeners d ++ menu_listeners d)%list) by done.
  split; [done|]. split; [|split; [|split]].
  - by apply listening_scroll_page.
  - intros h. by apply listening_click_page.
  - intros t type Hs Hc. by apply (listening_other d).
  - intros h. destruct (element_by_id "navLinks" d) as [l|].
    + unfold anchors_in. rewrite elem_of_select. unfold anchor. split.
      * intros (e & He & [Ha Hd]%andb_true_iff). apply String.eqb_eq in Ha. eauto 10.
      * intros (l' & e & [= <-] & He & Ha & Hd). exists e. split; [done|].
        apply andb_true_iff. split; [by apply String.eqb_eq | done].
    + split; [by intros ?%elem_of_nil | by intros (? & ? & ? & _)].
Qed.

(** X4.  Loading changes no element except the navbar, whose class list
    gets or loses [scrolled] according to the scroll offset; without a
    navbar the document is untouched. *)
Theorem load_document (d : document) (y now : Q) :
  let w := load d y now in
  length (doc w) = length d ∧
  (∀ h, element_by_id "navbar" d ≠ Some h → doc w !! h = d !! h) ∧
  (∀ h e, element_by_id "navbar" d = Some h → d !! h = Some e →
     doc w !! h = Some (with_classList (scrolled_class y) e)) ∧
  (element_by_id "navbar" d = None → doc w = d).
Proof.
  intros w. unfold w. rewrite load_world. simpl. unfold navbar_at.
  destruct (element_by_id "navbar" d) as [n|]; [|done].
  split; [by rewrite length_alter|]. split; [|split; [|done]].
  - intros h Hne. rewrite list_lookup_alter_ne; [done|]. congruence.
  - intros h e [= ->] He. by rewrite list_lookup_alter_eq, He.
Qed.

(** ** What no handler changes *)

Lemma preserves_run_onScroll (P : world → Prop) (r : ref) :
  (∀ w h e y, P w → doc w !! h = Some e →
     P (with_doc (fun d => <[h := with_classList (scrolled_class y) e]> d) w)) →
  preserves P (run_onScroll r).
Proof.
  intros H. unfold run_onScroll, window_scrollY, classList_toggle.
  apply preserves_bind; [apply preserves_get | intros y].
  apply preserves_bind; [apply preserves_deref | intros he].
  destruct (gt y (Num 60)) eqn:E; apply preserves_modify; intros w h e Hw He.
  - specialize (H w h e 61%Q Hw He). by unfold scrolled_class in H.
  - specialize (H w h e 0%Q Hw He). by unfold scrolled_class in H.
Qed.

(** A property that does not look at the document, the frames, the timers,
    the clock or the exceptions. *)
Lemma stable_wiring (P : world → Prop) :
  (∀ w w', listeners w' = listeners w → observers w' = observers w → P w → P w') →
  (∀ o el w, P w → P (with_observers (alter (with_observed (fun s => s ∖ {[el]})) o) w)) →
  stable P.
Proof.
  intros Hext Hun. split; try (intros; by eapply Hext; [| |eassumption]); [done|].
  intros r. apply preserves_run_onScroll. intros. by eapply Hext; [| |eassumption].
Qed.

(** A property of the document alone. *)
Lemma stable_document (P : world → Prop) :
  (∀ w w', doc w' = doc w → P w → P w') →
  (∀ w h e f, (∀ x, same_markup x (f x)) → P w → doc w !! h = Some e →
     P (with_doc (fun d => <[h := f e]> d) w)) →
  (∀ h w, P w → P (with_doc (fun d => reset_control h <$> d) w)) →
  stable P.
Proof.
  intros Hext Hedit Hreset. split; try (intros; by eapply Hext; [|eassumption]).
  - intros f w h e Hf Hw He. apply Hedit; [|done..]. intros x. by apply same_markup_edit.
  - done.
  - intros r. apply preserves_run_onScroll. intros w h e y Hw He.
    apply (Hedit w h e (with_classList (scrolled_class y))); [|done..].
    intros x. apply same_markup_scrolled.
Qed.

Lemma narrowed_refl (o : IntersectionObserver) : narrowed o o.
Proof. by repeat split. Qed.

Lemma wired_as_refl (w : world) : wired_as w w.
Proof. split; [done|]. apply Forall_Forall2_diag, Forall_true, narrowed_refl. Qed.

Lemma wired_as_stable (w0 : world) : stable (wired_as w0).
Proof.
  apply stable_wiring.
  - intros w w' Hl Ho [H1 H2]. split; [congruence | by rewrite Ho].
  - intros o el w [H1 H2]. split; [done|]. simpl. apply Forall2_alter_r; [done|].
    intros x y _ _ (Hc & Ht & Hm & Hs). repeat split; try done. simpl.
    intros h [Hh _]%elem_of_difference. by apply Hs.
Qed.

Lemma wired_as_run (w : world) (evs : list event) : wired_as w (run w evs).
Proof.
  apply stable_run; [apply wired_as_stable | by intros y w' [? ?] | apply wired_as_refl].
Qed.

Lemma same_markup_doc_reset (d : document) (h : nat) :
  same_markup_doc d (reset_control h <$> d).
Proof.
  split; [by rewrite length_fmap|]. intros k e e' He He'.
  rewrite list_lookup_fmap, He in He'. simplify_eq/=. apply same_markup_reset.
Qed.

Lemma marked_up_as_stable (d0 : document) : stable (marked_up_as d0).
Proof.
  apply stable_document; unfold marked_up_as.
  - by intros w w' ->.
  - intros w h e f Hf Hw He. simpl. eapply same_markup_doc_trans; [done|].
    apply (same_markup_doc_insert _ h e); [done | apply Hf].
  - intros h w Hw. simpl. eapply same_markup_doc_trans; [done|].
    apply same_markup_doc_reset.
Qed.

Lemma marked_up_as_run (w : world) (evs : list event) : marked_up_as (doc w) (run w evs).
Proof.
  apply stable_run; [apply marked_up_as_stable | done | apply same_markup_doc_refl].
Qed.

(** X14.  Whatever happens on the page, the script registers and removes no
    listener and creates no observer: the listeners stay as they are, and
    every observer keeps its callback, threshold and root margin, while the
    set of elements it observes can only shrink. *)
Theorem script_never_rewires (w : world) (evs : list event) :
  listeners (run w evs) = listeners w ∧
  (∀ t type, listening t type (run w evs) = listening t type w) ∧
  length (observers (run w evs)) = length (observers w) ∧
  (∀ i o o', observers w !! i = Some o → observers (run w evs) !! i = Some o' →
     callback o' = callback o ∧ threshold o' = threshold o ∧
     rootMargin o' = rootMargin o ∧ observed o' ⊆ observed o).
Proof.
  destruct (wired_as_run w evs) as [Hl Ho].
  split; [done|]. split; [|split].
  - intros t type. by apply listening_listeners.
  - symmetry. by eapply Forall2_length.
  - intros i o o' Hi Hi'. apply (Forall2_lookup_lr _ _ _ i o o' Ho Hi Hi').
Qed.


(** ** Closing the menu *)

Lemma without_class (c c' : string) (e : element) :
  c' ∈ classList (without c e) ↔ c' ∈ classList e ∧ c' ≠ c.
Proof. unfold without. simpl. by rewrite elem_of_difference, not_elem_of_singleton. Qed.

(** Two elements that differ in their class lists only. *)
Lemma element_classList_eq (e : element) (f g : gset string → gset string) :
  (∀ c, c ∈ f (classList e) ↔ c ∈ g (classList e)) →
  with_classList f e = with_classList g e.
Proof.
  intros H. unfold with_classList. f_equal. by apply set_eq.
Qed.

Lemma with_classList_id (e : element) (f : gset string → gset string) :
  (∀ c, c ∈ f (classList e) ↔ c ∈ classList e) → with_classList f e = e.
Proof.
  intros H. transitivity (with_classList (fun s => s) e).
  - by apply element_classList_eq.
  - by destruct e.
Qed.

Lemma without_twice (c : string) (e : element) : without c (without c e) = without c e.
Proof.
  apply (with_classList_id (without c e)). intros x.
  rewrite elem_of_difference, not_elem_of_singleton, without_class. tauto.
Qed.

Lemma without_comm (c c' : string) (e : element) :
  without c (without c' e) = without c' (without c e).
Proof.
  unfold without at 1 3. unfold with_classList. simpl. f_equal. apply set_eq. intros x.
  rewrite !elem_of_difference, !not_elem_of_singleton. tauto.
Qed.

Lemma without_absent (c : string) (e : element) : c ∉ classList e → without c e = e.
Proof.
  intros H. apply with_classList_id. intros x.
  rewrite elem_of_difference, not_elem_of_singleton. split; [tauto|].
  intros Hx. split; [done|]. by intros ->.
Qed.

Lemma without_toggled (c : string) (e : element) :
  c ∉ classList e → without c (toggled c e) = e.
Proof.
  intros H. unfold without, toggled, has_class. rewrite bool_decide_eq_false_2 by done.
  apply (with_classList_id e (fun s => (s ∪ {[c]}) ∖ {[c]})). intros x.
  rewrite elem_of_difference, not_elem_of_singleton, elem_of_union, elem_of_singleton.
  split; [tauto|]. intros Hx. split; [by left|]. by intros ->.
Qed.

Lemma without_toggled_other (c c' : string) (e : element) :
  c ≠ c' → without c (toggled c' e) = toggled c' (without c e).
Proof.
  intros Hne. unfold without, toggled, has_class, with_classList. simpl.
  assert (Hd : bool_decide (c' ∈ classList e ∖ {[c]}) = bool_decide (c' ∈ classList e)).
  { apply bool_decide_ext. rewrite elem_of_difference, not_elem_of_singleton.
    split; [tauto|]. intros Hx. split; [done|]. intros Heq. by apply Hne. }
  rewrite Hd. f_equal. apply set_eq. intros x.
  destruct (bool_decide (c' ∈ classList e)).
  all: rewrite ?elem_of_difference, ?elem_of_union, ?elem_of_difference, ?elem_of_singleton.
  - tauto.
  - split; [tauto|]. intros [[? ?]|Heq]; [tauto|]. split; [by right|].
    intros Hc. apply Hne. congruence.
Qed.

Lemma closed_menu_lookup (toggle links h : nat) (d : document) :
  closed_menu toggle links d !! h =
    (fun e => (if decide (links = h) then without "open" else fun x => x)
                ((if decide (toggle = h) then without "active" else fun x => x) e))
      <$> d !! h.
Proof.
  unfold closed_menu.
  destruct (decide (links = h)) as [->|Hl], (decide (toggle = h)) as [->|Ht];
    repeat first [rewrite list_lookup_alter_eq | rewrite list_lookup_alter_ne by done];
    by destruct (d !! h).
Qed.

Lemma closed_menu_twice (toggle links : nat) (d : document) :
  closed_menu toggle links (closed_menu toggle links d) = closed_menu toggle links d.
Proof.
  apply list_eq. intros h. rewrite !closed_menu_lookup.
  destruct (d !! h) as [e|]; [|done]. simpl. f_equal.
  destruct (decide (links = h)), (decide (toggle = h)); try done.
  - by rewrite (without_comm "active" "open"), !without_twice.
  - apply without_twice.
  - apply without_twice.
Qed.

Lemma closed_menu_closed (toggle links : nat) (d : document) :
  (∀ e, d !! toggle = Some e → "active" ∉ classList e) →
  (∀ e, d !! links = Some e → "open" ∉ classList e) →
  closed_menu toggle links d = d.
Proof.
  intros Ht Hl. apply list_eq. intros h. rewrite closed_menu_lookup.
  destruct (d !! h) as [e|] eqn:E; [|done]. simpl. f_equal.
  destruct (decide (links = h)) as [->|], (decide (toggle = h)) as [->|]; try done.
  - rewrite (without_absent "active") by auto. apply without_absent. auto.
  - apply without_absent. auto.
  - apply without_absent. auto.
Qed.

(** Closing undoes the toggle's handler on a closed menu. *)
Lemma closed_menu_toggled (toggle links : nat) (d : document) :
  (∀ e, d !! toggle = Some e → "active" ∉ classList e) →
  (∀ e, d !! links = Some e → "open" ∉ classList e) →
  closed_menu toggle links
    (alter (toggled "open") links (alter (toggled "active") toggle d)) = d.
Proof.
  intros Ht Hl. apply list_eq. intros h. rewrite closed_menu_lookup.
  destruct (decide (links = h)) as [->|Hl'], (decide (toggle = h)) as [->|Ht'];
    repeat first [rewrite list_lookup_alter_eq | rewrite list_lookup_alter_ne by done];
    destruct (d !! h) as [e|] eqn:E; try done; simpl; f_equal.
  - rewrite without_toggled_other by done. rewrite (without_toggled "active") by auto.
    apply without_toggled. auto.
  - apply without_toggled. auto.
  - apply without_toggled. auto.
Qed.

Lemma run_linkClick_live (w : world) (toggle links : nat) :
  is_Some (doc w !! toggle) → is_Some (doc w !! links) →
  run_linkClick (Some toggle) (Some links) w =
    Returned tt (with_doc (closed_menu toggle links) w).
Proof.
  intros [te Hte] Hl. unfold run_linkClick, classList_remove.
  rewrite (bind_returned _ _ _ _ _ (modify_live _ _ _ _ Hte)).
  assert (is_Some (<[toggle := with_classList (fun s => s ∖ {["active"]}) te]> (doc w)
                     !! links)) as [le Hle].
  { apply lookup_lt_is_Some. rewrite length_insert. by apply lookup_lt_is_Some. }
  rewrite (modify_live _ links le) by done. f_equal.
  unfold with_doc. simpl. f_equal. unfold closed_menu.
  rewrite (insert_alter_live _ _ le) by done. f_equal.
  by apply insert_alter_live.
Qed.

Lemma invoke_linkClick (w : world) (toggle links : nat) :
  is_Some (doc w !! toggle) → is_Some (doc w !! links) →
  invoke (run_listener (linkClick (Some toggle) (Some links))) w =
    with_doc (closed_menu toggle links) w.
Proof. intros Ht Hl. unfold invoke. simpl. by rewrite run_linkClick_live. Qed.

Lemma invoke_toggleClick (w : world) (toggle links : nat) :
  is_Some (doc w !! toggle) → is_Some (doc w !! links) →
  invoke (run_listener (toggleClick (Some toggle) (Some links))) w =
    with_doc (fun d => alter (toggled "open") links (alter (toggled "active") toggle d)) w.
Proof. intros Ht Hl. unfold invoke. simpl. by rewrite run_toggleClick_live. Qed.

Lemma closed_menu_shows (toggle links : nat) (w : world) :
  ¬ shows "active" toggle (with_doc (closed_menu toggle links) w) ∧
  ¬ shows "open" links (with_doc (closed_menu toggle links) w).
Proof.
  unfold shows. simpl. split; intros (e & He & Hc); rewrite closed_menu_lookup in He;
    destruct (doc w !! _) as [x|]; simplify_eq/=.
  - destruct (decide (toggle = toggle)) as [_|]; [|done].
    destruct (decide (links = toggle)).
    + apply without_class in Hc as [Hc _]. by apply without_class in Hc as [_ ?].
    + by apply without_class in Hc as [_ ?].
  - destruct (decide (links = links)) as [_|]; [|done].
    by apply without_class in Hc as [_ ?].
Qed.

(** X5.  From any state of the page in which the toggle and the panel
    exist, the handler of a panel link leaves the toggle without [active]
    and the panel without [open]; running it again changes nothing; on a
    closed menu it changes nothing, and it undoes the toggle's handler; it
    touches no other element and raises nothing. *)
Theorem link_click_closes (w : world) (toggle links : nat) :
  is_Some (doc w !! toggle) →
  is_Some (doc w !! links) →
  let close := invoke (run_listener (linkClick (Some toggle) (Some links))) in
  let click := invoke (run_listener (toggleClick (Some toggle) (Some links))) in
  ¬ shows "active" toggle (close w) ∧
  ¬ shows "open" links (close w) ∧
  close (close w) = close w ∧
  (¬ shows "active" toggle w → ¬ shows "open" links w →
   close w = w ∧ close (click w) = w) ∧
  (∀ h, h ≠ toggle → h ≠ links → doc (close w) !! h = doc w !! h) ∧
  (∀ c h, c ≠ "active" → c ≠ "open" → shows c h (close w) ↔ shows c h w) ∧
  uncaught (close w) = uncaught w.
Proof.
  intros Ht Hl close click.
  assert (Hc : close w = with_doc (closed_menu toggle links) w)
    by by apply invoke_linkClick.
  assert (Hlive : ∀ (f : document → document) h,
            (∀ d, length (f d) = length d) →
            is_Some (doc w !! h) → is_Some (doc (with_doc f w) !! h)).
  { intros f h Hf Hh. simpl. apply lookup_lt_is_Some. rewrite Hf.
    by apply lookup_lt_is_Some. }
  assert (Hlen : ∀ d, length (closed_menu toggle links d) = length d).
  { intros d. unfold closed_menu. by rewrite !length_alter. }
  destruct (closed_menu_shows toggle links w) as [Ha Ho].
  rewrite Hc. split; [done|]. split; [done|]. split; [|split; [|split; [|split]]].
  - unfold close. rewrite invoke_linkClick by (apply Hlive; done).
    destruct w. unfold with_doc. simpl. f_equal. apply closed_menu_twice.
  - intros Hna Hno.
    assert (Ht0 : ∀ e, doc w !! toggle = Some e → "active" ∉ classList e).
    { intros e He Hin. apply Hna. by exists e. }
    assert (Hl0 : ∀ e, doc w !! links = Some e → "open" ∉ classList e).
    { intros e He Hin. apply Hno. by exists e. }
    split.
    + destruct w. unfold with_doc. simpl in *. f_equal. by apply closed_menu_closed.
    + unfold click. rewrite invoke_toggleClick by done.
      unfold close. rewrite invoke_linkClick.
      * destruct w. unfold with_doc. simpl in *. f_equal. by apply closed_menu_toggled.
      * apply Hlive; [|done]. intros d. by rewrite !length_alter.
      * apply Hlive; [|done]. intros d. by rewrite !length_alter.
  - intros h Hht Hhl. simpl. rewrite closed_menu_lookup.
    rewrite !decide_False by done. by destruct (doc w !! h).
  - intros c h Hca Hco. unfold shows. simpl. rewrite closed_menu_lookup.
    destruct (doc w !! h) as [e|]; simpl; [|by split; intros (? & ? & _)].
    assert (Hin : c ∈ classList
              ((if decide (links = h) then without "open" else fun x => x)
                 ((if decide (toggle = h) then without "active" else fun x => x) e))
            ↔ c ∈ classList e).
    { destruct (decide (links = h)), (decide (toggle = h));
        rewrite ?without_class; tauto. }
    split.
    + intros (x & [= <-] & Hx). exists e. split; [done|]. by apply Hin.
    + intros (x & [= <-] & Hx). eexists. split; [done|]. by apply Hin.
  - done.
Qed.

(** ** The loaded page, later *)

Lemma loaded_live (d : document) (y now : Q) (evs : list event) (h : nat) :
  is_Some (d !! h) → is_Some (doc (run (load d y now) evs) !! h).
Proof.
  intros Hh. apply lookup_lt_is_Some.
  destruct (marked_up_as_run (load d y now) evs) as [-> _].
  rewrite load_world. simpl. destruct (same_markup_navbar_at d y) as [-> _].
  by apply lookup_lt_is_Some.
Qed.

Lemma loaded_listeners (d : document) (y now : Q) (evs : list event) :
  listeners (run (load d y now) evs) = (navbar_listeners d ++ menu_listeners d)%list.
Proof. destruct (wired_as_run (load d y now) evs) as [-> _]. by rewrite load_world. Qed.


(** ** The counter before its start and below zero *)

Section Range.
Local Open Scope Q_scope.

Lemma inject_Z_Num (a b : Z) : Num (inject_Z a) = Num (inject_Z b) → a = b.
Proof. by intros [= ->]. Qed.

Lemma written_anti (n : Z) (s t1 t2 : Q) :
  (n <= 0)%Z → t1 <= t2 →
  ∃ a b : Z, written (Num (inject_Z n)) s t1 = Num (inject_Z a) ∧
             written (Num (inject_Z n)) s t2 = Num (inject_Z b) ∧ (b <= a)%Z.
Proof.
  intros Hn Ht. rewrite !written_Num. eexists _, _. split; [done|]. split; [done|].
  apply Qfloor_resp_le. apply Qplus_le_l.
  assert (Hc : power (1 - ratio (t2 - s)) 3 <= power (1 - ratio (t1 - s)) 3).
  { apply cube_le. assert (ratio (t1 - s) <= ratio (t2 - s)) by (apply ratio_mono; lra).
    lra. }
  assert (Hz : inject_Z n <= 0) by (change 0 with (inject_Z 0); by rewrite <- Zle_Qle).
  assert (H0 : 0 <= (power (1 - ratio (t1 - s)) 3 - power (1 - ratio (t2 - s)) 3)
                    * - inject_Z n) by (apply Qmult_le_0_compat; lra).
  lra.
Qed.

(** From the start on, the number written lies between 0 and the target. *)
Lemma written_range (n : Z) (s t : Q) :
  s <= t →
  ∃ a : Z, written (Num (inject_Z n)) s t = Num (inject_Z a) ∧
           ((0 <= n)%Z → (0 <= a <= n)%Z) ∧ ((n <= 0)%Z → (n <= a <= 0)%Z).
Proof.
  intros Ht.
  assert (H0 : written (Num (inject_Z n)) s s = Num (inject_Z 0))
    by by apply written_start.
  assert (H1 : written (Num (inject_Z n)) s (t + 2000) = Num (inject_Z n)).
  { rewrite written_done, Math_round_integer; [done|]. lra. }
  assert (Hm : t <= t + 2000) by lra.
  assert (Hw : ∃ a : Z, written (Num (inject_Z n)) s t = Num (inject_Z a)).
  { rewrite written_Num. eauto. }
  destruct Hw as [a Ha]. exists a. split; [done|]. split; intros Hn.
  - destruct (written_mono n s s t Hn Ht) as (x & y & Hx & Hy & Hxy).
    destruct (written_mono n s t _ Hn Hm) as (x' & y' & Hx' & Hy' & Hxy').
    rewrite H0 in Hx. rewrite Ha in Hy, Hx'. rewrite H1 in Hy'.
    apply inject_Z_Num in Hx, Hy, Hx', Hy'. lia.
  - destruct (written_anti n s s t Hn Ht) as (x & y & Hx & Hy & Hxy).
    destruct (written_anti n s t _ Hn Hm) as (x' & y' & Hx' & Hy' & Hxy').
    rewrite H0 in Hx. rewrite Ha in Hy, Hx'. rewrite H1 in Hy'.
    apply inject_Z_Num in Hx, Hy, Hx', Hy'. lia.
Qed.

Lemma ratio_early (x : Q) : x < 0 → ratio x == x / 2000 ∧ ratio x < 0.
Proof.
  intros H. destruct (ratio_running x) as [Hr _]; [lra|]. split; [done|].
  rewrite Hr. apply Qlt_shift_div_r; lra.
Qed.

(** Before the start the progress ratio is negative, and so is what is
    written for a positive target: the ratio is not clamped from below. *)
Lemma written_early (n : Z) (s t : Q) :
  (0 <= n)%Z → t < s →
  ∃ a : Z, written (Num (inject_Z n)) s t = Num (inject_Z a) ∧ (a <= 0)%Z ∧
           (t <= s - 2000 → (a <= -7 * n)%Z).
Proof.
  intros Hn Ht. rewrite written_Num. eexists. split; [done|].
  destruct (ratio_early (t - s)) as [Hr Hneg]; [lra|].
  assert (Hz : 0 <= inject_Z n) by (change 0 with (inject_Z 0); by rewrite <- Zle_Qle).
  set (r := ratio (t - s)) in *.
  assert (Hc1 : power 1 3 <= power (1 - r) 3) by (apply cube_le; lra).
  assert (H1 : power 1 3 == 1) by (simpl; ring).
  split.
  - rewrite <- (Qfloor_half 0). apply Qfloor_resp_le. apply Qplus_le_l.
    assert (H0 : 0 <= (power (1 - r) 3 - 1) * inject_Z n)
      by (apply Qmult_le_0_compat; lra).
    change (inject_Z 0) with 0. lra.
  - intros Hearly. rewrite <- (Qfloor_half (-7 * n)). apply Qfloor_resp_le.
    apply Qplus_le_l.
    assert (Hr1 : r <= -1).
    { rewrite Hr. apply Qle_shift_div_r; lra. }
    assert (Hc8 : power 2 3 <= power (1 - r) 3) by (apply cube_le; lra).
    assert (H8 : power 2 3 == 8) by (simpl; ring).
    assert (H0 : 0 <= (power (1 - r) 3 - 8) * inject_Z n)
      by (apply Qmult_le_0_compat; lra).
    rewrite inject_Z_mult. change (inject_Z (-7)) with (-7). lra.
Qed.

End Range.

Section RangeFrames.
Local Open Scope Q_scope.
Context (el : nat) (n : Z) (start : Q).

(** X10.  While the counter of an element with integer target [n] is
    running, a frame at or after the start writes an integer between 0 and
    [n]: the counter never overshoots its target and never goes below 0,
    for a target that is positive, and the mirror image for a negative one. *)
Theorem counter_within_range (w : world) (t : Q) :
  animating el (Num (inject_Z n)) start w →
  start <= t →
  ∃ a : Z, text_of el (frame t w) = Some (NumberText (Num (inject_Z a))) ∧
           ((0 <= n)%Z → (0 <= a <= n)%Z) ∧ ((n <= 0)%Z → (n <= a <= 0)%Z).
Proof.
  intros Hw Ht. destruct (frame_animating el _ start w t Hw) as (Htx & _).
  destruct (written_range n start t Ht) as (a & Ha & Hr). exists a.
  rewrite Htx, Ha. done.
Qed.


End RangeFrames.


(** ** The observer callbacks in closed form *)

Lemma narrowed_trans (o1 o2 o3 : IntersectionObserver) :
  narrowed o1 o2 → narrowed o2 o3 → narrowed o1 o3.
Proof.
  intros (H1 & H2 & H3 & H4) (H5 & H6 & H7 & H8).
  repeat split; try congruence. intros h Hh. by apply H4, H8.
Qed.

Lemma narrowed_unobserve (os : list IntersectionObserver) (observer el : nat) :
  Forall2 narrowed os (alter (with_observed (fun s => s ∖ {[el]})) observer os).
Proof.
  apply Forall2_alter_r; [apply Forall_Forall2_diag, Forall_true, narrowed_refl|].
  intros x y _ _ (Hc & Ht & Hm & Hs). repeat split; try done. simpl.
  intros h [Hh _]%elem_of_difference. by apply Hs.
Qed.

Lemma Forall2_narrowed_trans (l1 l2 l3 : list IntersectionObserver) :
  Forall2 narrowed l1 l2 → Forall2 narrowed l2 l3 → Forall2 narrowed l1 l3.
Proof. apply Forall2_trans. intros x y z. apply narrowed_trans. Qed.

Lemma unobserved_unobserve (observer el : nat) (w : world) :
  unobserved observer el
    (with_observers (alter (with_observed (fun s => s ∖ {[el]})) observer) w).
Proof.
  intros o Ho. simpl in Ho. rewrite list_lookup_alter_eq in Ho.
  destruct (observers w !! observer); simplify_eq/=.
  intros [_ Hn]%elem_of_difference. apply Hn. by apply elem_of_singleton.
Qed.

Lemma intersects_cons (h : nat) (entry : IntersectionObserverEntry)
    (entries : list IntersectionObserverEntry) :
  intersects h (entry :: entries) =
    ((target entry =? h)%nat && isIntersecting entry) || intersects h entries.
Proof. done. Qed.

Lemma intersects_spec (h : nat) (entries : list IntersectionObserverEntry) :
  intersects h entries = true ↔
  ∃ entry, entry ∈ entries ∧ target entry = h ∧ isIntersecting entry = true.
Proof.
  unfold intersects. rewrite existsb_exists. split.
  - intros (x & Hin & [Ht Hi]%andb_true_iff). exists x.
    split; [by apply list_elem_of_In|]. split; [by apply Nat.eqb_eq | done].
  - intros (x & Hin & Ht & Hi). exists x. split; [by apply list_elem_of_In|].
    apply andb_true_iff. split; [by apply Nat.eqb_eq | done].
Qed.

Lemma animateCounter_returns (w : world) (el : nat) :
  is_Some (doc w !! el) →
  animateCounter (Some el) w =
    Returned tt
      (with_animationFrames
         (fun fs => fs ++ [update (Some el) (counter_target (doc w) el) (Num (clock w))])%list
         w).
Proof.
  intros [e He]. unfold animateCounter, getAttribute, counter_target.
  erewrite bind_returned;
    [|erewrite bind_returned; [reflexivity | by apply deref_live]].
  by rewrite He.
Qed.

Section CounterEntries.
Context (observer : nat).

Lemma run_counterEntries_cons (entry : IntersectionObserverEntry)
    (entries : list IntersectionObserverEntry) :
  run_counterEntries observer (entry :: entries) =
    bind (if isIntersecting entry
          then bind (animateCounter (Some (target entry)))
                 (fun _ => unobserve observer (target entry))
          else ret tt)
      (fun _ => run_counterEntries observer entries).
Proof. done. Qed.

Lemma run_revealEntries_cons (entry : IntersectionObserverEntry)
    (entries : list IntersectionObserverEntry) :
  run_revealEntries observer (entry :: entries) =
    bind (if isIntersecting entry
          then bind (classList_add (Some (target entry)) "visible")
                 (fun _ => unobserve observer (target entry))
          else ret tt)
      (fun _ => run_revealEntries observer entries).
Proof. done. Qed.

Lemma run_counterEntries_returns (entries : list IntersectionObserverEntry) (w : world) :
  (∀ entry, entry ∈ entries → is_Some (doc w !! target entry)) →
  ∃ w', run_counterEntries observer entries w = Returned tt w' ∧
    doc w' = doc w ∧ scrollY w' = scrollY w ∧ clock w' = clock w ∧
    listeners w' = listeners w ∧ timers w' = timers w ∧ uncaught w' = uncaught w ∧
    animationFrames w' = (animationFrames w ++ started (doc w) (clock w) entries)%list ∧
    Forall2 narrowed (observers w) (observers w') ∧
    (∀ el, intersects el entries = true → unobserved observer el w').
Proof.
  revert w. induction entries as [|entry entries IH]; intros w Hlive.
  { exists w. repeat split; try done.
    - unfold started. simpl. by rewrite app_nil_r.
    - apply Forall_Forall2_diag, Forall_true, narrowed_refl. }
  rewrite run_counterEntries_cons. destruct (isIntersecting entry) eqn:Ei.
  - set (w1 := with_observers
                 (alter (with_observed (fun s => s ∖ {[target entry]})) observer)
                 (with_animationFrames
                    (fun fs => fs ++ [update (Some (target entry))
                                        (counter_target (doc w) (target entry))
                                        (Num (clock w))])%list w)).
    assert (H1 : bind (animateCounter (Some (target entry)))
                   (fun _ => unobserve observer (target entry)) w = Returned tt w1).
    { erewrite bind_returned; [|apply animateCounter_returns, Hlive; left]. done. }
    rewrite (bind_returned _ _ _ _ _ H1).
    destruct (IH w1) as (w' & Hr & Hd & Hy & Hc & Hl & Ht & Hu & Hf & Ho & Hun).
    { intros x Hx. simpl. apply Hlive. by right. }
    exists w'. split; [done|]. simpl in Hd, Hy, Hc, Hl, Ht, Hu, Hf, Ho.
    repeat split; try done.
    + rewrite Hf. unfold started. rewrite filter_cons, Ei. simpl.
      by rewrite <- app_assoc.
    + eapply Forall2_narrowed_trans; [apply narrowed_unobserve | exact Ho].
    + intros el. rewrite intersects_cons.
      intros [[Heq%Nat.eqb_eq _]%andb_true_iff | Hin]%orb_true_iff; [|by apply Hun].
      subst el.
      pose proof (stable_observer_callback _ (unobserved_stable observer (target entry))
                    counterEntries observer entries w1) as Hp.
      simpl in Hp. rewrite Hr in Hp. apply Hp. apply unobserved_unobserve.
  - erewrite bind_returned; [|reflexivity].
    destruct (IH w) as (w' & Hr & Hd & Hy & Hc & Hl & Ht & Hu & Hf & Ho & Hun).
    { intros x Hx. apply Hlive. by right. }
    exists w'. split; [done|]. repeat split; try done.
    + rewrite Hf. unfold started. rewrite filter_cons, Ei. simpl.
      destruct (decide (false = true)); done.
    + intros el. rewrite intersects_cons, Ei, andb_false_r. simpl. apply Hun.
Qed.

Lemma revealed_twice (e : element) : revealed (revealed e) = revealed e.
Proof.
  apply (with_classList_id (revealed e)). intros c. unfold revealed. simpl.
  rewrite !elem_of_union. tauto.
Qed.

Lemma run_revealEntries_returns (entries : list IntersectionObserverEntry) (w : world) :
  (∀ entry, entry ∈ entries → is_Some (doc w !! target entry)) →
  ∃ w', run_revealEntries observer entries w = Returned tt w' ∧
    (∀ h, doc w' !! h =
            (fun e => if intersects h entries then revealed e else e) <$> doc w !! h) ∧
    scrollY w' = scrollY w ∧ clock w' = clock w ∧
    listeners w' = listeners w ∧ timers w' = timers w ∧ uncaught w' = uncaught w ∧
    animationFrames w' = animationFrames w ∧
    Forall2 narrowed (observers w) (observers w') ∧
    (∀ el, intersects el entries = true → unobserved observer el w').
Proof.
  revert w. induction entries as [|entry entries IH]; intros w Hlive.
  { exists w. repeat split; try done.
    - intros h. simpl. by destruct (doc w !! h).
    - apply Forall_Forall2_diag, Forall_true, narrowed_refl. }
  rewrite run_revealEntries_cons. destruct (isIntersecting entry) eqn:Ei.
  - destruct (Hlive entry) as [e He]; [left|].
    set (w1 := with_observers
                 (alter (with_observed (fun s => s ∖ {[target entry]})) observer)
                 (with_doc (fun d => <[target entry := revealed e]> d) w)).
    assert (H1 : bind (classList_add (Some (target entry)) "visible")
                   (fun _ => unobserve observer (target entry)) w = Returned tt w1).
    { unfold classList_add. erewrite bind_returned; [|by apply modify_live]. done. }
    rewrite (bind_returned _ _ _ _ _ H1).
    destruct (IH w1) as (w' & Hr & Hd & Hy & Hc & Hl & Ht & Hu & Hf & Ho & Hun).
    { intros x Hx. simpl. apply lookup_lt_is_Some. rewrite length_insert.
      apply lookup_lt_is_Some, Hlive. by right. }
    exists w'. split; [done|]. simpl in Hd, Hy, Hc, Hl, Ht, Hu, Hf, Ho.
    repeat split; try done.
    + intros h. rewrite Hd, intersects_cons, Ei, andb_true_r.
      destruct (decide (target entry = h)) as [<-|Hne].
      * rewrite list_lookup_insert_eq by by eapply lookup_lt_Some.
        rewrite Nat.eqb_refl, He. simpl. f_equal.
        destruct (intersects _ _); [apply revealed_twice | done].
      * rewrite list_lookup_insert_ne by done.
        by assert ((target entry =? h)%nat = false) as -> by by apply Nat.eqb_neq.
    + eapply Forall2_narrowed_trans; [apply narrowed_unobserve | exact Ho].
    + intros el. rewrite intersects_cons.
      intros [[Heq%Nat.eqb_eq _]%andb_true_iff | Hin]%orb_true_iff; [|by apply Hun].
      subst el.
      pose proof (stable_observer_callback _ (unobserved_stable observer (target entry))
                    revealEntries observer entries w1) as Hp.
      simpl in Hp. rewrite Hr in Hp. apply Hp. apply unobserved_unobserve.
  - erewrite bind_returned; [|reflexivity].
    destruct (IH w) as (w' & Hr & Hd & Hy & Hc & Hl & Ht & Hu & Hf & Ho & Hun).
    { intros x Hx. apply Hlive. by right. }
    exists w'. split; [done|]. repeat split; try done.
    + intros h. by rewrite Hd, intersects_cons, Ei, andb_false_r.
    + intros el. rewrite intersects_cons, Ei, andb_false_r. simpl. apply Hun.
Qed.

End CounterEntries.

(** An observer callback requests frames only for the targets of its
    entries. *)
Lemma observer_callback_frames (cb : observer_callback) (observer el : nat)
    (entries : list IntersectionObserverEntry) (w : world) :
  (∀ entry, entry ∈ entries → target entry ≠ el) →
  ∃ extra, animationFrames (invoke (run_observer_callback cb observer entries) w) =
             (animationFrames w ++ extra)%list ∧
           Forall (fun cb => ¬ for_element el cb) extra.
Proof.
  intros Hne.
  set (P := fun w' : world =>
    ∃ extra, animationFrames w' = (animationFrames w ++ extra)%list ∧
             Forall (fun cb => ¬ for_element el cb) extra).
  assert (HP : preserves P (run_observer_callback cb observer entries)).
  { destruct cb; simpl; apply preserves_forEach_in; intros entry Hin;
      (destruct (isIntersecting entry); [|apply preserves_ret]);
      (apply preserves_bind; [|intros _; by apply preserves_put]).
    - by apply preserves_modify_at.
    - unfold animateCounter, getAttribute, performance_now.
      apply preserves_bind; [|intros attr].
      + apply preserves_bind; [apply preserves_deref | intros ?; apply preserves_ret].
      + apply preserves_bind; [apply preserves_get | intros ?].
        apply preserves_put. intros w' (extra & He & Hf). unfold P. simpl.
        exists (extra ++ [update (Some (target entry))
                            (parseInt (ToString attr)) a])%list.
        split; [by rewrite He, app_assoc|]. apply Forall_app. split; [done|].
        constructor; [|done]. simpl. intros [= Heq]. by apply (Hne entry). }
  change (P (invoke (run_observer_callback cb observer entries) w)).
  apply preserves_invoke; [done | done |]. exists []. by rewrite app_nil_r.
Qed.

Lemma received_live (w : world) (o : IntersectionObserver)
    (entries : list IntersectionObserverEntry) :
  (∀ h, h ∈ observed o → is_Some (doc w !! h)) →
  ∀ entry, entry ∈ received o entries → is_Some (doc w !! target entry).
Proof. intros Hlive entry [Hobs _]%list_elem_of_filter. by apply Hlive. Qed.

(** X7.  Entries that are not intersecting (an element leaves the viewport,
    or has not reached the threshold) are ignored by both callbacks: when a
    batch holds no intersecting entry for an observed element, the page is
    exactly as before, and every element is still observed. *)
Theorem non_intersecting_ignored (w : world) (observer : nat)
    (entries : list IntersectionObserverEntry) :
  (∀ o entry, observers w !! observer = Some o → entry ∈ received o entries →
     isIntersecting entry = false) →
  step w (Intersect observer entries) = w.
Proof.
  intros H. simpl. unfold deliver. destruct (observers w !! observer) as [o|]; [|done].
  specialize (H o).
  assert (Hr : ∀ cb, run_observer_callback cb observer (received o entries) w
                     = Returned tt w).
  { intros cb. induction (received o entries) as [|entry l IH]; [by destruct cb|].
    assert (Hi : isIntersecting entry = false) by (apply H; [done | left]).
    assert (IH' : run_observer_callback cb observer l w = Returned tt w).
    { apply IH. intros x ? Hx. apply H; [done | by right]. }
    destruct cb; simpl in *.
    - unfold run_revealEntries. simpl. rewrite Hi.
      erewrite bind_returned; [|reflexivity]. apply IH'.
    - unfold run_counterEntries. simpl. rewrite Hi.
      erewrite bind_returned; [|reflexivity]. apply IH'. }
  unfold invoke. by rewrite Hr.
Qed.

(** X8.  When the counter callback receives a batch, it requests one frame
    callback per intersecting entry, for the entry's target, with the target
    number parsed from the element's [data-target] and the current time as
    start; it changes no element and raises nothing.  An element with an
    intersecting entry is unobserved from then on, whatever happens on the
    page, and a later delivery to the same observer requests no frame for
    it: a counter is started at most once. *)
Theorem counter_starts_once (w : world) (observer : nat) (o : IntersectionObserver)
    (entries : list IntersectionObserverEntry) :
  observers w !! observer = Some o →
  callback o = counterEntries →
  (∀ h, h ∈ observed o → is_Some (doc w !! h)) →
  let w1 := step w (Intersect observer entries) in
  animationFrames w1 =
    (animationFrames w ++ started (doc w) (clock w) (received o entries))%list ∧
  doc w1 = doc w ∧ timers w1 = timers w ∧ listeners w1 = listeners w ∧
  uncaught w1 = uncaught w ∧
  (∀ el evs later, intersects el (received o entries) = true →
     let w' := run w1 evs in
     unobserved observer el w' ∧
     ∃ extra, animationFrames (step w' (Intersect observer later)) =
                (animationFrames w' ++ extra)%list ∧
              Forall (fun cb => ¬ for_element el cb) extra).
Proof.
  intros Ho Hcb Hlive w1.
  destruct (run_counterEntries_returns observer (received o entries) w)
    as (w' & Hr & Hd & Hy & Hc & Hl & Ht & Hu & Hf & Hobs & Hun).
  { by apply received_live. }
  assert (Hw1 : w1 = w').
  { unfold w1. simpl. unfold deliver. rewrite Ho, Hcb. simpl. unfold invoke. by rewrite Hr. }
  rewrite Hw1. do 5 (split; [done|]).
  intros el evs later Hin w2.
  assert (Hu' : unobserved observer el w2).
  { apply stable_run; [apply unobserved_stable | done | by apply Hun]. }
  split; [done|].
  simpl. unfold deliver. destruct (observers w2 !! observer) as [o'|] eqn:E.
  - apply observer_callback_frames.
    intros entry [Hobs' _]%list_elem_of_filter <-. by apply (Hu' o').
  - exists []. by rewrite app_nil_r.
Qed.

(** X19.  When the reveal callback receives a batch, the elements with an
    intersecting entry get the class [visible] and every other element is
    left as it is; nothing else on the page changes (no frame, no timer, no
    listener, no exception), and the elements revealed are unobserved. *)
Theorem reveal_only_adds_visible (w : world) (observer : nat) (o : IntersectionObserver)
    (entries : list IntersectionObserverEntry) :
  observers w !! observer = Some o →
  callback o = revealEntries →
  (∀ h, h ∈ observed o → is_Some (doc w !! h)) →
  let w1 := step w (Intersect observer entries) in
  (∀ h, doc w1 !! h =
          (fun e => if intersects h (received o entries) then revealed e else e)
            <$> doc w !! h) ∧
  animationFrames w1 = animationFrames w ∧ timers w1 = timers w ∧
  listeners w1 = listeners w ∧ uncaught w1 = uncaught w ∧
  (∀ el, intersects el (received o entries) = true →
     shows "visible" el w1 ∧ unobserved observer el w1) ∧
  (∀ c h, c ≠ "visible" → shows c h w1 ↔ shows c h w).
Proof.
  intros Ho Hcb Hlive w1.
  destruct (run_revealEntries_returns observer (received o entries) w)
    as (w' & Hr & Hd & Hy & Hc & Hl & Ht & Hu & Hf & Hobs & Hun).
  { by apply received_live. }
  assert (Hw1 : w1 = w').
  { unfold w1. simpl. unfold deliver. rewrite Ho, Hcb. simpl. unfold invoke. by rewrite Hr. }
  rewrite Hw1. do 5 (split; [done|]). split; [|intros c h Hne; split].
  - intros el Hin. split; [|by apply Hun].
    assert (is_Some (doc w !! el)) as [e He].
    { pose proof Hin as Hin'.
      apply intersects_spec in Hin' as (entry & Hin' & <- & _). by eapply received_live. }
    exists (revealed e). rewrite Hd, He, Hin. split; [done|]. simpl.
    apply elem_of_union_r. by apply elem_of_singleton.
  - intros (e & He & Hin). rewrite Hd in He.
    destruct (doc w !! h) as [x|] eqn:E; simplify_eq/=. exists x. split; [done|].
    destruct (intersects _ _); [|done]. simpl in Hin.
    apply elem_of_union in Hin as [?|Heq%elem_of_singleton]; [done|]. by subst.
  - intros (e & He & Hin). eexists. rewrite Hd, He. split; [done|].
    destruct (intersects _ _); [|done]. simpl. by apply elem_of_union_l.
Qed.

(** ** The submission handler on any page *)

(** X12.  [handleFormSubmit] returns on every page and for every event, with
    the event's default action prevented; it raises nothing, and it either
    leaves the timers alone (an element is missing) or adds exactly one, due
    1200 ms after the current time. *)
Theorem submit_prevents_default (w : world) (ev : Event) :
  ∃ w', handleFormSubmit ev w = Returned (mkEvent true) w' ∧
        step w Submit = w' ∧
        uncaught w' = uncaught w ∧ clock w' = clock w ∧
        listeners w' = listeners w ∧ observers w' = observers w ∧
        animationFrames w' = animationFrames w ∧
        (timers w' = timers w ∨
         ∃ btn form_, timers w' =
           (timers w ++ [((clock w + 1200)%Q, sendDone (Some btn) (Some form_))])%list).
Proof.
  assert (H : ∀ ev', ∃ w', handleFormSubmit ev' w = Returned (mkEvent true) w' ∧
        w' = match element_by_id "submitBtn" (doc w), element_by_id "contactForm" (doc w) with
             | Some btn, Some form_ =>
                 match doc w !! btn with
                 | Some b =>
                     with_timers
                       (fun ts => (ts ++ [((clock w + 1200)%Q,
                                           sendDone (Some btn) (Some form_))])%list)
                       (with_doc (fun d => <[btn := sending b]> d) w)
                 | None => w
                 end
             | _, _ => w
             end).
  { intros ev'.
    destruct (element_by_id "submitBtn" (doc w)) as [btn|] eqn:Eb;
      [destruct (element_by_id "contactForm" (doc w)) as [form_|] eqn:Ef|].
    - destruct (element_by_id_live _ _ _ Eb) as (b & Hb & _). rewrite Hb.
      eexists. split; [by apply handleFormSubmit_live | done].
    - exists w. split; [|done].
      unfold handleFormSubmit, getElementById, bind, get. by rewrite Eb, Ef.
    - exists w. split; [|done].
      unfold handleFormSubmit, getElementById, bind, get. by rewrite Eb. }
  destruct (H ev) as (w' & Hr & Hw'). exists w'. split; [done|]. split.
  { destruct (H (mkEvent false)) as (w'' & Hr' & Hw''). simpl. unfold submit, invoke.
    rewrite Hr'. congruence. }
  rewrite Hw'.
  destruct (element_by_id "submitBtn" (doc w)) as [btn|];
    [destruct (element_by_id "contactForm" (doc w)) as [form_|];
       [destruct (doc w !! btn)|]|]; simpl; repeat split; eauto.
Qed.

(** ** The whole cycle, and what it leaves alone *)


(** ** A contact form that is not a form *)

Lemma run_sendDone_throws (w : world) (btn form_ : nat) (b f : element) :
  doc w !! btn = Some b →
  doc (with_doc (fun d => <[btn := sent b]> d) w) !! form_ = Some f →
  localName f ≠ "form" →
  run_sendDone (Some btn) (Some form_) w =
    Thrown "TypeError: form.reset is not a function"
      (with_doc (fun d => <[btn := sent b]> d) w).
Proof.
  intros He Hf Hform.
  unfold run_sendDone, set_textContent, set_style_background, set_style_opacity.
  rewrite !(modify_twice _ _ b) by done.
  rewrite (bind_returned _ _ _ _ _ (modify_live _ _ _ _ He)).
  unfold reset, bind at 1. rewrite (bind_returned _ _ _ _ _ (deref_live _ _ _ Hf)). simpl.
  by apply String.eqb_neq in Hform as ->.
Qed.

Lemma timeout_none (w : world) : timers w = [] → timeout w = w.
Proof. intros H. unfold timeout. by rewrite H. Qed.


(** ** No handler ever raises *)

Section Total.
Context (d0 : document).

Lemma sound_lookup (w : world) (h : nat) :
  sound d0 w → (h < length d0)%nat →
  ∃ e0 e, d0 !! h = Some e0 ∧ doc w !! h = Some e ∧ same_markup e0 e.
Proof.
  intros [[Hlen Hm] _] Hh.
  destruct (lookup_lt_is_Some_2 d0 h Hh) as [e0 He0].
  destruct (lookup_lt_is_Some_2 (doc w) h) as [e He]; [by rewrite Hlen|].
  exists e0, e. eauto.
Qed.

Lemma sound_doc (w : world) (d : document) :
  sound d0 w → same_markup_doc (doc w) d → sound d0 (with_doc (fun _ => d) w).
Proof.
  intros (Hd & Hl & Ho & Hf & Ht) Hm. split; [|done].
  simpl. by eapply same_markup_doc_trans.
Qed.

Lemma total_ret {A} (a : A) (Q : A → Prop) : Q a → total (sound d0) (ret a) Q.
Proof. intros Ha w Hw. by exists a, w. Qed.

Lemma total_get {A} (f : world → A) (Q : A → Prop) :
  (∀ w, sound d0 w → Q (f w)) → total (sound d0) (get f) Q.
Proof.
  intros Hf w Hw. exists (f w), w. split; [done|]. split; [done|].
  split; [by apply Hf | done].
Qed.

Lemma total_bind {A B} (m : js A) (k : A → js B) (Q : A → Prop) (R : B → Prop) :
  total (sound d0) m Q → (∀ a, Q a → total (sound d0) (k a) R) →
  total (sound d0) (bind m k) R.
Proof.
  intros Hm Hk w Hw. destruct (Hm w Hw) as (a & w1 & Hr & Hw1 & Ha & Hu).
  destruct (Hk a Ha w1 Hw1) as (b & w2 & Hr2 & Hw2 & Hb & Hu2).
  exists b, w2. unfold bind. rewrite Hr. split; [done|]. split; [done|].
  split; [done|]. by rewrite Hu2.
Qed.

Lemma total_forEach_in {A} (l : list A) (f : A → js unit) :
  (∀ x, x ∈ l → total (sound d0) (f x) (fun _ => True)) →
  total (sound d0) (forEach l f) (fun _ => True).
Proof.
  induction l as [|x l IH]; intros Hf; simpl; [by apply total_ret|].
  eapply total_bind; [apply Hf; left|]. intros _ _. apply IH.
  intros y Hy. apply Hf. by right.
Qed.

Lemma total_put (f : world → world) :
  (∀ w, sound d0 w → sound d0 (f w) ∧ uncaught (f w) = uncaught w) →
  total (sound d0) (put f) (fun _ => True).
Proof. intros Hf w Hw. destruct (Hf w Hw). by exists tt, (f w). Qed.

Lemma total_deref (h : nat) :
  (h < length d0)%nat → total (sound d0) (deref (Some h)) (fun he => he.1 = h).
Proof.
  intros Hh w Hw. destruct (sound_lookup w h Hw Hh) as (e0 & e & _ & He & _).
  exists (h, e), w. by rewrite (deref_live _ _ _ He).
Qed.

Lemma total_modify (r : ref) (f : element → element) :
  live_ref (length d0) r → (∀ e, same_markup e (f e)) →
  total (sound d0) (modify r f) (fun _ => True).
Proof.
  destruct r as [h|]; [|done]. simpl.
  intros Hh Hf w Hw. destruct (sound_lookup w h Hw Hh) as (e0 & e & _ & He & _).
  exists tt, (with_doc (fun d => <[h := f e]> d) w).
  rewrite (modify_live _ _ _ _ He). split; [done|]. split; [|done].
  apply (sound_doc w (<[h := f e]> (doc w)) Hw).
  by apply (same_markup_doc_insert _ h e).
Qed.

Lemma total_reset (r : ref) : is_form d0 r → total (sound d0) (reset r) (fun _ => True).
Proof.
  intros (h & e0 & -> & He0 & Hform) w Hw.
  destruct (sound_lookup w h Hw) as (e0' & e & He0' & He & [Hm _]);
    [by eapply lookup_lt_Some|].
  rewrite He0 in He0'. injection He0' as <-.
  assert (Hl : localName e = "form") by (inversion Hm; congruence).
  exists tt, (with_doc (fun d => reset_control h <$> d) w).
  unfold reset. rewrite (bind_returned _ _ _ _ _ (deref_live _ _ _ He)). simpl.
  rewrite Hl. split; [done|]. split; [|done].
  apply (sound_doc w (reset_control h <$> doc w) Hw). apply same_markup_doc_reset.
Qed.

Lemma total_requestAnimationFrame (cb : frame_callback) :
  frame_live (length d0) cb → total (sound d0) (requestAnimationFrame cb) (fun _ => True).
Proof.
  intros Hcb. apply total_put. intros w (Hd & Hl & Ho & Hf & Ht). split; [|done].
  split; [done|]. split; [done|]. split; [done|]. split; [|done].
  simpl. apply Forall_app. split; [done|]. by constructor.
Qed.

Lemma total_setTimeout (cb : timer_callback) (delay : Q) :
  timer_live d0 cb → total (sound d0) (setTimeout cb delay) (fun _ => True).
Proof.
  intros Hcb. apply total_put. intros w (Hd & Hl & Ho & Hf & Ht). split; [|done].
  split; [done|]. split; [done|]. split; [done|]. split; [done|].
  simpl. apply Forall_app. split; [done|]. by constructor.
Qed.

Lemma total_unobserve (observer el : nat) :
  total (sound d0) (unobserve observer el) (fun _ => True).
Proof.
  apply total_put. intros w (Hd & Hl & Ho & Hf & Ht). split; [|done].
  split; [done|]. split; [done|]. split; [|done].
  simpl. apply Forall_alter; [done|].
  intros o _ Hobs h [Hh _]%elem_of_difference. by apply Hobs.
Qed.

Lemma total_classList_toggle (r : ref) (c : string) (force : option bool) :
  live_ref (length d0) r → c ∈ script_classes →
  total (sound d0) (classList_toggle r c force) (fun _ => True).
Proof.
  intros Hr Hc. unfold classList_toggle.
  destruct r as [h|]; [|done].
  eapply total_bind; [by apply total_deref|]. intros he _.
  assert (Ha : total (sound d0) (classList_add (Some h) c) (fun _ => True)).
  { apply total_modify; [done|]. intros e. by apply same_markup_add. }
  assert (Hd : total (sound d0) (classList_remove (Some h) c) (fun _ => True)).
  { apply total_modify; [done|]. intros e. by apply same_markup_remove. }
  destruct force as [[|]|]; [done..|]. by destruct (has_class c he.2).
Qed.

Lemma total_listener (l : listener) :
  listener_live (length d0) l → total (sound d0) (run_listener l) (fun _ => True).
Proof.
  destruct l as [navbar|toggle links|toggle links]; simpl.
  - intros Hn. unfold run_onScroll, window_scrollY.
    eapply total_bind; [by apply (total_get _ (fun _ => True))|]. intros y _.
    apply total_classList_toggle; [done | one_of].
  - intros [Ht Hl]. unfold run_toggleClick.
    eapply total_bind; [apply total_classList_toggle; [done | one_of]|]. intros _ _.
    apply total_classList_toggle; [done | one_of].
  - intros [Ht Hl]. unfold run_linkClick, classList_remove.
    eapply total_bind.
    + apply total_modify; [done|]. intros e. apply same_markup_remove. one_of.
    + intros _ _. apply total_modify; [done|]. intros e. apply same_markup_remove. one_of.
Qed.

Lemma total_animateCounter (h : nat) :
  (h < length d0)%nat → total (sound d0) (animateCounter (Some h)) (fun _ => True).
Proof.
  intros Hh. unfold animateCounter, getAttribute, performance_now.
  eapply total_bind.
  - eapply total_bind; [by apply total_deref|]. intros he _.
    by apply (total_ret _ (fun _ => True)).
  - intros attr _. eapply total_bind; [by apply (total_get _ (fun _ => True))|].
    intros t _. by apply total_requestAnimationFrame.
Qed.

Lemma total_observer_callback (cb : observer_callback) (observer : nat)
    (entries : list IntersectionObserverEntry) :
  (∀ entry, entry ∈ entries → (target entry < length d0)%nat) →
  total (sound d0) (run_observer_callback cb observer entries) (fun _ => True).
Proof.
  intros Hlive. destruct cb; simpl; apply total_forEach_in; intros entry Hin;
    (destruct (isIntersecting entry); [|by apply total_ret]);
    (eapply total_bind; [|intros _ _; apply total_unobserve]).
  - apply total_modify; [by apply Hlive|]. intros e. apply same_markup_add. one_of.
  - apply total_animateCounter. by apply Hlive.
Qed.

Lemma total_frame_callback (cb : frame_callback) (t : number) :
  frame_live (length d0) cb → total (sound d0) (run_frame_callback cb t) (fun _ => True).
Proof.
  destruct cb as [r tg st]. simpl. intros Hr. unfold run_update, set_textContent.
  eapply total_bind; [apply total_modify; [done | by intros e]|]. intros _ _.
  destruct (lt _ _); [by apply total_requestAnimationFrame | by apply total_ret].
Qed.

Lemma total_timer_callback (cb : timer_callback) :
  timer_live d0 cb → total (sound d0) (run_timer_callback cb) (fun _ => True).
Proof.
  destruct cb as [btn form_|btn]; simpl.
  - intros [Hb Hf]. unfold run_sendDone, set_textContent, set_style_background,
      set_style_opacity.
    repeat (eapply total_bind; [apply total_modify; [done | by intros e]|]; intros _ _).
    eapply total_bind; [by apply total_reset|]. intros _ _.
    by apply total_setTimeout.
  - intros Hb. unfold run_sendReset, set_textContent, set_disabled, set_style_background.
    repeat (eapply total_bind; [apply total_modify; [done | by intros e]|]; intros _ _).
    apply total_modify; [done | by intros e].
Qed.

Lemma sound_element_by_id (w : world) (name : string) :
  sound d0 w → element_by_id name (doc w) = element_by_id name d0.
Proof. intros [Hm _]. by apply same_markup_element_by_id. Qed.

Lemma total_handleFormSubmit (ev : Event) :
  contact_form_is_form d0 →
  total (sound d0) (handleFormSubmit ev) (fun ev' => ev' = mkEvent true).
Proof.
  intros Hform. unfold handleFormSubmit, getElementById.
  eapply (total_bind _ _ (fun r => r = element_by_id "submitBtn" d0));
    [apply total_get; intros w Hw; by apply sound_element_by_id|].
  intros btn ->.
  eapply (total_bind _ _ (fun r => r = element_by_id "contactForm" d0));
    [apply total_get; intros w Hw; by apply sound_element_by_id|].
  intros form_ ->.
  destruct (element_by_id "submitBtn" d0) as [btn|] eqn:Eb; [|by apply total_ret].
  destruct (element_by_id "contactForm" d0) as [form_|] eqn:Ef; [|by apply total_ret].
  simpl.
  destruct (element_by_id_live _ _ _ Eb) as (b & Hb & _).
  destruct (element_by_id_live _ _ _ Ef) as (f & Hf & _).
  assert (Hbl : live_ref (length d0) (Some btn)) by (simpl; by eapply lookup_lt_Some).
  unfold set_textContent, set_disabled, set_style_opacity.
  repeat (eapply total_bind; [apply total_modify; [done | by intros e]|]; intros _ _).
  eapply total_bind; [|intros _ _; by apply total_ret].
  apply total_setTimeout. split; [done|]. exists form_, f. eauto.
Qed.

Lemma total_invoke (m : js unit) (w : world) :
  total (sound d0) m (fun _ => True) → sound d0 w →
  sound d0 (invoke m w) ∧ uncaught (invoke m w) = uncaught w.
Proof.
  intros Hm Hw. destruct (Hm w Hw) as (a & w' & Hr & Hw' & _ & Hu).
  unfold invoke. by rewrite Hr.
Qed.

Lemma total_fold {A} (f : A → js unit) (l : list A) (w : world) :
  (∀ x, x ∈ l → total (sound d0) (f x) (fun _ => True)) → sound d0 w →
  sound d0 (fold_left (fun w x => invoke (f x) w) l w) ∧
  uncaught (fold_left (fun w x => invoke (f x) w) l w) = uncaught w.
Proof.
  revert w. induction l as [|x l IH]; intros w Hf Hw; simpl; [done|].
  destruct (total_invoke (f x) w) as [H1 H2]; [apply Hf; left | done|].
  destruct (IH (invoke (f x) w)) as [H3 H4]; [intros y Hy; apply Hf; by right | done|].
  split; [done | congruence].
Qed.

Lemma pop_earliest_Forall (P : Q * timer_callback → Prop) (l : list (Q * timer_callback))
    (x : Q * timer_callback) (rest : list (Q * timer_callback)) :
  pop_earliest l = Some (x, rest) → Forall P l → P x ∧ Forall P rest.
Proof.
  revert x rest. induction l as [|y l IH]; intros x rest Hp Hl; [done|].
  apply Forall_cons in Hl as [Hy Hl]. simpl in Hp.
  destruct (pop_earliest l) as [[z r]|] eqn:E.
  - destruct (IH z r eq_refl Hl) as [Hz Hr].
    destruct (Qle_bool y.1 z.1); simplify_eq; split; try done. by constructor.
  - simplify_eq. by split.
Qed.

Lemma sound_step (w : world) (ev : event) :
  contact_form_is_form d0 → sound d0 w →
  sound d0 (step w ev) ∧ uncaught (step w ev) = uncaught w.
Proof.
  intros Hform Hw.
  assert (Hdispatch : ∀ t type w', sound d0 w' →
            sound d0 (dispatch t type w') ∧ uncaught (dispatch t type w') = uncaught w').
  { intros t type w' Hw'. unfold dispatch. apply total_fold; [|done].
    intros l Hl. apply total_listener. unfold listening in Hl.
    apply list_elem_of_fmap in Hl as (r & -> & [_ Hr]%list_elem_of_filter).
    destruct Hw' as (_ & Hls & _). rewrite Forall_forall in Hls. by apply Hls. }
  destruct ev as [y|h|observer entries|t| |]; simpl.
  - destruct (Hdispatch Window "scroll" (with_scrollY y w)) as [H1 H2]; [done|]. done.
  - by apply Hdispatch.
  - unfold deliver. destruct (observers w !! observer) as [o|] eqn:E; [|done].
    apply total_invoke; [|done]. apply total_observer_callback.
    intros entry [Hobs _]%list_elem_of_filter.
    destruct Hw as (_ & _ & Ho & _). rewrite Forall_forall in Ho.
    apply (Ho o); [by eapply list_elem_of_lookup_2 | done].
  - unfold frame.
    destruct (total_fold (fun cb => run_frame_callback cb (Num t)) (animationFrames w)
                (with_animationFrames (fun _ => []) w)) as [H1 H2]; [| |done].
    + intros cb Hcb. apply total_frame_callback.
      destruct Hw as (_ & _ & _ & Hf & _). rewrite Forall_forall in Hf. by apply Hf.
    + destruct Hw as (Hd & Hl & Ho & Hf & Ht).
      split; [done|]. split; [done|]. split; [done|]. split; [constructor | done].
  - unfold timeout. destruct (pop_earliest (timers w)) as [[[due cb] rest]|] eqn:E; [|done].
    destruct Hw as (Hd & Hl & Ho & Hf & Ht).
    destruct (pop_earliest_Forall _ _ _ _ E Ht) as [Hcb Hrest].
    set (w1 := with_timers _ _).
    destruct (total_invoke (run_timer_callback cb) w1) as [H1 H2];
      [by apply total_timer_callback | | done].
    split; [done|]. split; [done|]. split; [done|]. by split.
  - unfold submit.
    destruct (total_handleFormSubmit (mkEvent false) Hform w Hw)
      as (a & w' & Hr & Hw' & _ & Hu).
    unfold invoke. by rewrite Hr.
Qed.

Lemma sound_run (w : world) (evs : list event) :
  contact_form_is_form d0 → sound d0 w →
  sound d0 (run w evs) ∧ uncaught (run w evs) = uncaught w.
Proof.
  intros Hform. revert w. induction evs as [|ev evs IH]; intros w Hw; simpl; [done|].
  destruct (sound_step w ev Hform Hw) as [H1 H2].
  destruct (IH _ H1) as [H3 H4]. split; [done | congruence].
Qed.

End Total.

Lemma sound_loaded (d : document) (y now : Q) : sound d (load d y now).
Proof.
  rewrite load_world. unfold sound, loaded_page. simpl.
  split; [apply same_markup_navbar_at|]. split; [|split; [|by split]].
  - apply Forall_app. split.
    + unfold navbar_listeners. destruct (element_by_id "navbar" d) as [h|] eqn:E;
        [|constructor].
      destruct (element_by_id_live _ _ _ E) as (e & He & _).
      repeat constructor. simpl. by eapply lookup_lt_Some.
    + unfold menu_listeners.
      destruct (element_by_id "navToggle" d) as [t|] eqn:Et; [|constructor].
      destruct (element_by_id "navLinks" d) as [l|] eqn:El; [|constructor].
      destruct (element_by_id_live _ _ _ Et) as (te & Hte & _).
      destruct (element_by_id_live _ _ _ El) as (le & Hle & _).
      assert (Ht : (t < length d)%nat) by by eapply lookup_lt_Some.
      assert (Hl : (l < length d)%nat) by by eapply lookup_lt_Some.
      constructor; [done|]. apply Forall_fmap, Forall_true. intros a. by split.
  - apply Forall_app. split.
    + apply Forall_forall. intros o [-> _]%elem_of_observing h. simpl.
      rewrite elem_of_list_to_set. intros (e & He & _)%elem_of_select.
      by eapply lookup_lt_Some.
    + apply Forall_forall. intros o [-> _]%elem_of_observing h. simpl.
      rewrite elem_of_list_to_set. intros (e & He & _)%elem_of_select.
      by eapply lookup_lt_Some.
Qed.


(** ** A scroll, on the loaded page *)

(** X18.  On the loaded page, at any later time, a scroll to the offset [y]
    sets or clears [scrolled] on the navbar according to [y > 60] and
    records the offset; it changes no other class and no other element, and
    no observer, frame, timer or listener.  Without a navbar it changes the
    offset only. *)
Theorem scroll_frame (d : document) (y0 now : Q) (evs : list event) (y : Q) :
  let w := run (load d y0 now) evs in
  step w (Scroll y) =
    match element_by_id "navbar" d with
    | Some h => with_doc (alter (with_classList (scrolled_class y)) h) (with_scrollY y w)
    | None => with_scrollY y w
    end ∧
  (∀ h, element_by_id "navbar" d ≠ Some h → doc (step w (Scroll y)) !! h = doc w !! h) ∧
  (∀ c h, c ≠ "scrolled" → shows c h (step w (Scroll y)) ↔ shows c h w) ∧
  observers (step w (Scroll y)) = observers w ∧
  animationFrames (step w (Scroll y)) = animationFrames w ∧
  timers (step w (Scroll y)) = timers w ∧
  uncaught (step w (Scroll y)) = uncaught w.
Proof.
  intros w.
  assert (Hstep : step w (Scroll y) =
    match element_by_id "navbar" d with
    | Some h => with_doc (alter (with_classList (scrolled_class y)) h) (with_scrollY y w)
    | None => with_scrollY y w
    end).
  { simpl. unfold dispatch.
    rewrite (listening_listeners Window "scroll" w (with_scrollY y w)) by done.
    rewrite (listening_scroll_page d w (loaded_listeners d y0 now evs)).
    destruct (element_by_id "navbar" d) as [h|] eqn:E; [|done].
    destruct (element_by_id_live _ _ _ E) as (e0 & He0 & _).
    destruct (loaded_live d y0 now evs h) as [e He]; [eauto|]. fold w in He.
    cbn [fold_left]. unfold invoke. cbn [run_listener].
    rewrite (run_onScroll_live (with_scrollY y w) h e) by done.
    unfold with_doc. simpl. f_equal. by apply insert_alter_live. }
  rewrite Hstep. split; [done|].
  destruct (element_by_id "navbar" d) as [n|]; [|by repeat split].
  split; [|split; [|done]].
  - intros h Hne. simpl. rewrite list_lookup_alter_ne; [done|]. congruence.
  - intros c h Hc. unfold shows. simpl.
    destruct (decide (n = h)) as [->|Hne]; [|by rewrite list_lookup_alter_ne].
    rewrite list_lookup_alter_eq.
    assert (Hin : ∀ e, c ∈ classList (with_classList (scrolled_class y) e)
                       ↔ c ∈ classList e).
    { intros e. simpl. unfold scrolled_class. destruct (gt _ _).
      - rewrite elem_of_union, elem_of_singleton. split; [|by left].
        intros [?|?]; [done|]. by subst.
      - rewrite elem_of_difference, not_elem_of_singleton. tauto. }
    destruct (doc w !! h) as [e|]; simpl.
    + split.
      * intros (x & [= <-] & Hx). exists e. split; [done|]. by apply Hin.
      * intros (x & [= <-] & Hx). eexists. split; [done|]. by apply Hin.
    + split; by intros (? & ? & _).
Qed.

(** ** Targets with a suffix *)

Lemma digit_cases (d : Z) :
  (0 <= d <= 9)%Z →
  d ∈ [0; 1; 2; 3; 4; 5; 6; 7; 8; 9]%Z.
Proof.
  intros H.
  assert (d = 0 ∨ d = 1 ∨ d = 2 ∨ d = 3 ∨ d = 4 ∨ d = 5 ∨ d = 6 ∨ d = 7 ∨ d = 8 ∨ d = 9)%Z
    as Hd by lia.
  apply list_elem_of_In. simpl. intuition.
Qed.

Ltac each_digit H :=
  apply digit_cases in H; apply list_elem_of_In in H; simpl in H;
  repeat (destruct H as [H|H]; [subst|]); [..|done].

Lemma digit_digit_char (d : Z) : (0 <= d <= 9)%Z → digit (digit_char d) = Some d.
Proof. intros H. by each_digit H. Qed.

Lemma trimStart_digit (d : Z) (s : string) :
  (0 <= d <= 9)%Z → trimStart (String (digit_char d) s) = String (digit_char d) s.
Proof.
  intros H. each_digit H; cbn; destruct s as [|b [|c s]]; done.
Qed.

Lemma strip_sign_digit (d : Z) (s : string) :
  (0 <= d <= 9)%Z → strip_sign (String (digit_char d) s) = (1%Z, String (digit_char d) s).
Proof. intros H. by each_digit H. Qed.

Lemma leading_digits_rest (rest : string) :
  starts_with_digit rest = false → leading_digits rest = [].
Proof.
  destruct rest as [|a r]; [done|]. simpl. intros H%bool_decide_eq_false.
  destruct (digit a); [|done]. destruct H. eauto.
Qed.

Lemma leading_digits_digit_string (ds : list Z) (rest : string) :
  decimal_digits ds → starts_with_digit rest = false →
  leading_digits (digit_string ds ++ rest) = ds.
Proof.
  intros Hds Hrest. induction Hds as [|d ds Hd Hds IH]; simpl.
  - by apply leading_digits_rest.
  - by rewrite (digit_digit_char d Hd), IH.
Qed.

Lemma parseInt_digit_string (ds : list Z) (rest : string) :
  ds ≠ [] → decimal_digits ds → starts_with_digit rest = false →
  parseInt (digit_string ds ++ rest) = Num (inject_Z (decimal ds)).
Proof.
  intros Hne Hds Hrest. unfold parseInt.
  pose proof (leading_digits_digit_string ds rest Hds Hrest) as Hl.
  destruct ds as [|d ds]; [done|]. apply Forall_cons in Hds as [Hd Hds].
  change (digit_string (d :: ds) ++ rest)
    with (String (digit_char d) (digit_string ds ++ rest)) in *.
  rewrite (trimStart_digit d _ Hd), (strip_sign_digit d _ Hd), Hl.
  by rewrite Z.mul_1_l.
Qed.


(** ** Which event touches what *)

Section Footprint.
Context (P : world → Prop).
Hypothesis P_uncaught : survives_uncaught P.

Lemma footprint_listener (l : listener) :
  survives_classes P → preserves P (run_listener l).
Proof.
  intros Hc.
  assert (Ht : ∀ r c force, preserves P (classList_toggle r c force)).
  { intros r c force. unfold classList_toggle.
    apply preserves_bind; [apply preserves_deref|]. intros he.
    destruct force as [[|]|]; [| |destruct (has_class c he.2)];
      apply preserves_modify; intros; by apply Hc. }
  destruct l; simpl.
  - unfold run_onScroll, window_scrollY.
    apply preserves_bind; [apply preserves_get | intros y; apply Ht].
  - unfold run_toggleClick. apply preserves_bind; [apply Ht | intros _; apply Ht].
  - unfold run_linkClick, classList_remove.
    apply preserves_bind; [|intros _]; apply preserves_modify; intros; by apply Hc.
Qed.

Lemma footprint_dispatch (t : event_target) (type : string) (w : world) :
  survives_classes P → P w → P (dispatch t type w).
Proof.
  intros Hc. unfold dispatch. generalize (listening t type w). intros ls. revert w.
  induction ls as [|l ls IH]; intros w Hw; simpl; [done|].
  apply IH. apply preserves_invoke; [done | by apply footprint_listener | done].
Qed.

Lemma footprint_deliver (observer : nat) (entries : list IntersectionObserverEntry)
    (w : world) :
  survives_classes P → survives_frames P → survives_observers P →
  P w → P (deliver observer entries w).
Proof.
  intros Hc Hf Ho Hw. unfold deliver. destruct (observers w !! observer) as [o|]; [|done].
  apply preserves_invoke; [done| |done].
  destruct (callback o); simpl; apply preserves_forEach; intros entry;
    (destruct (isIntersecting entry); [|apply preserves_ret]);
    (apply preserves_bind; [|intros _; apply preserves_put; intros; by apply Ho]).
  - apply preserves_modify. intros. by apply Hc.
  - unfold animateCounter, getAttribute, performance_now.
    apply preserves_bind; [|intros attr].
    + apply preserves_bind; [apply preserves_deref | intros ?; apply preserves_ret].
    + apply preserves_bind; [apply preserves_get | intros ?].
      apply preserves_put. intros. by apply Hf.
Qed.

Lemma footprint_frame (t : Q) (w : world) :
  survives_text P → survives_frames P → P w → P (frame t w).
Proof.
  intros Ht Hf Hw. unfold frame. generalize (animationFrames w). intros cbs.
  assert (H0 : P (with_animationFrames (fun _ => []) w)) by by apply Hf.
  revert H0. generalize (with_animationFrames (fun _ => []) w). clear Hw w.
  induction cbs as [|cb cbs IH]; intros w Hw; simpl; [done|].
  apply IH. apply preserves_invoke; [done| |done].
  destruct cb. simpl. unfold run_update, set_textContent.
  apply preserves_bind; [apply preserves_modify; intros; by apply Ht | intros _].
  destruct (lt _ _); [|apply preserves_ret]. apply preserves_put. intros. by apply Hf.
Qed.

Lemma footprint_submit (w : world) :
  survives_button P → survives_timers P → P w → P (submit w).
Proof.
  intros (Ht & Hd & Hs) Hti Hw. unfold submit, invoke.
  assert (H : preserves P (handleFormSubmit (mkEvent false))).
  { unfold handleFormSubmit.
    apply preserves_bind; [apply preserves_get|]. intros btn.
    apply preserves_bind; [apply preserves_get|]. intros form_.
    destruct (_ || _); [apply preserves_ret|].
    unfold set_textContent, set_disabled, set_style_opacity.
    apply preserves_bind; [apply preserves_modify; intros; by apply Ht | intros _].
    apply preserves_bind; [apply preserves_modify; intros; by apply Hd | intros _].
    apply preserves_bind; [apply preserves_modify; intros; by apply Hs | intros _].
    apply preserves_bind; [apply preserves_put; intros; by apply Hti | intros _].
    apply preserves_ret. }
  specialize (H w Hw). destruct (handleFormSubmit _ w); simpl in *; [done|].
  by apply P_uncaught.
Qed.

Lemma footprint_timeout (w : world) :
  survives_button P → survives_reset P → survives_timers P → survives_clock P →
  P w → P (timeout w).
Proof.
  intros (Ht & Hd & Hs) Hr Hti Hc Hw. unfold timeout.
  destruct (pop_earliest _) as [[[due cb] rest]|]; [|done].
  apply preserves_invoke; [done| |by apply Hti, Hc].
  destruct cb; simpl.
  - unfold run_sendDone, set_textContent, set_style_background, set_style_opacity.
    apply preserves_bind; [apply preserves_modify; intros; by apply Ht | intros _].
    apply preserves_bind; [apply preserves_modify; intros; by apply Hs | intros _].
    apply preserves_bind; [apply preserves_modify; intros; by apply Hs | intros _].
    apply preserves_bind; [|intros _; apply preserves_put; intros; by apply Hti].
    unfold reset. apply preserves_bind; [apply preserves_deref|]. intros he.
    destruct (String.eqb _ _); [|apply preserves_throw].
    apply preserves_put. intros. by apply Hr.
  - unfold run_sendReset, set_textContent, set_disabled, set_style_background.
    apply preserves_bind; [apply preserves_modify; intros; by apply Ht | intros _].
    apply preserves_bind; [apply preserves_modify; intros; by apply Hd | intros _].
    apply preserves_modify; intros; by apply Hs.
Qed.

End Footprint.

Section Related.
Context (R : element → element → Prop) (d : document).

Lemma related_refl (w : world) : (∀ e, R e e) → doc w = d → related R d w.
Proof. intros Hr <- h e' He'. eauto. Qed.

Lemma related_insert (w : world) (h : nat) (e1 : element) (f : element → element) :
  (∀ x, R x e1 → R x (f e1)) →
  related R d w → doc w !! h = Some e1 →
  related R d (with_doc (fun d' => <[h := f e1]> d') w).
Proof.
  intros Hf Hw He1 k e' Hk. simpl in Hk. destruct (decide (h = k)) as [->|Hne].
  - rewrite list_lookup_insert_eq in Hk by by eapply lookup_lt_Some.
    injection Hk as <-. destruct (Hw k e1 He1) as (e & He & Hr). eauto.
  - rewrite list_lookup_insert_ne in Hk by done. by apply Hw.
Qed.

Lemma related_fmap (w : world) (f : element → element) :
  (∀ x y, R x y → R x (f y)) →
  related R d w → related R d (with_doc (fun d' => f <$> d') w).
Proof.
  intros Hf Hw k e' Hk. simpl in Hk. rewrite list_lookup_fmap in Hk.
  destruct (doc w !! k) as [e1|] eqn:E; [|done]. injection Hk as <-.
  destruct (Hw k e1 E) as (e & He & Hr). eauto.
Qed.

End Related.

Lemma only_classes_edit (x e : element) (f : gset string → gset string) :
  only_classes x e → only_classes x (with_classList f e).
Proof. unfold only_classes. intros ->. by destruct x. Qed.

Lemma only_text_edit (x e : element) (t : text) :
  only_text x e → only_text x (with_textContent t e).
Proof. unfold only_text. intros ->. by destruct x. Qed.

Ltac footprint P :=
  simpl;
  first [ apply (footprint_dispatch P) | apply (footprint_deliver P)
        | apply (footprint_frame P) | apply (footprint_timeout P)
        | apply (footprint_submit P) ];
  unfold survives_button, survives_uncaught, survives_classes, survives_text,
    survives_reset, survives_frames, survives_timers, survives_observers, survives_clock;
  repeat split; by intros.


(** ** Submissions that overlap *)

Section Overlap.
Context (w0 : world) (btn form_ : nat) (f : element).
Hypothesis Hbtn : element_by_id "submitBtn" (doc w0) = Some btn.
Hypothesis Hform : element_by_id "contactForm" (doc w0) = Some form_.
Hypothesis Hf : doc w0 !! form_ = Some f.
Hypothesis Hlocal : localName f = "form".

Lemma cycling_button (w : world) :
  cycling w0 btn form_ w → is_Some (doc w !! btn).
Proof.
  intros [[Hlen _] _]. apply lookup_lt_is_Some. rewrite Hlen.
  destruct (element_by_id_live _ _ _ Hbtn) as (b & Hb & _). by eapply lookup_lt_Some.
Qed.

Lemma cycling_form (w : world) :
  cycling w0 btn form_ w → ∃ f', doc w !! form_ = Some f' ∧ localName f' = "form".
Proof.
  intros [[Hlen Hm] _].
  destruct (lookup_lt_is_Some_2 (doc w) form_) as [f' Hf'].
  { rewrite Hlen. by eapply lookup_lt_Some. }
  exists f'. split; [done|]. destruct (Hm form_ f f' Hf Hf') as [Hk _].
  inversion Hk. congruence.
Qed.

Lemma cycling_distinct : btn ≠ form_.
Proof.
  intros Heq. destruct (element_by_id_live _ _ _ Hbtn) as (e1 & He1 & Hid1).
  destruct (element_by_id_live _ _ _ Hform) as (e2 & He2 & Hid2).
  subst form_. rewrite He1 in He2. injection He2 as <-. rewrite Hid1 in Hid2.
  discriminate.
Qed.

Lemma pop_earliest_None (l : list (Q * timer_callback)) : pop_earliest l = None → l = [].
Proof.
  destruct l as [|x l]; [done|]. simpl.
  destruct (pop_earliest l) as [[y rest]|]; [|done]. by destruct (Qle_bool _ _).
Qed.

Lemma cycling_submit (w : world) :
  same_markup_doc (doc w0) (doc w) →
  Forall (fun t => timer_of btn form_ t.2) (timers w) →
  uncaught w = uncaught w0 →
  cycling w0 btn form_ (step w Submit).
Proof.
  intros Hm Ht Hu.
  assert (is_Some (doc w !! btn)) as [b Hb].
  { destruct Hm as [Hlen _]. apply lookup_lt_is_Some. rewrite Hlen.
    destruct (element_by_id_live _ _ _ Hbtn) as (b & Hb & _). by eapply lookup_lt_Some. }
  assert (Hstep : step w Submit =
            with_timers (fun ts => ts ++ [((clock w + 1200)%Q,
                                           sendDone (Some btn) (Some form_))])%list
              (with_doc (fun d => <[btn := sending b]> d) w)).
  { simpl. unfold submit, invoke.
    rewrite (handleFormSubmit_live w _ btn form_ b); [done| | |done].
    - by rewrite (same_markup_element_by_id _ _ Hm).
    - by rewrite (same_markup_element_by_id _ _ Hm). }
  rewrite Hstep. split; [|split; [|split]]; simpl.
  - eapply same_markup_doc_trans; [done|].
    apply (same_markup_doc_insert _ btn b); [done | by split].
  - apply Forall_app. split; [done|]. constructor; [by left | done].
  - done.
  - intros Hnil. by apply app_eq_nil in Hnil as [_ ?].
Qed.

Lemma cycling_timeout (w : world) :
  cycling w0 btn form_ w → cycling w0 btn form_ (step w Timeout).
Proof.
  intros Hw. destruct (cycling_button w Hw) as [b Hb].
  destruct (cycling_form w Hw) as (f' & Hf' & Hl').
  pose proof Hw as (Hm & Ht & Hu & Hrest). simpl. unfold timeout.
  destruct (pop_earliest (timers w)) as [[[due cb] rest]|] eqn:E.
  2:{ by rewrite (pop_earliest_None _ E) in *. }
  destruct (pop_earliest_Forall _ _ _ _ E Ht) as [Hcb Hr]. simpl in Hcb.
  set (w1 := with_timers _ _).
  destruct Hcb as [-> | ->]; unfold invoke; simpl.
  - rewrite (run_sendDone_live w1 btn form_ b f'); [|done| |done].
    + split; [|split; [|split]]; simpl.
      * eapply same_markup_doc_trans; [done|].
        eapply same_markup_doc_trans; [|apply same_markup_doc_reset].
        apply (same_markup_doc_insert _ btn b); [done | by split].
      * apply Forall_app. split; [done|]. constructor; [by right | done].
      * done.
      * intros Hnil. by apply app_eq_nil in Hnil as [_ ?].
    + simpl. rewrite list_lookup_insert_ne; [done|]. apply cycling_distinct.
  - rewrite (run_sendReset_live w1 btn b) by done.
    split; [|split; [|split]]; simpl.
    + eapply same_markup_doc_trans; [done|].
      apply (same_markup_doc_insert _ btn b); [done | by split].
    + done.
    + done.
    + intros _. exists (idle b). split; [|done].
      apply list_lookup_insert_eq. by eapply lookup_lt_Some.
Qed.

Lemma cycling_run (w : world) (evs : list event) :
  Forall (fun ev => ev = Submit ∨ ev = Timeout) evs →
  cycling w0 btn form_ w → cycling w0 btn form_ (run w evs).
Proof.
  intros Hevs. revert w. induction Hevs as [|ev evs Hev Hevs IH]; intros w Hw; [done|].
  simpl. apply IH. destruct Hev as [-> | ->]; [|by apply cycling_timeout].
  destruct Hw as (Hm & Ht & Hu & _). by apply cycling_submit.
Qed.

(** From rest: either nothing but timer firings has happened, and the page
    is as it was, or a submission has started. *)
Lemma idle_run (evs : list event) :
  timers w0 = [] →
  Forall (fun ev => ev = Submit ∨ ev = Timeout) evs →
  (Forall (fun ev => ev = Timeout) evs ∧ run w0 evs = w0) ∨
  (Exists (fun ev => ev = Submit) evs ∧ cycling w0 btn form_ (run w0 evs)).
Proof.
  intros Htimers Hevs. induction Hevs as [|ev evs Hev Hevs IH]; [by left|].
  destruct Hev as [-> | ->].
  - right. split; [by left|]. simpl. apply cycling_run; [done|].
    apply cycling_submit; [apply same_markup_doc_refl | by rewrite Htimers | done].
  - simpl. rewrite (timeout_none _ Htimers).
    destruct IH as [[Hall Hrun] | [Hex Hc]].
    + left. split; [by constructor | done].
    + right. split; [by right | done].
Qed.

End Overlap.


(** ** A counter that has finished *)

Lemma element_by_id_same_ids (name : string) (d d' : document) :
  length d' = length d →
  (∀ h e e', d !! h = Some e → d' !! h = Some e' → id e' = id e) →
  element_by_id name d' = element_by_id name d.
Proof.
  intros Hlen Hid. unfold element_by_id. f_equal. symmetry. apply select_ext; [done|].
  intros h e e' He He'. simpl. by rewrite (Hid h e e' He He').
Qed.

Lemma element_by_id_insert (name : string) (d : document) (h : nat) (e e' : element) :
  d !! h = Some e → id e' = id e →
  element_by_id name (<[h := e']> d) = element_by_id name d.
Proof.
  intros He Hid. apply element_by_id_same_ids; [by rewrite length_insert|].
  intros k x x' Hx Hx'. destruct (decide (h = k)) as [->|Hne].
  - rewrite list_lookup_insert_eq in Hx' by by eapply lookup_lt_Some. congruence.
  - rewrite list_lookup_insert_ne in Hx' by done. congruence.
Qed.

Lemma element_by_id_reset (name : string) (d : document) (h : nat) :
  element_by_id name (reset_control h <$> d) = element_by_id name d.
Proof.
  apply element_by_id_same_ids; [by rewrite length_fmap|].
  intros k x x' Hx Hx'. rewrite list_lookup_fmap, Hx in Hx'. injection Hx' as <-.
  unfold reset_control. by destruct (owned_by h x).
Qed.

Section Settled.
Context (el : nat) (goal : number).

Local Abbreviation kept := (fun w : world => finished el goal w ∧ settled el w).

(** An edit that keeps the id, and the text when it is an edit of [el]. *)
Lemma kept_modify (r : ref) (f : element → element) :
  (∀ e, id (f e) = id e) →
  (r = Some el → ∀ e, textContent (f e) = textContent e) →
  preserves kept (modify r f).
Proof.
  intros Hid Htx. destruct r as [h|]; [|by intros w Hw].
  apply preserves_modify_at. intros w e [[Hq Ht] (Ho & Hb & Hti)] He.
  split; [split|split; [|split]]; try done.
  - unfold text_of in *. simpl. destruct (decide (h = el)) as [->|Hne].
    + rewrite list_lookup_insert_eq by by eapply lookup_lt_Some.
      rewrite He in Ht. simpl in *. by rewrite Htx.
    + by rewrite list_lookup_insert_ne.
  - simpl. by rewrite (element_by_id_insert _ _ _ e).
Qed.

Lemma kept_unobserve (observer x : nat) : preserves kept (unobserve observer x).
Proof.
  apply preserves_put. intros w [Hf (Ho & Hb & Hti)].
  split; [done|]. split; [|done]. simpl. intros o Hin Hcb.
  apply list_elem_of_lookup in Hin as [i Hi].
  destruct (decide (observer = i)) as [->|Hne].
  - rewrite list_lookup_alter_eq in Hi.
    destruct (observers w !! i) as [o0|] eqn:E; [|done]. injection Hi as <-. simpl in *.
    intros [Hin _]%elem_of_difference. apply (Ho o0); [|done..].
    by eapply list_elem_of_lookup_2.
  - rewrite list_lookup_alter_ne in Hi by done. apply Ho; [|done].
    by eapply list_elem_of_lookup_2.
Qed.

Lemma kept_requestAnimationFrame (cb : frame_callback) :
  ¬ for_element el cb → preserves kept (requestAnimationFrame cb).
Proof.
  intros Hcb. apply preserves_put. intros w [[Hq Ht] Hs].
  split; [|done]. split; [|done]. unfold no_frame_for in *. simpl.
  apply Forall_app. split; [done|]. by constructor.
Qed.

Lemma kept_setTimeout (cb : timer_callback) (delay : Q) :
  timer_off el cb → preserves kept (setTimeout cb delay).
Proof.
  intros Hcb. apply preserves_put. intros w [Hf (Ho & Hb & Hti)].
  split; [done|]. split; [done|]. split; [done|]. simpl.
  apply Forall_app. split; [done|]. by constructor.
Qed.

Lemma kept_reset (r : ref) : preserves kept (reset r).
Proof.
  unfold reset. apply preserves_bind; [apply preserves_deref|]. intros he.
  destruct (String.eqb _ _); [|apply preserves_throw].
  apply preserves_put. intros w [[Hq Ht] (Ho & Hb & Hti)].
  split; [split|split; [|split]]; try done.
  - unfold text_of in *. simpl. rewrite list_lookup_fmap.
    destruct (doc w !! el) as [e|]; [|done]. simpl in *.
    unfold reset_control. by destruct (owned_by _ e).
  - simpl. by rewrite element_by_id_reset.
Qed.

Lemma kept_uncaught : survives_uncaught kept.
Proof. by intros f w. Qed.

Lemma kept_classes : survives_classes kept.
Proof.
  intros w h e f Hw He.
  pose proof (kept_modify (Some h) (with_classList f)) as H.
  specialize (H ltac:(done) ltac:(done) w Hw). by rewrite (modify_live _ _ _ _ He) in H.
Qed.

Lemma kept_deliver (observer : nat) (entries : list IntersectionObserverEntry)
    (w : world) :
  kept w → kept (deliver observer entries w).
Proof.
  intros Hw. unfold deliver. destruct (observers w !! observer) as [o|] eqn:E; [|done].
  apply preserves_invoke; [apply kept_uncaught| |done].
  destruct (callback o) eqn:Ecb; simpl.
  - apply preserves_forEach. intros entry.
    destruct (isIntersecting entry); [|apply preserves_ret].
    apply preserves_bind; [|intros _; apply kept_unobserve].
    by apply kept_modify.
  - apply preserves_forEach_in. intros entry [Hobs _]%list_elem_of_filter.
    assert (Hne : target entry ≠ el).
    { intros Heq. destruct Hw as [_ (Ho & _)]. apply (Ho o); [|done|by rewrite <- Heq].
      by eapply list_elem_of_lookup_2. }
    destruct (isIntersecting entry); [|apply preserves_ret].
    apply preserves_bind; [|intros _; apply kept_unobserve].
    unfold animateCounter, getAttribute, performance_now.
    apply preserves_bind; [|intros attr].
    + apply preserves_bind; [apply preserves_deref | intros ?; apply preserves_ret].
    + apply preserves_bind; [apply preserves_get | intros ?].
      apply kept_requestAnimationFrame. simpl. congruence.
Qed.

Lemma settled_frame (t : Q) (w : world) : settled el w → settled el (frame t w).
Proof.
  intros Hw. apply (footprint_frame (settled el));
    [by intros ? ? ? | | by intros ? ? ? | done].
  intros w' h e tx (Ho & Hb & Hti) He. split; [done|]. split; [|done].
  simpl. by rewrite (element_by_id_insert _ _ _ e).
Qed.

Lemma kept_timeout (w : world) : kept w → kept (timeout w).
Proof.
  intros Hw. unfold timeout.
  destruct (pop_earliest (timers w)) as [[[due cb] rest]|] eqn:E; [|done].
  destruct Hw as [Hf (Ho & Hb & Hti)].
  destruct (pop_earliest_Forall _ _ _ _ E Hti) as [Hcb Hrest]. simpl in Hcb.
  apply preserves_invoke; [apply kept_uncaught| |];
    [|split; [exact Hf|]; split; [exact Ho|]; split; [exact Hb | exact Hrest]].
  destruct cb as [btn form_|btn]; simpl in *.
  - unfold run_sendDone, set_textContent, set_style_background, set_style_opacity.
    repeat (apply preserves_bind; [by apply kept_modify | intros _]).
    apply preserves_bind; [apply kept_reset | intros _]. by apply kept_setTimeout.
  - unfold run_sendReset, set_textContent, set_disabled, set_style_background.
    repeat (apply preserves_bind; [by apply kept_modify | intros _]).
    by apply kept_modify.
Qed.

(** The statements of [handleFormSubmit] after its guard. *)
Lemma kept_sending (btn form_ : ref) (ev : Event) :
  btn ≠ Some el →
  preserves kept
    (bind (set_textContent btn (Text "Enviando...")) (fun _ =>
     bind (set_disabled btn true) (fun _ =>
     bind (set_style_opacity btn "0.7") (fun _ =>
     bind (setTimeout (sendDone btn form_) 1200) (fun _ => ret ev))))).
Proof.
  intros Hb. unfold set_textContent, set_disabled, set_style_opacity.
  repeat (apply preserves_bind; [by apply kept_modify | intros _]).
  apply preserves_bind; [|intros _; apply preserves_ret].
  by apply kept_setTimeout.
Qed.

Lemma kept_handleFormSubmit (ev : Event) : preserves kept (handleFormSubmit ev).
Proof.
  intros w Hw. pose proof Hw as [_ (_ & Hb & _)].
  unfold handleFormSubmit, getElementById.
  rewrite (bind_returned _ _ w w (element_by_id "submitBtn" (doc w))) by done.
  rewrite (bind_returned _ _ w w (element_by_id "contactForm" (doc w))) by done.
  destruct (element_by_id "submitBtn" (doc w)) as [btn|]; [|exact Hw].
  destruct (element_by_id "contactForm" (doc w)) as [form_|]; [|exact Hw].
  exact (kept_sending (Some btn) (Some form_) _ Hb w Hw).
Qed.

Lemma kept_submit (w : world) : kept w → kept (submit w).
Proof.
  intros Hw. unfold submit, invoke.
  pose proof (kept_handleFormSubmit (mkEvent false) w Hw) as H.
  destruct (handleFormSubmit _ w); simpl in *; [done|]. by apply kept_uncaught.
Qed.

Lemma kept_step (w : world) (ev : event) : kept w → kept (step w ev).
Proof.
  intros Hw. destruct ev; simpl.
  - apply footprint_dispatch; [apply kept_uncaught | apply kept_classes | done].
  - apply footprint_dispatch; [apply kept_uncaught | apply kept_classes | done].
  - by apply kept_deliver.
  - destruct Hw as [Hf Hs]. split; [by apply frame_finished | by apply settled_frame].
  - by apply kept_timeout.
  - by apply kept_submit.
Qed.

Lemma kept_run (w : world) (evs : list event) : kept w → kept (run w evs).
Proof.
  revert w. induction evs as [|ev evs IH]; intros w Hw; [done|].
  simpl. apply IH. by apply kept_step.
Qed.

End Settled.

(** X23.  A counter that has finished keeps its final number whatever
    happens on the page afterwards: once the loop of an element has ended,
    and provided no counter observer observes the element any more, it is
    not the submit button and no pending timer holds it, every later
    scroll, click, intersection delivery, animation frame (of other
    counters), timer or submission leaves the element's text at the rounded
    target and requests no frame for it. *)
Theorem counter_stays_finished (w : world) (el : nat) (target : number)
    (evs : list event) :
  finished el target w →
  settled el w →
  finished el target (run w evs) ∧ settled el (run w evs) ∧
  text_of el (run w evs) = Some (NumberText (Math_round target)).
Proof.
  intros Hf Hs. destruct (kept_run el target w evs) as [Hf' Hs']; [done|].
  split; [done|]. split; [done|]. apply Hf'.
Qed.

(** ** A counter of the loaded page, from its trigger on *)

Section EndToEnd.
Context (d : document) (y now : Q) (el : nat) (e : element) (n : Z).
Hypothesis He : d !! el = Some e.
Hypothesis Hclass : "stat-number" ∈ classList e.
Hypothesis Hparse : parseInt (ToString (attributes e !! "data-target")) = Num (inject_Z n).
Hypothesis Hbutton : element_by_id "submitBtn" d ≠ Some el.

Local Abbreviation reveal_observers :=
  (observing revealEntries (1 # 10) "0px 0px -50px 0px"
     (select (fun _ e => animate_on_scroll e) d)).

Local Abbreviation counters := (select (fun _ e => stat_number_with_target e) d).

Local Abbreviation the_observer :=
  (mkObserver counterEntries (1 # 2) "0px" (list_to_set counters)).

Lemma counter_selected : el ∈ counters.
Proof.
  apply elem_of_select. exists e. split; [done|].
  unfold stat_number_with_target, has_class, has_attribute.
  apply andb_true_iff. split; apply bool_decide_eq_true; [done|].
  destruct (attributes e !! "data-target") as [s|] eqn:E; [eauto|].
  simpl in Hparse. discriminate Hparse.
Qed.

Lemma loaded_observers :
  observers (load d y now) = (reveal_observers ++ [the_observer])%list.
Proof.
  rewrite load_world. simpl. f_equal. unfold observing at 1.
  pose proof counter_selected as Hin.
  destruct counters as [|x l]; [by apply elem_of_nil in Hin | done].
Qed.

Lemma loaded_element :
  ∃ e', doc (load d y now) !! el = Some e' ∧ attributes e' = attributes e.
Proof.
  destruct (same_markup_navbar_at d y) as [Hlen Hm].
  rewrite load_world. simpl.
  destruct (lookup_lt_is_Some_2 (navbar_at y d) el) as [e' He'].
  { rewrite Hlen. by eapply lookup_lt_Some. }
  exists e'. split; [done|]. destruct (Hm el e e' He He') as [Hk _]. by inversion Hk.
Qed.

(** The page right after the counter's entry has been delivered. *)
Lemma triggered :
  let w1 := step (load d y now) (Intersect (length reveal_observers) [mkEntry el true]) in
  animating el (Num (inject_Z n)) now w1 ∧
  timers w1 = [] ∧
  same_markup_doc d (doc w1) ∧
  (∀ o, o ∈ observers w1 → callback o = counterEntries → el ∉ observed o).
Proof.
  intros w1. set (w0 := load d y now) in *.
  assert (Ho : observers w0 !! length reveal_observers = Some the_observer).
  { unfold w0. rewrite loaded_observers. by apply list_lookup_middle. }
  destruct loaded_element as (e' & He' & Hattr). fold w0 in He'.
  assert (Hrec : received the_observer [mkEntry el true] = [mkEntry el true]).
  { unfold received. rewrite filter_cons, filter_nil. cbn [target observed].
    rewrite decide_True; [done|]. apply elem_of_list_to_set, counter_selected. }
  destruct (run_counterEntries_returns (length reveal_observers) [mkEntry el true] w0)
    as (w' & Hr & Hd & Hy & Hc & Hl & Ht & Hu & Hf & Hobs & Hun).
  { intros entry ->%list_elem_of_singleton. simpl. eauto. }
  assert (Hw1 : w1 = w').
  { unfold w1. simpl. unfold deliver. rewrite Ho, Hrec. simpl. unfold invoke.
    by rewrite Hr. }
  assert (Hframes : animationFrames w' = [update (Some el) (Num (inject_Z n)) (Num now)]).
  { rewrite Hf. unfold w0 at 1. rewrite load_world. simpl. unfold started. simpl.
    unfold counter_target. rewrite He'. simpl. rewrite Hattr, Hparse.
    unfold w0. by rewrite load_world. }
  rewrite Hw1. split; [|split; [|split]].
  - split; [|rewrite Hd; eauto]. exists [], []. split; [done | constructor].
  - rewrite Ht. unfold w0. by rewrite load_world.
  - rewrite Hd. unfold w0. rewrite load_world. apply same_markup_navbar_at.
  - intros o Hin Hcb. apply list_elem_of_lookup in Hin as [i Hi].
    destruct (Forall2_lookup_r _ _ _ i o Hobs Hi) as (o0 & Hi0 & Hn).
    destruct Hn as (Hcb0 & _). rewrite Hcb in Hcb0.
    unfold w0 in Hi0. rewrite loaded_observers in Hi0.
    assert (Hidx : i = length reveal_observers).
    { destruct (decide (i < length reveal_observers)%nat) as [Hlt|Hge].
      - rewrite lookup_app_l in Hi0 by done.
        apply list_elem_of_lookup_2, elem_of_observing in Hi0 as [-> _]. discriminate.
      - rewrite lookup_app_r in Hi0 by lia.
        destruct (i - length reveal_observers)%nat as [|k] eqn:Ek; [lia | done]. }
    subst i. apply (Hun el); [|done]. simpl. by rewrite Nat.eqb_refl.
Qed.

Lemma counted_kept (t : Q) (evs : list event) :
  (now + 2000 <= t)%Q →
  let w := run (load d y now)
             ([Intersect (length reveal_observers) [mkEntry el true]; AnimationFrame t]
              ++ evs) in
  finished el (Num (inject_Z n)) w ∧ settled el w.
Proof.
  intros Ht w. destruct triggered as (Ha & Hti & Hm & Hob).
  set (w1 := step (load d y now) _) in *.
  assert (Hw : w = run (frame t w1) evs) by done.
  rewrite Hw. apply kept_run. split.
  - by apply (frame_animating el (Num (inject_Z n)) now w1 t).
  - assert (Hs1 : settled el w1).
    { split; [done|]. split; [|by rewrite Hti].
      by rewrite (same_markup_element_by_id _ _ Hm). }
    by apply settled_frame.
Qed.

End EndToEnd.


(** ** The further statements at the sample pages *)

Lemma link_click_closes_witness :
  is_Some (doc Cases.menu_open !! 1%nat) ∧
  is_Some (doc Cases.menu_open !! 2%nat) ∧
  ¬ shows "open" 2 (invoke (run_listener (linkClick (Some 1%nat) (Some 2%nat))) Cases.menu_open) ∧
  invoke (run_listener (linkClick (Some 1%nat) (Some 2%nat)))
    (invoke (run_listener (linkClick (Some 1%nat) (Some 2%nat))) Cases.menu_open)
  = invoke (run_listener (linkClick (Some 1%nat) (Some 2%nat))) Cases.menu_open.
Proof.
  assert (H1 : is_Some (doc Cases.menu_open !! 1%nat)) by (eexists; evaluated).
  assert (H2 : is_Some (doc Cases.menu_open !! 2%nat)) by (eexists; evaluated).
  destruct (link_click_closes Cases.menu_open 1 2 H1 H2) as (_ & Ho & Hi & _).
  split; [exact H1|]. split; [exact H2|]. split; [exact Ho | exact Hi].
Defined.


Lemma non_intersecting_ignored_witness :
  step Sample.loaded (Intersect 0 [mkEntry 4 false; mkEntry 5 true]) = Sample.loaded.
Proof.
  apply non_intersecting_ignored. intros o entry Ho [Hobs Hin]%list_elem_of_filter.
  assert (Ho' : o = Sample.reveal_observer).
  { assert (H : observers Sample.loaded !! 0%nat = Some Sample.reveal_observer)
      by evaluated. congruence. }
  subst o. apply elem_of_cons in Hin as [->|Hin]; [done|].
  apply list_elem_of_singleton in Hin as ->. simpl in Hobs.
  apply elem_of_singleton in Hobs. discriminate.
Defined.

Lemma counter_starts_once_witness :
  observers Sample.loaded !! 1%nat = Some Cases.counter_observer ∧
  unobserved 1 5 (run (step Sample.loaded (Intersect 1 [mkEntry 5 true])) [Scroll 100]).
Proof.
  assert (Ho : observers Sample.loaded !! 1%nat = Some Cases.counter_observer)
    by evaluated.
  destruct (counter_starts_once Sample.loaded 1 Cases.counter_observer [mkEntry 5 true])
    as (_ & _ & _ & _ & _ & H).
  - exact Ho.
  - reflexivity.
  - intros h Hh. apply elem_of_list_to_set in Hh.
    apply elem_of_cons in Hh as [->|Hh]; [eexists; evaluated|].
    apply list_elem_of_singleton in Hh as ->. eexists; evaluated.
  - split; [exact Ho|].
    destruct (H 5%nat [Scroll 100] []) as [Hu _]; [evaluated | exact Hu].
Defined.


Lemma counter_within_range_witness :
  animating 9 (Num (inject_Z 25)) 0 Sample.counting_second ∧
  ∃ a : Z, text_of 9 (frame 500 Sample.counting_second)
             = Some (NumberText (Num (inject_Z a))) ∧ (0 <= a <= 25)%Z.
Proof.
  assert (Ha : animating 9 (Num (inject_Z 25)) 0 Sample.counting_second).
  { split; [|eexists; evaluated]. exists [], []. split; [evaluated | constructor]. }
  destruct (counter_within_range 9 25 0 Sample.counting_second 500 Ha)
    as (a & Ht & Hr & _); [evaluated|].
  split; [exact Ha|]. exists a. split; [exact Ht|]. apply Hr. lia.
Defined.





Lemma reveal_only_adds_visible_witness :
  observers Sample.loaded !! 0%nat = Some Sample.reveal_observer ∧
  shows "visible" 4 (step Sample.loaded (Intersect 0 [mkEntry 4 true])) ∧
  animationFrames (step Sample.loaded (Intersect 0 [mkEntry 4 true]))
    = animationFrames Sample.loaded.
Proof.
  assert (Ho : observers Sample.loaded !! 0%nat = Some Sample.reveal_observer)
    by evaluated.
  destruct (reveal_only_adds_visible Sample.loaded 0 Sample.reveal_observer
              [mkEntry 4 true]) as (_ & Hf & _ & _ & _ & Hv & _).
  - exact Ho.
  - reflexivity.
  - simpl. intros h ->%elem_of_singleton. eexists. evaluated.
  - split; [exact Ho|]. split; [|exact Hf]. apply (Hv 4%nat). evaluated.
Defined.



Lemma counter_stays_finished_witness :
  finished 5 (Num 100) Cases.counted ∧
  text_of 5 (run Cases.counted
               [Submit; Timeout; Intersect 1 [mkEntry 5 true]; AnimationFrame 2500;
                Click 1; Timeout])
    = Some (NumberText (Math_round (Num 100))).
Proof.
  assert (Hf : finished 5 (Num 100) Cases.counted).
  { split; [|evaluated]. unfold no_frame_for.
    assert (H : animationFrames Cases.counted = []) by evaluated.
    rewrite H. apply Forall_nil_2. }
  assert (Hs : settled 5 Cases.counted).
  { assert (Ho : observers Cases.counted =
                   [Sample.reveal_observer;
                    mkObserver counterEntries (1 # 2) "0px" (list_to_set [9%nat])])
      by evaluated.
    assert (Hb : element_by_id "submitBtn" (doc Cases.counted) = Some 8%nat) by evaluated.
    assert (Ht : timers Cases.counted = []) by evaluated.
    split; [|split].
    - rewrite Ho. intros o Hin Hcb.
      apply elem_of_cons in Hin as [->|Hin]; [discriminate Hcb|].
      apply list_elem_of_singleton in Hin as ->. cbn [observed].
      intros Hin%elem_of_list_to_set. apply list_elem_of_singleton in Hin. discriminate Hin.
    - rewrite Hb. discriminate.
    - rewrite Ht. apply Forall_nil_2. }
  destruct (counter_stays_finished Cases.counted 5 (Num 100)
              [Submit; Timeout; Intersect 1 [mkEntry 5 true]; AnimationFrame 2500;
               Click 1; Timeout] Hf Hs) as (_ & _ & Htx).
  split; [exact Hf | exact Htx].
Defined.

